(** * TextStation text analysis: [getMediaRules] and [analyzeText]

    A shallow embedding of the text processor of the TextStation API
    (the module exporting [getMediaRules], [analyzeText] and
    [searchDrive]) and the proofs of its specification.

    JavaScript strings are sequences of UTF-16 code units; every string
    operation the analyzer uses ([length], [trim], [split], [slice],
    [match], [replace]) works on code units, so a string is a list of
    code units here. *)

From Stdlib Require Import Ascii String DecimalString.
From Stdlib Require Import List Bool Arith ZArith NArith QArith Qround Lia.
From Stdlib Require Import Permutation Sorted.
Import ListNotations.

Close Scope Q_scope.
Open Scope nat_scope.
Open Scope list_scope.

(* ================================================================== *)
(** ** Strings *)

Module Str.

(** A UTF-16 code unit. *)
Definition unit16 := N.

Definition str := list unit16.

Definition eqb (a b : str) : bool :=
  if list_eq_dec N.eq_dec a b then true else false.

(** The code units of a string literal of the source.  The source file
    is UTF-8; the engine decodes it to UTF-16. *)
Fixpoint utf16 (s : string) : str :=
  match s with
  | EmptyString => []
  | String a1 s1 =>
    let b1 := N_of_ascii a1 in
    if (b1 <? 128)%N then b1 :: utf16 s1 else
    match s1 with
    | EmptyString => []
    | String a2 s2 =>
      let c2 := (N_of_ascii a2 - 128)%N in
      if (b1 <? 224)%N then ((b1 - 192) * 64 + c2)%N :: utf16 s2 else
      match s2 with
      | EmptyString => []
      | String a3 s3 =>
        let c3 := (N_of_ascii a3 - 128)%N in
        if (b1 <? 240)%N
        then ((b1 - 224) * 4096 + c2 * 64 + c3)%N :: utf16 s3
        else
        match s3 with
        | EmptyString => []
        | String a4 s4 =>
          let c4 := (N_of_ascii a4 - 128)%N in
          let cp := ((b1 - 240) * 262144 + c2 * 4096 + c3 * 64 + c4
                     - 65536)%N in
          (55296 + cp / 1024)%N :: (56320 + cp mod 1024)%N :: utf16 s4
        end
      end
    end
  end.

(** [String(n)] for a non-negative integer: its decimal digits. *)
Definition of_nat (n : nat) : str :=
  utf16 (NilZero.string_of_uint (Nat.to_uint n)).

(** White space and line terminators: what [trim] strips and what the
    class [\s] matches. *)
Definition isWhiteSpace (c : unit16) : bool :=
  ((9 <=? c) && (c <=? 13) || (c =? 32) || (c =? 160) || (c =? 5760)
   || (8192 <=? c) && (c <=? 8202) || (c =? 8232) || (c =? 8233)
   || (c =? 8239) || (c =? 8287) || (c =? 12288) || (c =? 65279))%N.

Fixpoint dropWhile (p : unit16 -> bool) (s : str) : str :=
  match s with
  | [] => []
  | c :: s' => if p c then dropWhile p s' else s
  end.

(** [s.trim()] *)
Definition trim (s : str) : str :=
  rev (dropWhile isWhiteSpace (rev (dropWhile isWhiteSpace s))).

(** [s.split(re)] for a regular expression [re] that matches exactly
    the single code units satisfying [sep]: the pieces between the
    separators, empty pieces included. *)
Fixpoint split (sep : unit16 -> bool) (s : str) : list str :=
  match s with
  | [] => [[]]
  | c :: s' =>
    if sep c then [] :: split sep s'
    else match split sep s' with
         | piece :: pieces => (c :: piece) :: pieces
         | [] => [[c]]
         end
  end.

(** [s.slice(-n)]: the last [n] code units, all of [s] when it is
    shorter. *)
Definition slice_last (n : nat) (s : str) : str :=
  skipn (length s - n) s.

(** [s.replace(/\s+/g, by)]: every maximal run of white space is
    replaced by [by].  [in_run] tells that the previous code unit was
    white space, so the run it belongs to has been replaced already. *)
Fixpoint replace_ws_runs (by_ : str) (in_run : bool) (s : str) : str :=
  match s with
  | [] => []
  | c :: s' =>
    if isWhiteSpace c
    then (if in_run then [] else by_) ++ replace_ws_runs by_ true s'
    else c :: replace_ws_runs by_ false s'
  end.

End Str.

Import Str.

(* ================================================================== *)
(** ** Exceptions *)

(** The outcome of a call: a value, or a thrown [Error] (of which the
    callers only read the [message]).  For an [async] function [Return]
    is the resolved promise and [Throw] the rejected one. *)
Inductive outcome (A : Type) : Type :=
| Return (a : A)
| Throw (message : str).

Arguments Return {A} a.
Arguments Throw {A} message.

Definition bind {A B : Type} (m : outcome A) (k : A -> outcome B)
  : outcome B :=
  match m with
  | Return a => k a
  | Throw e => Throw e
  end.

(** [try { body } catch (error) { handler }] *)
Definition try_catch {A : Type} (body : outcome A)
           (handler : str -> outcome A) : outcome A :=
  match body with
  | Return a => Return a
  | Throw e => handler e
  end.

Declare Scope js_scope.
Delimit Scope js_scope with js.
Notation "x <- m ;; k" := (bind m (fun x => k))
  (at level 61, m at next level, right associativity) : js_scope.
Open Scope js_scope.

(** [list.forEach(item => ...)] where the callback updates the state [S]
    and may throw: the first exception ends the loop. *)
Fixpoint forEach {A S : Type} (items : list A) (f : A -> S -> outcome S)
         (s : S) : outcome S :=
  match items with
  | [] => Return s
  | item :: rest => s' <- f item s ;; forEach rest f s'
  end.

(* ================================================================== *)
(** ** Regular expressions *)

(** The regular-expression engine is the host's.  Of it the analyzer
    uses the constructor (which throws a [SyntaxError] on a pattern it
    cannot compile) and, through [String.prototype.match], the search
    for the next match at or after [lastIndex].  The analyzer gives the
    constructor the flags [g]: the expression is global, and since the
    flag [i] is not among them the engine does not ignore case. *)
Record RegExpEngine : Type := {
  regexp : Type;
  (** [new RegExp(pattern, flags)] *)
  RegExp_new : str -> str -> outcome regexp;
  (** The properties [global] and [ignoreCase] of an expression: that
      the flag [g], the flag [i], was given to the constructor. *)
  global : regexp -> bool;
  ignoreCase : regexp -> bool;
  RegExp_flags : forall pattern flags rx,
      RegExp_new pattern flags = Return rx ->
      global rx = existsb (N.eqb 103) flags
      /\ ignoreCase rx = existsb (N.eqb 105) flags;
  (** The leftmost match of the expression in [s] that starts at index
      [lastIndex] or later: its start and end index. *)
  exec : regexp -> str -> nat -> option (nat * nat);
  exec_range : forall rx s lastIndex b e,
      exec rx s lastIndex = Some (b, e) ->
      lastIndex <= b /\ b <= e /\ e <= length s
}.

Section Match.

Variable E : RegExpEngine.

(** The loop of [RegExp.prototype[Symbol.match]] for a global
    expression: [exec] is repeated from [lastIndex], which a match
    moves to its end, and one further after an empty match; the loop
    ends when [exec] fails, as it does once [lastIndex] is beyond the
    end of the string.  Each successful round increases [lastIndex],
    so [fuel = length s + 1 - lastIndex] rounds are all there can be
    (lemma [match_from_fuel]). *)
Fixpoint match_from (fuel : nat) (rx : regexp E) (s : str)
         (lastIndex : nat) : list (nat * nat) :=
  match fuel with
  | O => []
  | S fuel' =>
    if length s <? lastIndex then [] else
    match exec E rx s lastIndex with
    | None => []
    | Some (b, e) =>
      (b, e) :: match_from fuel' rx s (if e =? b then e + 1 else e)
    end
  end.

(** The index ranges of all matches of a global expression in [s]. *)
Definition match_ranges (rx : regexp E) (s : str) : list (nat * nat) :=
  match_from (length s + 1) rx s 0.

(** [s.substring(b, e)] *)
Definition substring (s : str) (be : nat * nat) : str :=
  firstn (snd be - fst be) (skipn (fst be) s).

(** [s.match(rx)] for a global expression: [null] when there is no
    match, the array of the matched substrings otherwise. *)
Definition String_match (s : str) (rx : regexp E) : option (list str) :=
  match match_ranges rx s with
  | [] => None
  | ranges => Some (map (substring s) ranges)
  end.

End Match.

(* ================================================================== *)
(** ** Objects used as maps *)

(** [endingPatterns] is a plain object keyed by strings.  Its own
    properties are kept in creation order; [Object.entries] lists the
    keys that are array indices first, in ascending numeric order, and
    the other keys after them in creation order.  (No property of
    [Object.prototype] has a name of five code units or fewer, so a
    lookup of an ending never reaches the prototype.) *)
Module JsObject.

Definition t := list (str * nat).

Fixpoint get (o : t) (key : str) : option nat :=
  match o with
  | [] => None
  | (k, v) :: o' => if Str.eqb k key then Some v else get o' key
  end.

(** [o[key] = v]: an existing property keeps its place. *)
Fixpoint set (o : t) (key : str) (v : nat) : t :=
  match o with
  | [] => [(key, v)]
  | (k, v') :: o' =>
    if Str.eqb k key then (k, v) :: o' else (k, v') :: set o' key v
  end.

Definition isDigit (c : unit16) : bool := ((48 <=? c) && (c <=? 57))%N.

(** The number a string of digits denotes. *)
Definition toNumber (key : str) : N :=
  fold_left (fun acc c => (acc * 10 + (c - 48))%N) key 0%N.

(** An array index is the canonical decimal form of an integer from 0
    to 2^32 - 2. *)
Definition isArrayIndex (key : str) : bool :=
  match key with
  | [] => false
  | c :: rest =>
    forallb isDigit key
    && (negb (c =? 48)%N || (length rest =? 0))
    && (toNumber key <? 4294967295)%N
  end.

Fixpoint insert (e : str * nat) (sorted : t) : t :=
  match sorted with
  | [] => [e]
  | e' :: rest =>
    if (toNumber (fst e) <=? toNumber (fst e'))%N
    then e :: sorted
    else e' :: insert e rest
  end.

Definition sort (o : t) : t := fold_right insert [] o.

(** [Object.entries(o)] *)
Definition entries (o : t) : t :=
  sort (filter (fun e => isArrayIndex (fst e)) o)
  ++ filter (fun e => negb (isArrayIndex (fst e))) o.

End JsObject.

(* ================================================================== *)
(** ** Data model *)

Module PhraseRule.
Record t := { text : str; suggestion : str }.
End PhraseRule.

Module PatternRule.
Record t := { pattern : str; suggestion : str }.
End PatternRule.

Module MediaRule.
Record t := { pattern : str; description : str; mediaType : str }.
End MediaRule.

(** The rule set [getMediaRules] builds and [analyzeText] reads. *)
Module Rules.
Record t := {
  ambiguousPhrases : list PhraseRule.t;
  repetitivePatterns : list PatternRule.t;
  mediaSpecificRules : list MediaRule.t
}.

Definition empty : t :=
  {| ambiguousPhrases := [];
     repetitivePatterns := [];
     mediaSpecificRules := [] |}.
End Rules.

Module PhraseIssue.
Record t := { text : str; count : nat; suggestion : str }.
End PhraseIssue.

Module Ending.
Record t := { pattern : str; count : nat; suggestion : str }.
End Ending.

Module MediaIssue.
Record t := { pattern : str; count : nat; description : str }.
End MediaIssue.

(** The [result] object of [analyzeText]. *)
Module Result.
Record t := {
  mediaScore : Z;
  ambiguousPhrases : list PhraseIssue.t;
  repetitiveEndings : list Ending.t;
  mediaSpecificIssues : list MediaIssue.t;
  improvements : list str
}.

Definition initial : t :=
  {| mediaScore := 0;
     ambiguousPhrases := [];
     repetitiveEndings := [];
     mediaSpecificIssues := [];
     improvements := [] |}.

(** [result.ambiguousPhrases.push(x)] and the like. *)
Definition push_ambiguousPhrases (r : t) (x : PhraseIssue.t) : t :=
  {| mediaScore := mediaScore r;
     ambiguousPhrases := ambiguousPhrases r ++ [x];
     repetitiveEndings := repetitiveEndings r;
     mediaSpecificIssues := mediaSpecificIssues r;
     improvements := improvements r |}.

Definition push_repetitiveEndings (r : t) (x : Ending.t) : t :=
  {| mediaScore := mediaScore r;
     ambiguousPhrases := ambiguousPhrases r;
     repetitiveEndings := repetitiveEndings r ++ [x];
     mediaSpecificIssues := mediaSpecificIssues r;
     improvements := improvements r |}.

Definition push_mediaSpecificIssues (r : t) (x : MediaIssue.t) : t :=
  {| mediaScore := mediaScore r;
     ambiguousPhrases := ambiguousPhrases r;
     repetitiveEndings := repetitiveEndings r;
     mediaSpecificIssues := mediaSpecificIssues r ++ [x];
     improvements := improvements r |}.

Definition push_improvements (r : t) (x : str) : t :=
  {| mediaScore := mediaScore r;
     ambiguousPhrases := ambiguousPhrases r;
     repetitiveEndings := repetitiveEndings r;
     mediaSpecificIssues := mediaSpecificIssues r;
     improvements := improvements r ++ [x] |}.

Definition set_mediaScore (r : t) (score : Z) : t :=
  {| mediaScore := score;
     ambiguousPhrases := ambiguousPhrases r;
     repetitiveEndings := repetitiveEndings r;
     mediaSpecificIssues := mediaSpecificIssues r;
     improvements := improvements r |}.
End Result.

(* ================================================================== *)
(** ** The rule store *)

(** The [styleRules] collection of the document database, reduced to
    what [getMediaRules] asks of it. *)
Module Firestore.

(** The fields of a rule document read by the query and by the
    classification. *)
Record doc := {
  isActive : bool;
  mediaTypes : list str;
  type : str;
  text : str;
  pattern : str;
  suggestion : str;
  description : str;
  mediaType : str
}.

(** The database: its documents, or the error every read of it
    throws. *)
Inductive db :=
| Available (styleRules : list doc)
| Failing (message : str).

Inductive condition :=
| isActive_eq (b : bool)
| mediaTypes_array_contains (m : str).

Definition query := list condition.

(** [query.where(field, op, value)] *)
Definition where_ (q : query) (c : condition) : query := q ++ [c].

Definition satisfies (d : doc) (c : condition) : bool :=
  match c with
  | isActive_eq b => Bool.eqb (isActive d) b
  | mediaTypes_array_contains m => existsb (Str.eqb m) (mediaTypes d)
  end.

(** [await query.get()]: the snapshot, in document order. *)
Definition get (store : db) (q : query) : outcome (list doc) :=
  match store with
  | Available styleRules =>
    Return (filter (fun d => forallb (satisfies d) q) styleRules)
  | Failing message => Throw message
  end.

End Firestore.

(* ================================================================== *)
(** ** Numbers *)

(** The numbers of the detailed analysis are quotients of string
    lengths.  They are modelled as exact rationals: for integers below
    2^52 the double-precision quotient compares with 50, with 40 and
    with every half-integer as the exact quotient does, so the tests
    and [Math.round] below decide as the floating-point ones. *)
Module Number.

Definition of_nat (n : nat) : Q := inject_Z (Z.of_nat n).

Definition ltb (a b : Q) : bool := negb (Qle_bool b a).

Definition gtb (a b : Q) : bool := ltb b a.

(** [Math.round]: the nearest integer, halves upwards. *)
Definition round (q : Q) : Z := Qfloor (q + (1 # 2)).

(** [String(z)] for an integer. *)
Definition toString (z : Z) : str :=
  match z with
  | Zneg p => utf16 "-" ++ Str.of_nat (Pos.to_nat p)
  | _ => Str.of_nat (Z.to_nat z)
  end.

End Number.

(* ================================================================== *)
(** ** getMediaRules *)

(** A string is truthy when it is defined and not empty. *)
Definition truthy (v : option str) : bool :=
  match v with
  | Some (_ :: _) => true
  | _ => false
  end.

(** The callback of [snapshot.forEach]: the document goes to the list
    its [type] names, a document of another type to none. *)
Definition classify (rules : Rules.t) (data : Firestore.doc) : Rules.t :=
  if Str.eqb (Firestore.type data) (utf16 "ambiguousPhrase") then
    {| Rules.ambiguousPhrases :=
         Rules.ambiguousPhrases rules
         ++ [{| PhraseRule.text := Firestore.text data;
                PhraseRule.suggestion := Firestore.suggestion data |}];
       Rules.repetitivePatterns := Rules.repetitivePatterns rules;
       Rules.mediaSpecificRules := Rules.mediaSpecificRules rules |}
  else if Str.eqb (Firestore.type data) (utf16 "repetitivePattern") then
    {| Rules.ambiguousPhrases := Rules.ambiguousPhrases rules;
       Rules.repetitivePatterns :=
         Rules.repetitivePatterns rules
         ++ [{| PatternRule.pattern := Firestore.pattern data;
                PatternRule.suggestion := Firestore.suggestion data |}];
       Rules.mediaSpecificRules := Rules.mediaSpecificRules rules |}
  else if Str.eqb (Firestore.type data) (utf16 "mediaSpecific") then
    {| Rules.ambiguousPhrases := Rules.ambiguousPhrases rules;
       Rules.repetitivePatterns := Rules.repetitivePatterns rules;
       Rules.mediaSpecificRules :=
         Rules.mediaSpecificRules rules
         ++ [{| MediaRule.pattern := Firestore.pattern data;
                MediaRule.description := Firestore.description data;
                MediaRule.mediaType := Firestore.mediaType data |}] |}
  else rules.

(** The query [getMediaRules] builds: the active rules, and of them
    those of the media type when one other than [一般] is given. *)
Definition rulesQuery (mediaType : option str) : Firestore.query :=
  let query := Firestore.where_ [] (Firestore.isActive_eq true) in
  match mediaType with
  | Some m =>
    if truthy mediaType && negb (Str.eqb m (utf16 "一般"))
    then Firestore.where_ query (Firestore.mediaTypes_array_contains m)
    else query
  | None => query
  end.

Definition getMediaRules (db : Firestore.db) (mediaType : option str)
  : outcome Rules.t :=
  try_catch
    (let query := rulesQuery mediaType in
     snapshot <- Firestore.get db query ;;
     let rules := Rules.empty in
     let rules := fold_left classify snapshot rules in
     Return rules)
    (fun error => Return Rules.empty).

(* ================================================================== *)
(** ** analyzeText *)

(** The sentence terminators of [/[。．.!?！？]/]. *)
Definition isTerminator (c : unit16) : bool :=
  existsb (N.eqb c) (utf16 "。．.!?！？").

Definition isSpace (c : unit16) : bool := (c =? 32)%N.

Definition analysisErrorPrefix : str :=
  Eval vm_compute in utf16 "テキスト分析中にエラーが発生しました: ".

Definition baselineAdvice : str :=
  Eval vm_compute in
    utf16 "曖昧な表現や重複を避け、より具体的で多様な表現を心がけましょう。".

Definition lengthAdvicePrefix : str :=
  Eval vm_compute in utf16 "文が平均".

Definition lengthAdviceSuffix : str :=
  Eval vm_compute in
    utf16 "文字と長めです。短く区切ることを検討してください。".

Definition lengthAdvice (rounded : Z) : str :=
  lengthAdvicePrefix ++ Number.toString rounded ++ lengthAdviceSuffix.

Definition complexityAdvice : str :=
  Eval vm_compute in
    utf16 "文章が複雑すぎる可能性があります。短い文に分けることを検討してください。".

Definition endingSuggestionPrefix : str :=
  Eval vm_compute in utf16 "語尾の表現を変えてみてください。現在 ".

Definition endingSuggestionSuffix : str :=
  Eval vm_compute in utf16 " 回使用されています。".

Definition endingSuggestion (count : nat) : str :=
  endingSuggestionPrefix ++ Str.of_nat count ++ endingSuggestionSuffix.

(** The callback of [sentences.forEach]: an empty trimmed sentence is
    skipped, another one adds 1 to the tally of its last five code
    units. *)
Definition tallyEnding (endingPatterns : JsObject.t) (sentence : str)
  : JsObject.t :=
  let trimmed := trim sentence in
  if length trimmed =? 0 then endingPatterns
  else
    let ending := slice_last 5 trimmed in
    JsObject.set endingPatterns ending
      (match JsObject.get endingPatterns ending with
       | Some n => if n =? 0 then 0 else n
       | None => 0
       end + 1).

(** The body of the loop over [Object.entries(endingPatterns)]. *)
Definition reportEnding (result : Result.t) (entry : str * nat) : Result.t :=
  let '(pattern, count) := entry in
  if 3 <=? count
  then Result.push_repetitiveEndings result
         {| Ending.pattern := pattern;
            Ending.count := count;
            Ending.suggestion := endingSuggestion count |}
  else result.

Section Analyzer.

Variable E : RegExpEngine.

(** The callback of [mediaRules.ambiguousPhrases.forEach]. *)
Definition checkPhrase (text : str) (phrase : PhraseRule.t)
           (result : Result.t) : outcome Result.t :=
  regex <- RegExp_new E (PhraseRule.text phrase) (utf16 "g") ;;
  let matches := String_match E text regex in
  match matches with
  | Some found =>
    if 0 <? length found
    then Return (Result.push_ambiguousPhrases result
                   {| PhraseIssue.text := PhraseRule.text phrase;
                      PhraseIssue.count := length found;
                      PhraseIssue.suggestion :=
                        PhraseRule.suggestion phrase |})
    else Return result
  | None => Return result
  end.

(** The callback of [mediaRules.mediaSpecificRules.forEach]. *)
Definition checkMediaRule (text : str) (rule : MediaRule.t)
           (result : Result.t) : outcome Result.t :=
  regex <- RegExp_new E (MediaRule.pattern rule) (utf16 "g") ;;
  let matches := String_match E text regex in
  match matches with
  | Some found =>
    if 0 <? length found
    then Return (Result.push_mediaSpecificIssues result
                   {| MediaIssue.pattern := MediaRule.pattern rule;
                      MediaIssue.count := length found;
                      MediaIssue.description :=
                        MediaRule.description rule |})
    else Return result
  | None => Return result
  end.

(** The block under [if (detailedAnalysis)]. *)
Definition detailed (text : str) (sentences : list str)
           (result : Result.t) : Result.t :=
  let averageSentenceLength :=
    (Number.of_nat (length text) / Number.of_nat (length sentences))%Q in
  let result :=
    if Number.gtb averageSentenceLength 50
    then Result.push_improvements result
           (lengthAdvice (Number.round averageSentenceLength))
    else result in
  let wordCount :=
    length (split isSpace (replace_ws_runs (utf16 " ") false text)) in
  let characterCount := length (replace_ws_runs [] false text) in
  let sentenceCount := length sentences in
  let readabilityScore :=
    (100 - (Number.of_nat characterCount / Number.of_nat sentenceCount
            / 10))%Q in
  if Number.ltb readabilityScore 60
  then Result.push_improvements result complexityAdvice
  else result.

(** The body of the [try] block. *)
Definition analyze (text : str) (mediaRules : Rules.t)
           (detailedAnalysis : bool) : outcome Result.t :=
  let result := Result.initial in
  if negb (truthy (Some text)) || Str.eqb (trim text) [] then Return result
  else
    result <- forEach (Rules.ambiguousPhrases mediaRules)
                      (checkPhrase text) result ;;
    let sentences := split isTerminator text in
    let endingPatterns := fold_left tallyEnding sentences [] in
    let result :=
      fold_left reportEnding (JsObject.entries endingPatterns) result in
    result <- forEach (Rules.mediaSpecificRules mediaRules)
                      (checkMediaRule text) result ;;
    let totalIssues :=
      length (Result.ambiguousPhrases result)
      + length (Result.repetitiveEndings result)
      + length (Result.mediaSpecificIssues result) in
    let maxScore := 100%Z in
    let issueWeight := 5%Z in
    let result :=
      Result.set_mediaScore result
        (Z.max 0 (maxScore - Z.of_nat totalIssues * issueWeight)) in
    let result :=
      if (Result.mediaScore result <? 70)%Z
      then Result.push_improvements result baselineAdvice
      else result in
    let result :=
      if detailedAnalysis then detailed text sentences result
      else result in
    Return result.

Definition analyzeText (text : str) (mediaRules : Rules.t)
           (detailedAnalysis : bool) : outcome Result.t :=
  try_catch (analyze text mediaRules detailedAnalysis)
            (fun error => Throw (analysisErrorPrefix ++ error)).

End Analyzer.

(* ================================================================== *)
(** * Functional description

    What the loops of [analyzeText] compute, as functions of the text
    and the rules, and the predicates the properties are stated with. *)

(** A text is blank when it is empty or has white space only. *)
Definition isBlank (text : str) : bool := forallb isWhiteSpace text.

(** Two ranges one after the other, without overlap: the later one
    starts at or after the end of the earlier one, and further on. *)
Definition before (r1 r2 : nat * nat) : Prop :=
  snd r1 <= fst r2 /\ fst r1 < fst r2.

Definition str_dec : forall a b : str, {a = b} + {a <> b} :=
  list_eq_dec N.eq_dec.

(** How often [key] occurs among [keys]. *)
Definition tally (keys : list str) (key : str) : nat :=
  count_occ str_dec keys key.

(** The distinct members of [keys], each at the place of its first
    occurrence. *)
Fixpoint firstOccurrences (keys : list str) : list str :=
  match keys with
  | [] => []
  | k :: rest =>
    k :: filter (fun x => negb (Str.eqb x k)) (firstOccurrences rest)
  end.

(** The ending keys of a text: of each sentence that is not empty once
    trimmed, the last five code units. *)
Definition endingKeys (text : str) : list str :=
  map (slice_last 5)
      (filter (fun trimmed => negb (length trimmed =? 0))
              (map trim (split isTerminator text))).

(** The sentences of a text in the words of the claim: the pieces
    between its terminators, the empty ones included.  It is compared
    with [split] in C3. *)
Inductive sentencesOf : str -> list str -> Prop :=
| sentencesOf_last (sentence : str) :
    Forall (fun c => isTerminator c = false) sentence ->
    sentencesOf sentence [sentence]
| sentencesOf_cons (sentence : str) (terminator : unit16) (rest : str)
                   (sentences : list str) :
    Forall (fun c => isTerminator c = false) sentence ->
    isTerminator terminator = true ->
    sentencesOf rest sentences ->
    sentencesOf (sentence ++ terminator :: rest) (sentence :: sentences).

(** A sentence trimmed, in the words of the claim: the white space
    before and after it is taken off, and none is left at either end.
    It is compared with [trim] in C3. *)
Definition trimmedOf (sentence trimmed : str) : Prop :=
  exists before after,
    sentence = before ++ trimmed ++ after
    /\ Forall (fun c => isWhiteSpace c = true) before
    /\ Forall (fun c => isWhiteSpace c = true) after
    /\ (forall c rest, trimmed = c :: rest -> isWhiteSpace c = false)
    /\ (forall front c, trimmed = front ++ [c] -> isWhiteSpace c = false).

(** [endingPatterns[ending] = (endingPatterns[ending] || 0) + 1] *)
Definition bump (o : JsObject.t) (ending : str) : JsObject.t :=
  JsObject.set o ending
    (match JsObject.get o ending with
     | Some n => if n =? 0 then 0 else n
     | None => 0
     end + 1).

(** Ascending numeric order of the keys. *)
Definition indexLe (a b : str * nat) : Prop :=
  (JsObject.toNumber (fst a) <= JsObject.toNumber (fst b))%N.

(** Ascending numeric order of keys. *)
Definition keyLe (a b : str) : Prop :=
  (JsObject.toNumber a <= JsObject.toNumber b)%N.

Definition mkEnding (entry : str * nat) : Ending.t :=
  {| Ending.pattern := fst entry;
     Ending.count := snd entry;
     Ending.suggestion := endingSuggestion (snd entry) |}.

(** The pattern is one the engine compiles. *)
Definition compiles (E : RegExpEngine) (pattern : str) : bool :=
  match RegExp_new E pattern (utf16 "g") with
  | Return _ => true
  | Throw _ => false
  end.

(** The patterns [analyzeText] compiles for a rule set, in the order
    in which it compiles them. *)
Definition patterns (rules : Rules.t) : list str :=
  map PhraseRule.text (Rules.ambiguousPhrases rules)
  ++ map MediaRule.pattern (Rules.mediaSpecificRules rules).

(** A rule set is well formed when the engine compiles each of its
    patterns. *)
Definition wellFormed (E : RegExpEngine) (rules : Rules.t) : bool :=
  forallb (compiles E) (patterns rules).

(** The number of matches of a pattern in the text. *)
Definition matchCount (E : RegExpEngine) (text pattern : str) : nat :=
  match RegExp_new E pattern (utf16 "g") with
  | Return rx => length (match_ranges E rx text)
  | Throw _ => 0
  end.

(** The global scan in the words of the claim: the matches are found
    from left to right, each the leftmost one at or after the end of
    the one before (one code unit further after an empty match), until
    none is left.  It is compared with the match loop in C5. *)
Inductive scanned (E : RegExpEngine) (rx : regexp E) (s : str)
  : nat -> list (nat * nat) -> Prop :=
| scanned_end (lastIndex : nat) :
    length s < lastIndex \/ exec E rx s lastIndex = None ->
    scanned E rx s lastIndex []
| scanned_match (lastIndex b e : nat) (rest : list (nat * nat)) :
    lastIndex <= length s ->
    exec E rx s lastIndex = Some (b, e) ->
    scanned E rx s (if e =? b then e + 1 else e) rest ->
    scanned E rx s lastIndex ((b, e) :: rest).

Definition mkPhraseIssue (E : RegExpEngine) (text : str)
           (phrase : PhraseRule.t) : PhraseIssue.t :=
  {| PhraseIssue.text := PhraseRule.text phrase;
     PhraseIssue.count := matchCount E text (PhraseRule.text phrase);
     PhraseIssue.suggestion := PhraseRule.suggestion phrase |}.

Definition mkMediaIssue (E : RegExpEngine) (text : str)
           (rule : MediaRule.t) : MediaIssue.t :=
  {| MediaIssue.pattern := MediaRule.pattern rule;
     MediaIssue.count := matchCount E text (MediaRule.pattern rule);
     MediaIssue.description := MediaRule.description rule |}.

(** One entry for each rule that matches, in the order of the rules. *)
Definition phraseIssues (E : RegExpEngine) (text : str)
           (rules : list PhraseRule.t) : list PhraseIssue.t :=
  map (mkPhraseIssue E text)
      (filter (fun phrase => 0 <? matchCount E text (PhraseRule.text phrase))
              rules).

Definition mediaIssues (E : RegExpEngine) (text : str)
           (rules : list MediaRule.t) : list MediaIssue.t :=
  map (mkMediaIssue E text)
      (filter (fun rule => 0 <? matchCount E text (MediaRule.pattern rule))
              rules).

(** The entries of [repetitiveEndings]: of the entries of the tally,
    those with a count of 3 or more. *)
Definition endings (text : str) : list Ending.t :=
  map mkEnding
      (filter (fun e => 3 <=? snd e)
              (JsObject.entries
                 (fold_left tallyEnding (split isTerminator text) []))).

Definition score (totalIssues : nat) : Z :=
  Z.max 0 (100 - Z.of_nat totalIssues * 5).

Definition averageSentenceLength (text : str) : Q :=
  (Number.of_nat (length text)
   / Number.of_nat (length (split isTerminator text)))%Q.

Definition characterCount (text : str) : nat :=
  length (replace_ws_runs [] false text).

Definition sentenceCount (text : str) : nat :=
  length (split isTerminator text).

Definition readabilityScore (text : str) : Q :=
  (100 - (Number.of_nat (characterCount text)
          / Number.of_nat (sentenceCount text) / 10))%Q.

(** What the detailed analysis adds to [improvements]. *)
Definition detailAdvice (text : str) : list str :=
  (if Number.gtb (averageSentenceLength text) 50
   then [lengthAdvice (Number.round (averageSentenceLength text))]
   else [])
  ++ (if Number.ltb (readabilityScore text) 60
      then [complexityAdvice]
      else []).

(** The result of the analysis of a text that is not blank, with a
    well-formed rule set. *)
Definition analysis (E : RegExpEngine) (text : str)
           (mediaRules : Rules.t)
           (detailedAnalysis : bool) : Result.t :=
  let ambiguous :=
    phraseIssues E text (Rules.ambiguousPhrases mediaRules) in
  let media :=
    mediaIssues E text (Rules.mediaSpecificRules mediaRules) in
  let mediaScore :=
    score (length ambiguous + length (endings text) + length media) in
  {| Result.mediaScore := mediaScore;
     Result.ambiguousPhrases := ambiguous;
     Result.repetitiveEndings := endings text;
     Result.mediaSpecificIssues := media;
     Result.improvements :=
       (if (mediaScore <? 70)%Z then [baselineAdvice] else [])
       ++ (if detailedAnalysis then detailAdvice text else []) |}.

(** The key occurs at least three times in the text. *)
Definition repeated (text : str) (key : str) : bool :=
  3 <=? tally (endingKeys text) key.

(** The patterns of [repetitiveEndings] are the repeated keys in the
    order of their first occurrences in the text. *)
Definition firstOccurrenceOrder (text : str) (r : Result.t) : Prop :=
  map Ending.pattern (Result.repetitiveEndings r)
  = filter (repeated text) (firstOccurrences (endingKeys text)).

(** The entries of [ambiguousPhrases] and of [mediaSpecificIssues] are
    those of the rules with at least one match, one entry for each such
    rule, with the number of its matches, in the order of the rule
    lists. *)
Definition emitsMatchedRules (E : RegExpEngine) (text : str)
           (mediaRules : Rules.t) (r : Result.t) : Prop :=
  Result.ambiguousPhrases r
  = map (mkPhraseIssue E text)
        (filter (fun phrase =>
                   0 <? matchCount E text (PhraseRule.text phrase))
                (Rules.ambiguousPhrases mediaRules))
  /\ Result.mediaSpecificIssues r
     = map (mkMediaIssue E text)
           (filter (fun rule =>
                      0 <? matchCount E text (MediaRule.pattern rule))
                   (Rules.mediaSpecificRules mediaRules)).

(** The claim of C6 for the detailed analysis: the advice that names the
    rounded average is in [improvements] if and only if the average
    exceeds 50. *)
Definition lengthAdvised (text : str) (r : Result.t) : Prop :=
  In (lengthAdvice (Number.round (averageSentenceLength text)))
     (Result.improvements r)
  <-> (50 < averageSentenceLength text)%Q.

(* ================================================================== *)
(** * A sample engine and sample inputs *)

(** *** Patterns without syntax characters

    On a pattern that has none of the syntax characters
    [^ $ \ . * + ? ( ) [ ] { } |] an expression matches the pattern
    itself, code unit by code unit, and with the flag [i] whatever the
    case of its ASCII letters.  The engine below compiles those
    patterns and rejects every other one; it is used to run the
    analyzer on concrete inputs. *)
Module Literal.

Definition isSyntaxCharacter (c : unit16) : bool :=
  existsb (N.eqb c) (utf16 "^$\.*+?()[]{}|").

(** [c.toLowerCase()] for a letter of ASCII; another code unit is
    kept. *)
Definition lower (c : unit16) : unit16 :=
  if ((65 <=? c) && (c <=? 90))%N then (c + 32)%N else c.

(** The two code units match, whatever their case when it is
    ignored. *)
Definition same (ignoreCase : bool) (a b : unit16) : bool :=
  if ignoreCase then (lower a =? lower b)%N else (a =? b)%N.

Fixpoint startsWith (ignoreCase : bool) (p s : str) : bool :=
  match p, s with
  | [], _ => true
  | _ :: _, [] => false
  | a :: p', b :: s' => same ignoreCase a b && startsWith ignoreCase p' s'
  end.

(** [s.indexOf(p)], and the same with the case ignored. *)
Fixpoint indexOf (ignoreCase : bool) (p s : str) : option nat :=
  if startsWith ignoreCase p s then Some 0
  else match s with
       | [] => None
       | _ :: s' => option_map S (indexOf ignoreCase p s')
       end.

(** An expression is its pattern with its flags. *)
Definition compile (pattern flags : str) : outcome (str * str) :=
  if existsb isSyntaxCharacter pattern
  then Throw (utf16 "Invalid regular expression: /" ++ pattern
              ++ utf16 "/")
  else Return (pattern, flags).

Definition hasFlag (flag : unit16) (rx : str * str) : bool :=
  existsb (N.eqb flag) (snd rx).

Definition search (rx : str * str) (s : str) (lastIndex : nat)
  : option (nat * nat) :=
  if length s <? lastIndex then None
  else option_map (fun k => (lastIndex + k, lastIndex + k + length (fst rx)))
                  (indexOf (hasFlag 105%N rx) (fst rx) (skipn lastIndex s)).

Lemma startsWith_length ignoreCase p : forall s,
    startsWith ignoreCase p s = true -> length p <= length s.
Proof.
  induction p as [|a p IH]; intros [|b s]; simpl; try lia; try discriminate.
  intros H. apply andb_prop in H. destruct H as [_ H].
  apply IH in H. lia.
Qed.

Lemma indexOf_range ignoreCase p : forall s k,
    indexOf ignoreCase p s = Some k -> k + length p <= length s.
Proof.
  induction s as [|c s IH]; intros k; simpl.
  - destruct (startsWith ignoreCase p []) eqn:Hp; [|discriminate].
    intros [= <-]. apply startsWith_length in Hp. simpl in *. lia.
  - destruct (startsWith ignoreCase p (c :: s)) eqn:Hp.
    + intros [= <-]. apply startsWith_length in Hp. simpl in *. lia.
    + destruct (indexOf ignoreCase p s) as [j|] eqn:Hj; simpl;
        [|discriminate].
      intros [= <-]. specialize (IH j eq_refl). lia.
Qed.

Lemma search_range rx s lastIndex b e :
  search rx s lastIndex = Some (b, e) ->
  lastIndex <= b /\ b <= e /\ e <= length s.
Proof.
  unfold search. destruct (Nat.ltb_spec (length s) lastIndex); [discriminate|].
  destruct (indexOf (hasFlag 105%N rx) (fst rx) (skipn lastIndex s))
    as [k|] eqn:Hk; simpl; [|discriminate].
  intros [= <- <-]. apply indexOf_range in Hk.
  rewrite length_skipn in Hk. lia.
Qed.

Lemma compile_flags pattern flags rx :
  compile pattern flags = Return rx ->
  hasFlag 103%N rx = existsb (N.eqb 103) flags
  /\ hasFlag 105%N rx = existsb (N.eqb 105) flags.
Proof.
  unfold compile. destruct (existsb isSyntaxCharacter pattern);
    [discriminate|].
  intros [= <-]. split; reflexivity.
Qed.

Definition engine : RegExpEngine :=
  {| regexp := (str * str)%type;
     RegExp_new := compile;
     global := hasFlag 103%N;
     ignoreCase := hasFlag 105%N;
     RegExp_flags := compile_flags;
     exec := search;
     exec_range := search_range |}.

End Literal.

Definition sampleText : str := utf16 "とても良い、とても悪い".

Definition sampleRules : Rules.t :=
  {| Rules.ambiguousPhrases :=
       [{| PhraseRule.text := utf16 "とても";
           PhraseRule.suggestion := utf16 "具体的な表現に" |}];
     Rules.repetitivePatterns := [];
     Rules.mediaSpecificRules := [] |}.

(** A rule set with a pattern no engine compiles: a group that is not
    closed. *)
Definition brokenRules : Rules.t :=
  {| Rules.ambiguousPhrases := [];
     Rules.repetitivePatterns := [];
     Rules.mediaSpecificRules :=
       [{| MediaRule.pattern := utf16 "(";
           MediaRule.description := utf16 "group";
           MediaRule.mediaType := utf16 "news" |}] |}.

Definition sampleRulesWithPatterns : Rules.t :=
  {| Rules.ambiguousPhrases := Rules.ambiguousPhrases sampleRules;
     Rules.repetitivePatterns :=
       [{| PatternRule.pattern := utf16 "です";
           PatternRule.suggestion := utf16 "語尾を変える" |}];
     Rules.mediaSpecificRules := Rules.mediaSpecificRules sampleRules |}.

Definition letterRule (c : string) : PhraseRule.t :=
  {| PhraseRule.text := utf16 c; PhraseRule.suggestion := [] |}.

Definition lettersRules (rules : list PhraseRule.t) : Rules.t :=
  {| Rules.ambiguousPhrases := rules;
     Rules.repetitivePatterns := [];
     Rules.mediaSpecificRules := [] |}.

Definition activeRule (type text : string) : Firestore.doc :=
  {| Firestore.isActive := true;
     Firestore.mediaTypes := [utf16 "news"];
     Firestore.type := utf16 type;
     Firestore.text := utf16 text;
     Firestore.pattern := utf16 text;
     Firestore.suggestion := utf16 "rephrase";
     Firestore.description := utf16 "avoid";
     Firestore.mediaType := utf16 "news" |}.

Definition thriceText : str := utf16 "公園に行きました。学校に行きました。病院に行きました。寝た。寝た".

Definition decimalsText : str :=
  utf16 "合計は10.5。合計は10.5。合計は10.5。".

Definition wideSpaces : str := utf16 "　　".

Definition wideSpaceRules : Rules.t :=
  {| Rules.ambiguousPhrases := [];
     Rules.repetitivePatterns := [];
     Rules.mediaSpecificRules :=
       [{| MediaRule.pattern := utf16 "　";
           MediaRule.description := utf16 "全角スペースは使わない";
           MediaRule.mediaType := utf16 "news" |}] |}.

Definition spaces51 : str := repeat 32%N 51.

Definition longText : str := repeat 97%N 101 ++ utf16 ".".

Definition denseText : str := repeat 97%N 401.

(* ================================================================== *)
(** * More of the analyzer's behaviour *)

(** The number of issues of a result. *)
Definition totalIssues (r : Result.t) : nat :=
  length (Result.ambiguousPhrases r)
  + length (Result.repetitiveEndings r)
  + length (Result.mediaSpecificIssues r).

(** The first pattern of a list that the engine does not compile, with
    the patterns before it and the message of the engine. *)
Definition firstFailure (E : RegExpEngine) (patterns : list str)
           (pattern message : str) : Prop :=
  exists before after,
    patterns = before ++ pattern :: after
    /\ forallb (compiles E) before = true
    /\ RegExp_new E pattern (utf16 "g") = Throw message.

(** What every ending key looks like: one to five code units, none of
    them a sentence terminator, the last one not white space. *)
Definition endingShape (key : str) : Prop :=
  1 <= length key <= 5
  /\ (forall c, In c key -> isTerminator c = false)
  /\ exists front c, key = front ++ [c] /\ isWhiteSpace c = false.

(** A rule set with more phrases and more media rules after its own. *)
Definition addRules (rules : Rules.t) (phrases : list PhraseRule.t)
           (media : list MediaRule.t) : Rules.t :=
  {| Rules.ambiguousPhrases := Rules.ambiguousPhrases rules ++ phrases;
     Rules.repetitivePatterns := Rules.repetitivePatterns rules;
     Rules.mediaSpecificRules := Rules.mediaSpecificRules rules ++ media |}.

Definition twoBrokenRules : Rules.t :=
  {| Rules.ambiguousPhrases := [letterRule "a"; letterRule "[b"];
     Rules.repetitivePatterns := [];
     Rules.mediaSpecificRules := Rules.mediaSpecificRules brokenRules |}.

(** ** The rules [getMediaRules] returns *)

(** The documents the query of [getMediaRules] selects, in the order of
    the store. *)
Definition selected (docs : list Firestore.doc) (mediaType : option str)
  : list Firestore.doc :=
  filter (fun d => forallb (Firestore.satisfies d) (rulesQuery mediaType))
         docs.

Definition hasType (name : string) (d : Firestore.doc) : bool :=
  Str.eqb (Firestore.type d) (utf16 name).

Definition toPhraseRule (d : Firestore.doc) : PhraseRule.t :=
  {| PhraseRule.text := Firestore.text d;
     PhraseRule.suggestion := Firestore.suggestion d |}.

Definition toPatternRule (d : Firestore.doc) : PatternRule.t :=
  {| PatternRule.pattern := Firestore.pattern d;
     PatternRule.suggestion := Firestore.suggestion d |}.

Definition toMediaRule (d : Firestore.doc) : MediaRule.t :=
  {| MediaRule.pattern := Firestore.pattern d;
     MediaRule.description := Firestore.description d;
     MediaRule.mediaType := Firestore.mediaType d |}.

(** The media type asks for the rules of one medium: it is given, not
    empty and not [一般]. *)
Definition specificMedia (mediaType : option str) : option str :=
  match mediaType with
  | Some m => if truthy mediaType && negb (Str.eqb m (utf16 "一般"))
              then Some m else None
  | None => None
  end.

Definition inactiveRule (type text : string) : Firestore.doc :=
  {| Firestore.isActive := false;
     Firestore.mediaTypes := [utf16 "news"];
     Firestore.type := utf16 type;
     Firestore.text := utf16 text;
     Firestore.pattern := utf16 text;
     Firestore.suggestion := utf16 "rephrase";
     Firestore.description := utf16 "avoid";
     Firestore.mediaType := utf16 "news" |}.

Definition sampleStore : Firestore.db :=
  Firestore.Available
    [activeRule "mediaSpecific" "!!"; inactiveRule "ambiguousPhrase" "quite";
     activeRule "ambiguousPhrase" "very"; activeRule "unknown" "x";
     activeRule "repetitivePattern" "desu"].

(* ================================================================== *)
(** * The API server: the route [/api/analyze]

    The request is taken after the body parser: the API key of the
    header [api-key], and the fields of the JSON body the route reads.
    [text] and [mediaType] are strings when present;
    [detailedAnalysis] stands for the truthiness of the field. *)

Module JsValue.

(** A value of a parsed body: what JSON and the URL encoding can give
    for a field, [VUndefined] for a field the body does not have.  Of
    an array and of an object the routes below use nothing but that
    they are truthy and no strings. *)
Inductive t :=
| VUndefined
| VNull
| VBoolean (b : bool)
| VNumber (q : Q)
| VString (s : str)
| VArray
| VObject.

(** [!!v] *)
Definition truthy (v : t) : bool :=
  match v with
  | VUndefined | VNull => false
  | VBoolean b => b
  | VNumber q => negb (Qeq_bool q 0)
  | VString s => negb (length s =? 0)
  | VArray | VObject => true
  end.

End JsValue.

Module Http.

(** What [res.json] sends: an error, or the data of the route. *)
Inductive body (A : Type) :=
| ErrorJson (error : str)
| Json (data : A).

(** [res.status(status).json(json)]; [res.json] alone answers 200. *)
Record response (A : Type) := { status : nat; json : body A }.

Arguments ErrorJson {A} error.
Arguments Json {A} data.
Arguments status {A} _.
Arguments json {A} _.

(** The fields [/api/analyze] reads of [req.body]. *)
Record analyzeBody := {
  text : JsValue.t;
  mediaType : JsValue.t;
  detailedAnalysis : JsValue.t
}.

(** A [POST] request to [/api/analyze]: its header [api-key], and what
    the body parsers [json()] and [urlencoded()] make of it: the error
    they pass to [next] (for a body that is not valid JSON, or one
    above the limit), or [req.body] as they leave it, an object or
    [undefined] ([None]) when they parsed nothing and set none. *)
Record analyzeRequest := {
  apiKey : option str;
  req_body : outcome (option analyzeBody)
}.

End Http.

(** [a !== b] for two values that are strings or [undefined]. *)
Definition strictNotEqual (a b : option str) : bool :=
  match a, b with
  | Some x, Some y => negb (Str.eqb x y)
  | None, None => false
  | _, _ => true
  end.

(** The middleware [authenticateApiKey]: the response it sends, or
    [None] when it calls [next()].  [API_KEY] is
    [process.env.API_KEY]. *)
Definition authenticateApiKey {A : Type} (API_KEY : option str)
           (apiKey : option str) : option (Http.response A) :=
  if negb (truthy apiKey) || strictNotEqual apiKey API_KEY
  then Some {| Http.status := 401;
               Http.json := Http.ErrorJson
                              (utf16 "認証エラー: 無効なAPIキー") |}
  else None.

(** The middleware [errorHandler], on an error with the given
    message. *)
Definition errorHandler {A : Type} (message : str) : Http.response A :=
  {| Http.status := 500;
     Http.json :=
       Http.ErrorJson
         (if truthy (Some message) then message
          else utf16 "サーバーエラーが発生しました") |}.

(** [getMediaRules] on the media type of a body.  The media types of
    the documents of the store are strings, so [array-contains] with a
    truthy value that is no string selects no document, and a query the
    database refuses for its value is caught by [getMediaRules]: either
    way the rule set is the empty one. *)
Definition getMediaRulesOf (db : Firestore.db) (mediaType : JsValue.t)
  : outcome Rules.t :=
  match mediaType with
  | JsValue.VString s => getMediaRules db (Some s)
  | v => if JsValue.truthy v then Return Rules.empty
         else getMediaRules db None
  end.

Section Server.

Variable E : RegExpEngine.
Variable API_KEY : option str.

(** [analyzeText] on the text of a body.  A truthy value that is no
    string passes [!text] and has no method [trim]: the call throws a
    [TypeError] inside the [try] of [analyzeText], which throws it
    again after its prefix. *)
Definition analyzeTextOf (text : JsValue.t) (mediaRules : Rules.t)
           (detailedAnalysis : bool) : outcome Result.t :=
  match text with
  | JsValue.VString s => analyzeText E s mediaRules detailedAnalysis
  | v => if JsValue.truthy v
         then Throw (analysisErrorPrefix
                     ++ utf16 "text.trim is not a function")
         else Return Result.initial
  end.

(** The handler of [POST /api/analyze]; an exception goes to
    [next(error)], that is to [errorHandler]: so does the [TypeError]
    of the destructuring of a [req.body] that is [undefined]. *)
Definition analyzeRoute (db : Firestore.db)
           (body : option Http.analyzeBody) : Http.response Result.t :=
  match body with
  | None =>
    errorHandler
      (utf16 "Cannot destructure property 'text' of 'req.body' as it is undefined.")
  | Some body =>
    if negb (JsValue.truthy (Http.text body))
    then {| Http.status := 400;
            Http.json :=
              Http.ErrorJson
                (utf16 "分析するテキストが指定されていません") |}
    else
      match (mediaRules <- getMediaRulesOf db (Http.mediaType body) ;;
             analyzeTextOf (Http.text body) mediaRules
                           (JsValue.truthy (Http.detailedAnalysis body))) with
      | Return analysisResult =>
        {| Http.status := 200;
           Http.json := Http.Json analysisResult |}
      | Throw error => errorHandler error
      end
  end.

(** A request to [/api/analyze] through the application, in the order
    of its middleware: the body parsers, whose error goes to
    [errorHandler] past every other middleware; the authentication,
    applied to every route; the handler. *)
Definition postAnalyze (db : Firestore.db) (req : Http.analyzeRequest)
  : Http.response Result.t :=
  match Http.req_body req with
  | Throw error => errorHandler error
  | Return body =>
    match authenticateApiKey API_KEY (Http.apiKey req) with
    | Some rejected => rejected
    | None => analyzeRoute db body
    end
  end.

End Server.

(** The rules [getMediaRules] hands to the analysis. *)
Definition rulesFor (db : Firestore.db) (mediaType : option str) : Rules.t :=
  match getMediaRules db mediaType with
  | Return rules => rules
  | Throw _ => Rules.empty
  end.

(** The rules the route hands to the analysis. *)
Definition rulesOf (db : Firestore.db) (mediaType : JsValue.t) : Rules.t :=
  match getMediaRulesOf db mediaType with
  | Return rules => rules
  | Throw _ => Rules.empty
  end.

(** The API key of the request is the configured one. *)
Definition validKey (API_KEY apiKey : option str) : bool :=
  match API_KEY, apiKey with
  | Some configured, Some (c :: given) => Str.eqb (c :: given) configured
  | _, _ => false
  end.

Definition sampleBody : Http.analyzeBody :=
  {| Http.text := JsValue.VString sampleText;
     Http.mediaType := JsValue.VString (utf16 "news");
     Http.detailedAnalysis := JsValue.VBoolean false |}.

Definition sampleRequest : Http.analyzeRequest :=
  {| Http.apiKey := Some (utf16 "secret");
     Http.req_body := Return (Some sampleBody) |}.

(** A body whose text is a number. *)
Definition numberBody : Http.analyzeBody :=
  {| Http.text := JsValue.VNumber (123 # 1);
     Http.mediaType := JsValue.VUndefined;
     Http.detailedAnalysis := JsValue.VUndefined |}.

(* ================================================================== *)
(** * searchDrive and extractSnippet *)

Module Drive.

(** A file of [response.data.files]. *)
Record file := {
  id : str;
  name : str;
  mimeType : str;
  webViewLink : str;
  modifiedTime : str
}.

(** An item of the search result. *)
Record item := {
  item_id : str;
  title : str;
  item_mimeType : str;
  item_webViewLink : str;
  item_modifiedTime : str;
  snippet : str
}.

Record result := { items : list item; hasMore : bool }.

(** What [searchDrive] and [extractSnippet] use of the host and of the
    Drive service. *)
Record host : Type := {
  (** [getAuthClient()], which reads the environment. *)
  getAuthClient : outcome unit;
  (** [drive.files.list({ q: query, ... })]: the files and the
      [nextPageToken]. *)
  files_list : str -> outcome (list file * option str);
  (** [drive.files.export({ fileId, mimeType: 'text/plain' })]: the
      exported text. *)
  files_export : str -> outcome str;
  (** The [Date] objects and the methods used on them. *)
  JsDate : Type;
  now : JsDate;
  dateThreshold : JsDate;
  getDate : JsDate -> Z;
  getMonth : JsDate -> Z;
  setDate : JsDate -> Z -> JsDate;
  setMonth : JsDate -> Z -> JsDate;
  toISOString : JsDate -> str;
  (** [new RegExp(pattern, 'i')] *)
  regexp_i : Type;
  RegExp_new_i : str -> outcome regexp_i;
  (** [text.match(regex)] for an expression that is not global:
      [None] for [null], otherwise the capture [match[1]], which is
      [undefined] when the group took no part in the match. *)
  match_1 : str -> regexp_i -> option (option str)
}.

End Drive.

(** The double quote. *)
Definition quote : str := [34%N].

(** [parts.join(separator)] *)
Fixpoint join (separator : str) (parts : list str) : str :=
  match parts with
  | [] => []
  | [part] => part
  | part :: rest => part ++ separator ++ join separator rest
  end.

(** [s.endsWith('.')] *)
Definition endsWithDot (s : str) : bool :=
  match rev s with
  | c :: _ => (c =? 46)%N
  | [] => false
  end.

Definition noPreview : str :=
  Eval vm_compute in
    utf16 "キーワードの一致箇所のプレビューを取得できませんでした。".

Definition clickToPreview : str :=
  Eval vm_compute in
    utf16 "プレビューするにはリンクをクリックしてください。".

Definition noContent : str :=
  Eval vm_compute in utf16 "コンテンツを取得できませんでした。".

Definition searchErrorPrefix : str :=
  Eval vm_compute in utf16 "Drive検索中にエラーが発生しました: ".

Definition googleDocument : str :=
  Eval vm_compute in utf16 "application/vnd.google-apps.document".

Section Search.

Variable H : Drive.host.

Definition extractSnippet (text keyword : str) : outcome str :=
  let maxLength := 150 in
  regex <- Drive.RegExp_new_i H
             (utf16 "(.{0,50}" ++ keyword ++ utf16 ".{0,50})") ;;
  let match_ := Drive.match_1 H text regex in
  match match_ with
  | Some (Some (c :: rest)) =>
    let snippet := c :: rest in
    let snippet :=
      if maxLength <? length snippet
      then utf16 "..." ++ skipn (length snippet - maxLength + 3) snippet
      else snippet in
    let snippet :=
      if negb (endsWithDot snippet) then snippet ++ utf16 "..."
      else snippet in
    Return snippet
  | _ => Return noPreview
  end.

(** [fileTypes.includes(t)] *)
Definition includes (fileTypes : list str) (t : string) : bool :=
  existsb (Str.eqb (utf16 t)) fileTypes.

(** The clause of the query on the types of the files. *)
Definition mimeTypeQuery (fileTypes : option (list str)) : str :=
  match fileTypes with
  | Some (t :: ts) =>
    let fileTypes := t :: ts in
    let mimeTypes := [] in
    let mimeTypes :=
      if includes fileTypes "docs"
      then mimeTypes
           ++ [utf16 "mimeType=" ++ quote ++ googleDocument ++ quote]
      else mimeTypes in
    let mimeTypes :=
      if includes fileTypes "pdf"
      then mimeTypes
           ++ [utf16 "mimeType=" ++ quote ++ utf16 "application/pdf"
               ++ quote]
      else mimeTypes in
    let mimeTypes :=
      if includes fileTypes "text"
      then mimeTypes
           ++ [utf16 "mimeType=" ++ quote ++ utf16 "text/plain" ++ quote]
      else mimeTypes in
    if 0 <? length mimeTypes
    then utf16 "(" ++ join (utf16 " or ") mimeTypes ++ utf16 ")"
    else []
  | _ => []
  end.

(** The clause of the query on the time of modification. *)
Definition dateQuery (period : option str) : str :=
  match period with
  | Some (c :: rest) =>
    let period := c :: rest in
    if negb (Str.eqb period (utf16 "all")) then
      let now := Drive.now H in
      let dateThreshold := Drive.dateThreshold H in
      let dateThreshold :=
        if Str.eqb period (utf16 "1w")
        then Drive.setDate H dateThreshold (Drive.getDate H now - 7)
        else if Str.eqb period (utf16 "1m")
        then Drive.setMonth H dateThreshold (Drive.getMonth H now - 1)
        else if Str.eqb period (utf16 "3m")
        then Drive.setMonth H dateThreshold (Drive.getMonth H now - 3)
        else dateThreshold in
      utf16 "modifiedTime > '" ++ Drive.toISOString H dateThreshold
      ++ utf16 "'"
    else []
  | _ => []
  end.

Definition driveQuery (keyword : str) (fileTypes : option (list str))
           (period : option str) : str :=
  let mimeTypeQuery := mimeTypeQuery fileTypes in
  let dateQuery := dateQuery period in
  let query :=
    utf16 "fullText contains '" ++ keyword ++ utf16 "' and trashed=false" in
  let query :=
    if truthy (Some mimeTypeQuery)
    then query ++ utf16 " and " ++ mimeTypeQuery else query in
  let query :=
    if truthy (Some dateQuery)
    then query ++ utf16 " and " ++ dateQuery else query in
  query.

(** The callback of [response.data.files.map]: an exception of the
    export or of [extractSnippet] is caught. *)
Definition searchItem (keyword : str) (file : Drive.file) : Drive.item :=
  let snippet :=
    try_catch
      (if Str.eqb (Drive.mimeType file) googleDocument
       then content <- Drive.files_export H (Drive.id file) ;;
            extractSnippet content keyword
       else Return clickToPreview)
      (fun error => Return noContent) in
  {| Drive.item_id := Drive.id file;
     Drive.title := Drive.name file;
     Drive.item_mimeType := Drive.mimeType file;
     Drive.item_webViewLink := Drive.webViewLink file;
     Drive.item_modifiedTime := Drive.modifiedTime file;
     Drive.snippet :=
       match snippet with
       | Return s => s
       | Throw _ => noContent
       end |}.

Definition searchDrive (keyword : str) (fileTypes : option (list str))
           (period : option str) : outcome Drive.result :=
  try_catch
    (auth <- Drive.getAuthClient H ;;
     let query := driveQuery keyword fileTypes period in
     response <- Drive.files_list H query ;;
     let items := map (searchItem keyword) (fst response) in
     Return {| Drive.items := items;
               Drive.hasMore := truthy (snd response) |})
    (fun error => Throw (searchErrorPrefix ++ error)).

End Search.

(** What [searchDrive] makes of a listed file. *)
Definition itemOf (H : Drive.host) (keyword : str) (file : Drive.file)
           (item : Drive.item) : Prop :=
  Drive.item_id item = Drive.id file
  /\ Drive.title item = Drive.name file
  /\ Drive.item_mimeType item = Drive.mimeType file
  /\ Drive.item_webViewLink item = Drive.webViewLink file
  /\ Drive.item_modifiedTime item = Drive.modifiedTime file
  /\ 1 <= length (Drive.snippet item) <= 153
  /\ (Drive.mimeType file <> googleDocument ->
      Drive.snippet item = clickToPreview)
  /\ (Drive.mimeType file = googleDocument ->
      forall error,
        Drive.files_export H (Drive.id file) = Throw error ->
        Drive.snippet item = noContent)
  /\ (Drive.mimeType file = googleDocument ->
      forall content,
        Drive.files_export H (Drive.id file) = Return content ->
        match extractSnippet H content keyword with
        | Return s => Drive.snippet item = s
        | Throw _ => Drive.snippet item = noContent
        end).

(** A host for examples: two files are listed, the export of the
    first gives one short line, which the expression matches whole, and
    the export of any other file fails. *)
Definition sampleFiles : list Drive.file :=
  [{| Drive.id := utf16 "doc1";
      Drive.name := utf16 "Report";
      Drive.mimeType := googleDocument;
      Drive.webViewLink := utf16 "https://docs.google.com/document/d/doc1";
      Drive.modifiedTime := utf16 "2024-05-01T10:00:00.000Z" |};
   {| Drive.id := utf16 "pdf1";
      Drive.name := utf16 "Scan";
      Drive.mimeType := utf16 "application/pdf";
      Drive.webViewLink := utf16 "https://drive.google.com/file/d/pdf1";
      Drive.modifiedTime := utf16 "2024-04-01T10:00:00.000Z" |};
   {| Drive.id := utf16 "doc2";
      Drive.name := utf16 "Draft";
      Drive.mimeType := googleDocument;
      Drive.webViewLink := utf16 "https://docs.google.com/document/d/doc2";
      Drive.modifiedTime := utf16 "2024-03-01T10:00:00.000Z" |}].

Definition sampleHost : Drive.host :=
  {| Drive.getAuthClient := Return tt;
     Drive.files_list := fun _ => Return (sampleFiles, Some (utf16 "next"));
     Drive.files_export :=
       fun fileId =>
         if Str.eqb fileId (utf16 "doc1")
         then Return (utf16 "The quarterly report is ready")
         else Throw (utf16 "export failed");
     Drive.JsDate := Z;
     Drive.now := 0%Z;
     Drive.dateThreshold := 0%Z;
     Drive.getDate := fun _ => 1%Z;
     Drive.getMonth := fun _ => 0%Z;
     Drive.setDate := fun d _ => d;
     Drive.setMonth := fun d _ => d;
     Drive.toISOString := fun _ => utf16 "1970-01-01T00:00:00.000Z";
     Drive.regexp_i := str;
     Drive.RegExp_new_i := fun pattern => Return pattern;
     Drive.match_1 := fun text _ => Some (Some text) |}.

(* ================================================================== *)
(** * The snippet store

    The functions of the utilities on the collection [snippets].  A
    document is typed by the fields the code reads, each present or
    not; the data handed to [saveSnippet] and [updateSnippet] are the
    objects the routes build.  The database is a state: each call to
    it may throw (the fault the world holds for that call) and
    otherwise reads or writes the documents; [Date.now()] and the
    identifiers of new documents come from the world as well. *)

Module Snippet.

(** A stored document. *)
Record doc := {
  title : option str;
  category : option str;
  content : option str;
  variables : option (list str);
  isShared : option bool;
  createdAt : option Z;
  updatedAt : option Z
}.

(** The object [getSnippet] returns. *)
Record view := {
  view_id : str;
  view_title : option str;
  view_category : str;
  view_content : option str;
  view_variables : list str;
  view_isShared : bool;
  view_createdAt : option Z;
  view_updatedAt : option Z
}.

(** [snippetData] of [saveSnippet], as [/api/save-snippet] builds it. *)
Record saveData := {
  save_title : str;
  save_category : str;
  save_content : str;
  save_variables : list str;
  save_createdAt : Z
}.

(** [snippetData] of [updateSnippet], as [/api/update-snippet] builds
    it. *)
Record updateData := {
  update_title : str;
  update_category : str;
  update_content : str;
  update_variables : list str;
  update_updatedAt : Z
}.

End Snippet.

Module World.

Section Docs.

(** The type of the documents of the collection. *)
Variable D : Type.

Record t := {
  (** The documents of the collection, by identifier. *)
  docs : list (str * D);
  (** The calls to the database made so far, and the error the call
      with a given number throws, if it throws. *)
  calls : nat;
  fault : nat -> option str;
  (** The readings of the clock made so far, and what each gives. *)
  ticks : nat;
  time : nat -> Z;
  (** The documents created so far with [doc()], and the identifier
      each gets. *)
  created : nat;
  autoId : nat -> str
}.

Definition with_docs (w : t) (ds : list (str * D)) : t :=
  {| docs := ds; calls := calls w; fault := fault w;
     ticks := ticks w; time := time w;
     created := created w; autoId := autoId w |}.

Definition called (w : t) : t :=
  {| docs := docs w; calls := S (calls w); fault := fault w;
     ticks := ticks w; time := time w;
     created := created w; autoId := autoId w |}.

Definition ticked (w : t) : t :=
  {| docs := docs w; calls := calls w; fault := fault w;
     ticks := S (ticks w); time := time w;
     created := created w; autoId := autoId w |}.

Definition allocated (w : t) : t :=
  {| docs := docs w; calls := calls w; fault := fault w;
     ticks := ticks w; time := time w;
     created := S (created w); autoId := autoId w |}.

Fixpoint lookup (ds : list (str * D)) (id : str) : option D :=
  match ds with
  | [] => None
  | (k, d) :: rest => if Str.eqb k id then Some d else lookup rest id
  end.

(** The document is written over the one with its identifier, or
    added. *)
Fixpoint put (ds : list (str * D)) (id : str) (d : D) : list (str * D) :=
  match ds with
  | [] => [(id, d)]
  | (k, d') :: rest =>
    if Str.eqb k id then (k, d) :: rest else (k, d') :: put rest id d
  end.

Definition remove (ds : list (str * D)) (id : str) : list (str * D) :=
  filter (fun kd => negb (Str.eqb (fst kd) id)) ds.

End Docs.

Arguments docs {D} _.
Arguments calls {D} _.
Arguments fault {D} _ _.
Arguments ticks {D} _.
Arguments time {D} _ _.
Arguments created {D} _.
Arguments autoId {D} _ _.
Arguments with_docs {D} w ds.
Arguments called {D} w.
Arguments ticked {D} w.
Arguments allocated {D} w.
Arguments lookup {D} ds id.
Arguments put {D} ds id d.
Arguments remove {D} ds id.

End World.

(** A computation on the world of a collection; an exception leaves
    the world as the calls before it made it. *)
Definition io (D A : Type) : Type := World.t D -> outcome A * World.t D.

Definition io_ret {D A : Type} (a : A) : io D A := fun w => (Return a, w).

Definition io_throw {D A : Type} (message : str) : io D A :=
  fun w => (Throw message, w).

Definition io_bind {D A B : Type} (m : io D A) (k : A -> io D B) : io D B :=
  fun w =>
    match m w with
    | (Return a, w') => k a w'
    | (Throw e, w') => (Throw e, w')
    end.

Definition io_try {D A : Type} (body : io D A) (handler : str -> io D A)
  : io D A :=
  fun w =>
    match body w with
    | (Return a, w') => (Return a, w')
    | (Throw e, w') => handler e w'
    end.

Notation "x <~ m ;; k" := (io_bind m (fun x => k))
  (at level 61, m at next level, right associativity) : js_scope.

(** A call to the database: it throws its fault, or runs. *)
Definition dbCall {D A : Type} (run : World.t D -> A * World.t D) : io D A :=
  fun w =>
    match World.fault w (World.calls w) with
    | Some error => (Throw error, World.called w)
    | None => let (a, w') := run (World.called w) in (Return a, w')
    end.

(** [Date.now()], and the time of [new Date()]. *)
Definition Date_now {D : Type} : io D Z :=
  fun w => (Return (World.time w (World.ticks w)), World.ticked w).

(** [db.collection(name).doc()]: a reference with a new identifier. *)
Definition collection_doc {D : Type} : io D str :=
  fun w => (Return (World.autoId w (World.created w)), World.allocated w).

(** [await ref.get()]: the data of the document, when it exists. *)
Definition doc_get {D : Type} (id : str) : io D (option D) :=
  dbCall (fun w => (World.lookup (World.docs w) id, w)).

(** [await ref.set(data)] *)
Definition doc_set {D : Type} (id : str) (data : D) : io D unit :=
  dbCall (fun w =>
            (tt, World.with_docs w (World.put (World.docs w) id data))).

(** [await ref.update(fields)], where [merge] writes the fields over
    the document; a document that does not exist is not created. *)
Definition doc_update {D : Type} (id : str) (merge : D -> D) : io D unit :=
  fun w =>
    match World.fault w (World.calls w) with
    | Some error => (Throw error, World.called w)
    | None =>
      match World.lookup (World.docs w) id with
      | Some d =>
        (Return tt,
         World.with_docs (World.called w)
           (World.put (World.docs w) id (merge d)))
      | None =>
        (Throw (utf16 "NOT_FOUND: No document to update"), World.called w)
      end
    end.

(** [await ref.delete()] *)
Definition doc_delete {D : Type} (id : str) : io D unit :=
  dbCall (fun w =>
            (tt, World.with_docs w (World.remove (World.docs w) id))).

Definition uncategorized : str := Eval vm_compute in utf16 "未分類".

Definition getSnippet (id : str) (isShared : option bool)
  : io Snippet.doc (option Snippet.view) :=
  let isShared := match isShared with Some b => b | None => false end in
  io_try
    (snippet <~ doc_get id ;;
     match snippet with
     | None => io_ret None
     | Some data =>
       if match Snippet.isShared data with
          | Some shared => negb (Bool.eqb shared isShared)
          | None => true
          end
       then io_ret None
       else
         io_ret
           (Some
              {| Snippet.view_id := id;
                 Snippet.view_title := Snippet.title data;
                 Snippet.view_category :=
                   if truthy (Snippet.category data)
                   then match Snippet.category data with
                        | Some c => c
                        | None => uncategorized
                        end
                   else uncategorized;
                 Snippet.view_content := Snippet.content data;
                 Snippet.view_variables :=
                   match Snippet.variables data with
                   | Some vs => vs
                   | None => []
                   end;
                 Snippet.view_isShared :=
                   match Snippet.isShared data with
                   | Some shared => shared
                   | None => false
                   end;
                 Snippet.view_createdAt := Snippet.createdAt data;
                 Snippet.view_updatedAt := Snippet.updatedAt data |})
     end)
    (fun error =>
       io_throw (utf16 "スニペットの取得中にエラーが発生しました: " ++ error)).

Definition saveSnippet (snippetData : Snippet.saveData)
  : io Snippet.doc str :=
  io_try
    (id <~ collection_doc ;;
     createdAt <~ Date_now ;;
     updatedAt <~ Date_now ;;
     _ <~ doc_set id
            {| Snippet.title := Some (Snippet.save_title snippetData);
               Snippet.category := Some (Snippet.save_category snippetData);
               Snippet.content := Some (Snippet.save_content snippetData);
               Snippet.variables :=
                 Some (Snippet.save_variables snippetData);
               Snippet.isShared := Some false;
               Snippet.createdAt := Some createdAt;
               Snippet.updatedAt := Some updatedAt |} ;;
     io_ret id)
    (fun error =>
       io_throw (utf16 "スニペットの保存中にエラーが発生しました: " ++ error)).

Definition updateSnippet (id : str) (snippetData : Snippet.updateData)
  : io Snippet.doc bool :=
  io_try
    (snippet <~ doc_get id ;;
     match snippet with
     | None => io_throw (utf16 "スニペットが見つかりません")
     | Some _ =>
       updatedAt <~ Date_now ;;
       _ <~ doc_update id
              (fun d =>
                 {| Snippet.title := Some (Snippet.update_title snippetData);
                    Snippet.category :=
                      Some (Snippet.update_category snippetData);
                    Snippet.content :=
                      Some (Snippet.update_content snippetData);
                    Snippet.variables :=
                      Some (Snippet.update_variables snippetData);
                    Snippet.isShared := Snippet.isShared d;
                    Snippet.createdAt := Snippet.createdAt d;
                    Snippet.updatedAt := Some updatedAt |}) ;;
       io_ret true
     end)
    (fun error =>
       io_throw (utf16 "スニペットの更新中にエラーが発生しました: " ++ error)).

Definition deleteSnippet (id : str) : io Snippet.doc bool :=
  io_try
    (snippet <~ doc_get id ;;
     match snippet with
     | None => io_throw (utf16 "スニペットが見つかりません")
     | Some data =>
       if match Snippet.isShared data with
          | Some shared => shared
          | None => false
          end
       then io_throw (utf16 "共有スニペットは削除できません")
       else
         _ <~ doc_delete id ;;
         io_ret true
     end)
    (fun error =>
       io_throw (utf16 "スニペットの削除中にエラーが発生しました: " ++ error)).

(** The flag of [getSnippet] after its default and [!!]. *)
Definition sharedFlag (isShared : option bool) : bool :=
  match isShared with Some b => b | None => false end.

Definition notFoundMessage : str :=
  Eval vm_compute in utf16 "スニペットが見つかりません".

Definition sharedMessage : str :=
  Eval vm_compute in utf16 "共有スニペットは削除できません".

Definition deleteErrorPrefix : str :=
  Eval vm_compute in utf16 "スニペットの削除中にエラーが発生しました: ".

Definition updateErrorPrefix : str :=
  Eval vm_compute in utf16 "スニペットの更新中にエラーが発生しました: ".

Definition getErrorPrefix : str :=
  Eval vm_compute in utf16 "スニペットの取得中にエラーが発生しました: ".

Definition saveErrorPrefix : str :=
  Eval vm_compute in utf16 "スニペットの保存中にエラーが発生しました: ".

Definition sharedDoc : Snippet.doc :=
  {| Snippet.title := Some (utf16 "Greeting");
     Snippet.category := Some (utf16 "mail");
     Snippet.content := Some (utf16 "Dear team,");
     Snippet.variables := Some [];
     Snippet.isShared := Some true;
     Snippet.createdAt := Some 1000%Z;
     Snippet.updatedAt := Some 1000%Z |}.

Definition personalDoc : Snippet.doc :=
  {| Snippet.title := Some (utf16 "Signature");
     Snippet.category := None;
     Snippet.content := Some (utf16 "Best regards");
     Snippet.variables := None;
     Snippet.isShared := Some false;
     Snippet.createdAt := Some 2000%Z;
     Snippet.updatedAt := Some 2000%Z |}.

(** A world for examples: two snippets, a database that answers every
    call, a clock that starts at 5000. *)
Definition sampleWorld : World.t Snippet.doc :=
  {| World.docs := [(utf16 "s1", sharedDoc); (utf16 "p1", personalDoc)];
     World.calls := 0;
     World.fault := fun _ => None;
     World.ticks := 0;
     World.time := fun n => (5000 + Z.of_nat n)%Z;
     World.created := 0;
     World.autoId := fun n => utf16 "new" ++ Str.of_nat n |}.

Definition sampleSave : Snippet.saveData :=
  {| Snippet.save_title := utf16 "Thanks";
     Snippet.save_category := utf16 "mail";
     Snippet.save_content := utf16 "Thank you for your message.";
     Snippet.save_variables := [utf16 "name"];
     Snippet.save_createdAt := 4242%Z |}.

Definition sampleUpdate : Snippet.updateData :=
  {| Snippet.update_title := utf16 "Greeting (new)";
     Snippet.update_category := utf16 "mail";
     Snippet.update_content := utf16 "Hello all,";
     Snippet.update_variables := [];
     Snippet.update_updatedAt := 4242%Z |}.

(** ** The list of the snippets *)

Module SnippetList.

(** An entry of the lists of [getSnippets]. *)
Record item := {
  id : str;
  title : option str;
  category : str;
  createdAt : option Z
}.

Record t := {
  personal : list item;
  shared : list item;
  categories : list str;
  sharedCategories : list str
}.

End SnippetList.

(** [set.add(x)] on a [Set], kept as the list of its members in the
    order in which they came in. *)
Definition Set_add (members : list str) (x : str) : list str :=
  if existsb (Str.eqb x) members then members else members ++ [x].

(** The category a snippet is listed under. *)
Definition categoryOf (data : Snippet.doc) : str :=
  if truthy (Snippet.category data)
  then match Snippet.category data with
       | Some c => c
       | None => uncategorized
       end
  else uncategorized.

(** The callback of [snapshot.forEach] in [getSnippets], on the list
    and the set of categories it fills. *)
Definition listSnippet (acc : list SnippetList.item * list str)
           (doc : str * Snippet.doc) : list SnippetList.item * list str :=
  let (items, categories) := acc in
  let (id, data) := doc in
  (items ++ [{| SnippetList.id := id;
                SnippetList.title := Snippet.title data;
                SnippetList.category := categoryOf data;
                SnippetList.createdAt := Snippet.createdAt data |}],
   if truthy (Snippet.category data)
   then match Snippet.category data with
        | Some c => Set_add categories c
        | None => categories
        end
   else categories).

Definition listErrorPrefix : str := getErrorPrefix.

Section Listing.

(** The order in which the database gives the documents of a query
    with [orderBy('createdAt', 'desc')]. *)
Variable orderByCreatedAtDesc :
  list (str * Snippet.doc) -> list (str * Snippet.doc).

(** [await db.collection('snippets').where('isShared', '==', shared)
    .orderBy('createdAt', 'desc').get()] *)
Definition snippets_where_isShared (shared : bool)
  : io Snippet.doc (list (str * Snippet.doc)) :=
  dbCall (fun w =>
            (orderByCreatedAtDesc
               (filter (fun kd =>
                          match Snippet.isShared (snd kd) with
                          | Some b => Bool.eqb b shared
                          | None => false
                          end) (World.docs w)),
             w)).

Definition getSnippets : io Snippet.doc SnippetList.t :=
  io_try
    (personalSnapshot <~ snippets_where_isShared false ;;
     let (personal, categories) :=
       fold_left listSnippet personalSnapshot ([], [uncategorized]) in
     sharedSnapshot <~ snippets_where_isShared true ;;
     let (shared, sharedCategories) :=
       fold_left listSnippet sharedSnapshot ([], [uncategorized]) in
     io_ret {| SnippetList.personal := personal;
               SnippetList.shared := shared;
               SnippetList.categories := categories;
               SnippetList.sharedCategories := sharedCategories |})
    (fun error => io_throw (listErrorPrefix ++ error)).

End Listing.

(** The categories list the categories of the items: they begin with
    [未分類], have no member twice, hold the category of every item,
    and nothing else. *)
Definition categoriesOf (items : list SnippetList.item)
           (categories : list str) : Prop :=
  (exists rest, categories = uncategorized :: rest)
  /\ NoDup categories
  /\ (forall c, In c categories
                <-> c = uncategorized
                    \/ exists it, In it items /\ SnippetList.category it = c).

(** The item listed for a document: its identifier, title and time of
    creation, and its category, [未分類] when the document has none or
    an empty one. *)
Definition listedAs (doc : str * Snippet.doc) (it : SnippetList.item)
  : Prop :=
  SnippetList.id it = fst doc
  /\ SnippetList.title it = Snippet.title (snd doc)
  /\ SnippetList.createdAt it = Snippet.createdAt (snd doc)
  /\ SnippetList.category it
     = match Snippet.category (snd doc) with
       | Some (c :: rest) => c :: rest
       | _ => utf16 "未分類"
       end.

(** The categories of the documents of a query: [未分類] first, no
    member twice, and beside [未分類] exactly the categories of the
    documents that are not empty. *)
Definition categoriesFrom (snapshot : list (str * Snippet.doc))
           (categories : list str) : Prop :=
  (exists rest, categories = utf16 "未分類" :: rest)
  /\ NoDup categories
  /\ (forall c,
         In c categories
         <-> c = utf16 "未分類"
             \/ (c <> []
                 /\ exists doc,
                     In doc snapshot
                     /\ Snippet.category (snd doc) = Some c)).

Definition uncategorizedDoc : Snippet.doc :=
  {| Snippet.title := Some (utf16 "Note");
     Snippet.category := Some [];
     Snippet.content := Some (utf16 "Remember");
     Snippet.variables := None;
     Snippet.isShared := Some false;
     Snippet.createdAt := Some 3000%Z;
     Snippet.updatedAt := None |}.

Definition mailDoc : Snippet.doc :=
  {| Snippet.title := Some (utf16 "Reply");
     Snippet.category := Some (utf16 "mail");
     Snippet.content := Some (utf16 "Thanks");
     Snippet.variables := None;
     Snippet.isShared := Some false;
     Snippet.createdAt := Some 4000%Z;
     Snippet.updatedAt := None |}.

Definition listWorld : World.t Snippet.doc :=
  {| World.docs := [(utf16 "s1", sharedDoc); (utf16 "p1", personalDoc);
                    (utf16 "p2", mailDoc); (utf16 "p3", uncategorizedDoc);
                    (utf16 "p4", mailDoc)];
     World.calls := 0;
     World.fault := fun _ => None;
     World.ticks := 0;
     World.time := fun n => (5000 + Z.of_nat n)%Z;
     World.created := 0;
     World.autoId := fun n => utf16 "new" ++ Str.of_nat n |}.

(* ================================================================== *)
(** * Logs and backups *)

Module Backup.

(** A stored backup. *)
Record doc := {
  timestamp : option Z;
  date : option str;
  text : option str;
  results : option str;
  user : option str;
  createdAt : option Z
}.

(** [backupData] of [saveBackup], as [/api/create-backup] builds it
    from a body that has the five fields. *)
Record data := {
  data_timestamp : Z;
  data_date : str;
  data_text : str;
  data_results : str;
  data_user : str
}.

End Backup.

Module Log.

(** A stored aggregation of logs. *)
Record doc := {
  timestamp : option Z;
  week : option str;
  logs : option (list str);
  errors : option (list str);
  user : option str;
  createdAt : option Z
}.

End Log.

Definition MAX_LOGS_AGE_DAYS : Z := 90.
Definition MAX_BACKUPS_AGE_DAYS : Z := 30.



Section Cleanup.

(** The time value of the date that [new Date()] at time [t] becomes by
    [setDate(getDate() - days)]: the calendar is the host's. *)
Variable daysBefore : Z -> Z -> Z.

Variable D : Type.
Variable timestampOf : D -> option Z.

(** The document matches [where('timestamp', '<', threshold)]. *)
Definition olderThan (threshold : Z) (kd : str * D) : bool :=
  match timestampOf (snd kd) with
  | Some t => (t <? threshold)%Z
  | None => false
  end.

(** [await query.get()] for that query. *)
Definition where_timestamp_before (threshold : Z)
  : io D (list (str * D)) :=
  dbCall (fun w => (filter (olderThan threshold) (World.docs w), w)).

(** [await batch.commit()] for a batch that deletes the documents of
    the snapshot: all of them, or none when the call fails (as it does
    for a batch larger than the database accepts). *)
Definition batch_commit (snapshot : list (str * D)) : io D unit :=
  dbCall (fun w =>
            (tt,
             World.with_docs w
               (fold_left (fun ds kd => World.remove ds (fst kd)) snapshot
                          (World.docs w)))).

(** The body of [cleanupOldLogs] and of [cleanupOldBackups], which
    differ in the collection, the age and the message. *)
Definition cleanupOld (maxAgeDays : Z) (errorPrefix : str) : io D nat :=
  io_try
    (now <~ Date_now ;;
     let threshold := daysBefore now maxAgeDays in
     snapshot <~ where_timestamp_before threshold ;;
     let count := length snapshot in
     if 0 <? count
     then _ <~ batch_commit snapshot ;; io_ret count
     else io_ret count)
    (fun error => io_throw (errorPrefix ++ error)).

End Cleanup.

Definition cleanupOldLogs (daysBefore : Z -> Z -> Z) : io Log.doc nat :=
  cleanupOld daysBefore Log.doc Log.timestamp MAX_LOGS_AGE_DAYS
             (utf16 "古いログの削除中にエラーが発生しました: ").

Definition cleanupOldBackups (daysBefore : Z -> Z -> Z)
  : io Backup.doc nat :=
  cleanupOld daysBefore Backup.doc Backup.timestamp MAX_BACKUPS_AGE_DAYS
             (utf16 "古いバックアップの削除中にエラーが発生しました: ").


(** A calendar for examples: days of 86400000 milliseconds. *)
Definition plainDays (t days : Z) : Z := (t - days * 86400000)%Z.

Definition backupAt (t : Z) : Backup.doc :=
  {| Backup.timestamp := Some t;
     Backup.date := Some (utf16 "2024-01-01");
     Backup.text := Some (utf16 "text");
     Backup.results := Some (utf16 "{}");
     Backup.user := Some (utf16 "editor");
     Backup.createdAt := Some t |}.

Definition backupWorld : World.t Backup.doc :=
  {| World.docs :=
       [(utf16 "b1", backupAt 1000%Z);
        (utf16 "b2", backupAt 9000000000%Z);
        (utf16 "b3",
         {| Backup.timestamp := None;
            Backup.date := None;
            Backup.text := Some (utf16 "old text");
            Backup.results := None;
            Backup.user := None;
            Backup.createdAt := Some 1%Z |})];
     World.calls := 0;
     World.fault := fun _ => None;
     World.ticks := 0;
     World.time := fun n => (10000000000 + Z.of_nat n)%Z;
     World.created := 0;
     World.autoId := fun n => utf16 "new" ++ Str.of_nat n |}.



(* ================================================================== *)
(** * The routes of the snippets *)



(* ================================================================== *)
(** * The export to PDF *)

Module Pdf.

(** [options] of [generatePDF]; a field is [None] when it is
    [undefined]. *)
Record options := {
  title : option str;
  font : option str;
  fontSize : option Q;
  includeHeader : option bool;
  includeFooter : option bool
}.

(** The constants [generatePDF] destructures from the options, and the
    file of the font. *)
Record layout := {
  layout_title : str;
  layout_fontFamily : str;
  layout_fontSize : Q;
  layout_includeHeader : bool;
  layout_includeFooter : bool
}.

(** The object [generatePDF] returns; [success] is [true]. *)
Record result := {
  result_title : str;
  url : str;
  driveUrl : option str
}.

(** A request sent to Cloud Storage or to Drive. *)
Inductive call :=
| Save (path : str)
| SignedUrl (path : str)
| Create (name : str).

(** The services behind [generatePDF].  [draw] stands for the drawing
    of the document with PDFKit up to the buffer of [doc.end()];
    [Storage_new] for the construction of the client from the
    environment; [file_save] and [getSignedUrl] for the two requests on
    the file of a bucket; [getAuthClient] and [files_create] for the
    client of Drive and its upload, which gives the identifier of the
    new file. *)
Record host := {
  buffer : Type;
  draw : layout -> str -> option str -> outcome buffer;
  Storage_new : outcome unit;
  file_save : str -> buffer -> outcome unit;
  getSignedUrl : str -> outcome str;
  getAuthClient : outcome unit;
  files_create : str -> buffer -> outcome str
}.

End Pdf.

Definition defaultTitle : str :=
  Eval vm_compute in utf16 "TextStation出力ドキュメント".

Definition pdfErrorPrefix : str :=
  Eval vm_compute in utf16 "PDF生成中にエラーが発生しました: ".

Definition storageErrorPrefix : str :=
  Eval vm_compute in
    utf16 "Storageへのアップロード中にエラーが発生しました: ".

(** The [switch] on the font. *)
Definition fontFamily (font : str) : str :=
  if Str.eqb font (utf16 "meiryo") then utf16 "fonts/meiryo.ttf"
  else if Str.eqb font (utf16 "gothic") then utf16 "fonts/msgothic.ttf"
  else if Str.eqb font (utf16 "mincho") then utf16 "fonts/msmincho.ttf"
  else utf16 "fonts/NotoSansJP-Regular.ttf".

Definition orDefault {A : Type} (v : option A) (default : A) : A :=
  match v with Some a => a | None => default end.

(** The destructuring of [options || {}] with its defaults. *)
Definition layoutOf (options : option Pdf.options) : Pdf.layout :=
  match options with
  | Some o =>
    {| Pdf.layout_title := orDefault (Pdf.title o) defaultTitle;
       Pdf.layout_fontFamily :=
         fontFamily (orDefault (Pdf.font o) (utf16 "noto"));
       Pdf.layout_fontSize := orDefault (Pdf.fontSize o) (11 # 1)%Q;
       Pdf.layout_includeHeader := orDefault (Pdf.includeHeader o) true;
       Pdf.layout_includeFooter := orDefault (Pdf.includeFooter o) true |}
  | None =>
    {| Pdf.layout_title := defaultTitle;
       Pdf.layout_fontFamily := fontFamily (utf16 "noto");
       Pdf.layout_fontSize := (11 # 1)%Q;
       Pdf.layout_includeHeader := true;
       Pdf.layout_includeFooter := true |}
  end.

Section PdfExport.

Variable H : Pdf.host.

(** [uploadToStorage], with the requests sent so far. *)
Definition uploadToStorage (pdf : Pdf.buffer H) (filename : str)
           (sent : list Pdf.call) : outcome str * list Pdf.call :=
  let path := utf16 "exports/" ++ filename in
  match Pdf.Storage_new H with
  | Throw error => (Throw (storageErrorPrefix ++ error), sent)
  | Return _ =>
    match Pdf.file_save H path pdf with
    | Throw error =>
      (Throw (storageErrorPrefix ++ error), sent ++ [Pdf.Save path])
    | Return _ =>
      match Pdf.getSignedUrl H path with
      | Throw error =>
        (Throw (storageErrorPrefix ++ error),
         sent ++ [Pdf.Save path; Pdf.SignedUrl path])
      | Return url =>
        (Return url, sent ++ [Pdf.Save path; Pdf.SignedUrl path])
      end
    end
  end.

(** [uploadToDrive], with the requests sent so far: [None] is its
    [null]. *)
Definition uploadToDrive (pdf : Pdf.buffer H) (filename : str)
           (sent : list Pdf.call) : outcome (option str) * list Pdf.call :=
  match Pdf.getAuthClient H with
  | Throw _ => (Return None, sent)
  | Return _ =>
    match Pdf.files_create H filename pdf with
    | Throw _ => (Return None, sent ++ [Pdf.Create filename])
    | Return fileId =>
      (Return (Some (utf16 "https://drive.google.com/file/d/" ++ fileId
                     ++ utf16 "/view")),
       sent ++ [Pdf.Create filename])
    end
  end.

Definition generatePDF (text : str) (results : option str)
           (options : option Pdf.options) (sent : list Pdf.call)
  : outcome Pdf.result * list Pdf.call :=
  let layout := layoutOf options in
  let title := Pdf.layout_title layout in
  match
    match Pdf.draw H layout text results with
    | Throw error => (Throw error, sent)
    | Return pdfBuffer =>
      match uploadToStorage pdfBuffer (title ++ utf16 ".pdf") sent with
      | (Throw error, sent') => (Throw error, sent')
      | (Return storageUrl, sent') =>
        match uploadToDrive pdfBuffer (title ++ utf16 ".pdf") sent' with
        | (Throw error, sent'') => (Throw error, sent'')
        | (Return driveUrl, sent'') =>
          (Return {| Pdf.result_title := title;
                     Pdf.url := storageUrl;
                     Pdf.driveUrl := driveUrl |}, sent'')
        end
      end
    end
  with
  | (Return result, sent') => (Return result, sent')
  | (Throw error, sent') => (Throw (pdfErrorPrefix ++ error), sent')
  end.

End PdfExport.

(** A host for examples: Cloud Storage answers, Drive refuses the
    upload. *)
Definition driveDown : Pdf.host :=
  {| Pdf.buffer := str;
     Pdf.draw := fun _ text _ => Return text;
     Pdf.Storage_new := Return tt;
     Pdf.file_save := fun _ _ => Return tt;
     Pdf.getSignedUrl := fun path => Return (utf16 "https://signed/" ++ path);
     Pdf.getAuthClient := Return tt;
     Pdf.files_create := fun _ _ => Throw (utf16 "quota") |}.

(* ================================================================== *)
(** * Properties *)

(** ** Equality of strings *)

Lemma str_eqb_eq (a b : str) : Str.eqb a b = true <-> a = b.
Proof.
  unfold Str.eqb. destruct (list_eq_dec N.eq_dec a b); split; congruence.
Qed.

Lemma str_eqb_neq (a b : str) : Str.eqb a b = false <-> a <> b.
Proof.
  unfold Str.eqb. destruct (list_eq_dec N.eq_dec a b); split; congruence.
Qed.

Lemma str_eqb_refl (a : str) : Str.eqb a a = true.
Proof. now apply str_eqb_eq. Qed.

(** ** Strings *)

Section StrFacts.

Variable p : unit16 -> bool.

Lemma dropWhile_nil_iff (s : str) :
  dropWhile p s = [] <-> forallb p s = true.
Proof.
  induction s as [|c s IH]; simpl.
  - tauto.
  - destruct (p c); simpl; [exact IH|]. split; discriminate.
Qed.

Lemma dropWhile_head (s : str) :
  match dropWhile p s with
  | [] => True
  | c :: _ => p c = false
  end.
Proof.
  induction s as [|c s IH]; simpl; [exact I|].
  destruct (p c) eqn:Hc; [exact IH | exact Hc].
Qed.

Lemma split_not_nil (s : str) : split p s <> [].
Proof.
  destruct s as [|c s]; simpl; [discriminate|].
  destruct (p c); [discriminate|].
  destruct (split p s); discriminate.
Qed.


(** The number of pieces is the number of separators plus one. *)
Lemma split_length (s : str) :
  length (split p s) = length (filter p s) + 1.
Proof.
  induction s as [|c s IH]; simpl; [reflexivity|].
  destruct (p c); simpl; [now rewrite IH|].
  pose proof (split_not_nil s) as H.
  destruct (split p s); [congruence | exact IH].
Qed.

End StrFacts.

Lemma trim_nil_iff (s : str) : trim s = [] <-> isBlank s = true.
Proof.
  unfold trim, isBlank. split.
  - intros H.
    apply (f_equal (@rev unit16)) in H. rewrite rev_involutive in H.
    simpl in H. apply dropWhile_nil_iff in H.
    rewrite forallb_forall in H.
    apply dropWhile_nil_iff.
    pose proof (dropWhile_head isWhiteSpace s) as Hh.
    destruct (dropWhile isWhiteSpace s) as [|c d]; [reflexivity|].
    rewrite (H c) in Hh; [discriminate|].
    apply in_rev. rewrite rev_involutive. now left.
  - intros H. apply dropWhile_nil_iff in H. now rewrite H.
Qed.

Lemma guard_blank (text : str) :
  negb (truthy (Some text)) || Str.eqb (trim text) [] = isBlank text.
Proof.
  destruct text as [|c s]; [reflexivity|]. simpl negb. simpl orb.
  destruct (isBlank (c :: s)) eqn:Hb.
  - apply str_eqb_eq. now apply trim_nil_iff.
  - apply str_eqb_neq. intros H. apply trim_nil_iff in H. congruence.
Qed.


Lemma slice_last_short (n : nat) (s : str) :
  length s <= n -> slice_last n s = s.
Proof.
  intros H. unfold slice_last.
  replace (length s - n) with 0 by lia. reflexivity.
Qed.

Lemma slice_last_long (n : nat) (s : str) :
  n <= length s ->
  length (slice_last n s) = n /\ exists front, s = front ++ slice_last n s.
Proof.
  intros H. unfold slice_last. split.
  - rewrite length_skipn. lia.
  - exists (firstn (length s - n) s). now rewrite firstn_skipn.
Qed.

(** ** Matching *)

Section MatchFacts.

Variable E : RegExpEngine.
Variable rx : regexp E.
Variable s : str.

(** The fuel of [match_ranges] is never used up: more fuel finds the
    same matches. *)
Lemma match_from_fuel (fuel : nat) : forall lastIndex extra,
    length s + 1 <= fuel + lastIndex ->
    match_from E (fuel + extra) rx s lastIndex
    = match_from E fuel rx s lastIndex.
Proof.
  induction fuel as [|fuel IH]; intros lastIndex extra Hf.
  - simpl plus at 1. destruct extra as [|extra]; [reflexivity|]. simpl.
    destruct (Nat.ltb_spec (length s) lastIndex); [reflexivity | lia].
  - simpl.
    destruct (Nat.ltb_spec (length s) lastIndex); [reflexivity|].
    destruct (exec E rx s lastIndex) as [[b e]|] eqn:Hx; [|reflexivity].
    apply exec_range in Hx. f_equal.
    apply IH. destruct (Nat.eqb_spec e b); lia.
Qed.

Lemma match_from_bounds (fuel : nat) : forall lastIndex,
    Forall (fun r => lastIndex <= fst r /\ fst r <= snd r
                     /\ snd r <= length s)
           (match_from E fuel rx s lastIndex).
Proof.
  induction fuel as [|fuel IH]; intros lastIndex; simpl; [constructor|].
  destruct (length s <? lastIndex); [constructor|].
  destruct (exec E rx s lastIndex) as [[b e]|] eqn:Hx; [|constructor].
  apply exec_range in Hx. constructor; [simpl; lia|].
  eapply Forall_impl; [|apply IH]. simpl. intros r Hr.
  destruct (Nat.eqb_spec e b); lia.
Qed.

Lemma match_from_sorted (fuel : nat) : forall lastIndex,
    StronglySorted before (match_from E fuel rx s lastIndex).
Proof.
  induction fuel as [|fuel IH]; intros lastIndex; simpl; [constructor|].
  destruct (length s <? lastIndex); [constructor|].
  destruct (exec E rx s lastIndex) as [[b e]|] eqn:Hx; [|constructor].
  apply exec_range in Hx. constructor; [apply IH|].
  eapply Forall_impl; [|apply match_from_bounds]. unfold before. simpl.
  intros r Hr. destruct (Nat.eqb_spec e b); lia.
Qed.

(** The matches counted are inside the text, in text order, and no
    two of them overlap. *)
Lemma match_ranges_disjoint :
  StronglySorted before (match_ranges E rx s)
  /\ Forall (fun r => fst r <= snd r /\ snd r <= length s)
            (match_ranges E rx s).
Proof.
  split; [apply match_from_sorted|].
  eapply Forall_impl; [|apply match_from_bounds]. simpl. tauto.
Qed.

Lemma String_match_length :
  match String_match E s rx with
  | Some found => length found = length (match_ranges E rx s)
                  /\ 0 < length found
  | None => length (match_ranges E rx s) = 0
  end.
Proof.
  unfold String_match.
  destruct (match_ranges E rx s); [reflexivity|].
  rewrite length_map. simpl. lia.
Qed.

End MatchFacts.

(** ** The tally of endings *)

Lemma fold_tallyEnding (sentences : list str) : forall o,
    fold_left tallyEnding sentences o
    = fold_left bump
        (map (slice_last 5)
             (filter (fun trimmed => negb (length trimmed =? 0))
                     (map trim sentences))) o.
Proof.
  induction sentences as [|sentence rest IH]; intros o; simpl; [reflexivity|].
  unfold tallyEnding at 2.
  destruct (length (trim sentence) =? 0); simpl; apply IH.
Qed.

Lemma firstOccurrences_In (keys : list str) (k : str) :
  In k (firstOccurrences keys) <-> In k keys.
Proof.
  induction keys as [|a keys IH]; simpl; [tauto|].
  rewrite filter_In, IH, negb_true_iff, str_eqb_neq.
  destruct (str_dec a k) as [->|Hne]; [tauto|].
  split; [tauto|]. intros [H|H]; [tauto|]. right. split; congruence.
Qed.

Lemma firstOccurrences_NoDup (keys : list str) :
  NoDup (firstOccurrences keys).
Proof.
  induction keys as [|a keys IH]; simpl; constructor.
  - rewrite filter_In, negb_true_iff, str_eqb_neq. tauto.
  - now apply NoDup_filter.
Qed.

Lemma firstOccurrences_snoc (keys : list str) (k : str) :
  firstOccurrences (keys ++ [k])
  = if in_dec str_dec k keys then firstOccurrences keys
    else firstOccurrences keys ++ [k].
Proof.
  induction keys as [|a keys IH]; simpl; [reflexivity|].
  rewrite IH.
  destruct (in_dec str_dec k keys) as [Hin|Hnin];
    destruct (str_dec a k) as [->|Hne]; try reflexivity; try tauto.
  - rewrite filter_app. simpl. rewrite str_eqb_refl. simpl.
    now rewrite app_nil_r.
  - rewrite filter_app. simpl.
    replace (Str.eqb k a) with false; [reflexivity|].
    symmetry. apply str_eqb_neq. congruence.
Qed.

Section ObjectOfMap.

Variable f : str -> nat.

Lemma get_map (ks : list str) (k : str) :
  JsObject.get (map (fun x => (x, f x)) ks) k
  = if in_dec str_dec k ks then Some (f k) else None.
Proof.
  induction ks as [|a ks IH]; simpl; [reflexivity|].
  destruct (str_dec a k) as [->|Hne].
  - now rewrite str_eqb_refl.
  - replace (Str.eqb a k) with false
      by (symmetry; now apply str_eqb_neq).
    rewrite IH. destruct (in_dec str_dec k ks); reflexivity.
Qed.

Lemma set_map_in (ks : list str) (k : str) (v : nat) :
  NoDup ks -> In k ks ->
  JsObject.set (map (fun x => (x, f x)) ks) k v
  = map (fun x => (x, if Str.eqb x k then v else f x)) ks.
Proof.
  induction 1 as [|a ks Ha Hnd IH]; simpl; [tauto|].
  intros Hin. destruct (str_dec a k) as [->|Hne].
  - rewrite str_eqb_refl. f_equal. apply map_ext_in.
    intros x Hx. replace (Str.eqb x k) with false; [reflexivity|].
    symmetry. apply str_eqb_neq. congruence.
  - replace (Str.eqb a k) with false
      by (symmetry; now apply str_eqb_neq).
    f_equal. apply IH. tauto.
Qed.

Lemma set_map_notin (ks : list str) (k : str) (v : nat) :
  ~ In k ks ->
  JsObject.set (map (fun x => (x, f x)) ks) k v
  = map (fun x => (x, f x)) ks ++ [(k, v)].
Proof.
  induction ks as [|a ks IH]; simpl; [reflexivity|].
  intros Hnin. replace (Str.eqb a k) with false.
  - f_equal. apply IH. tauto.
  - symmetry. apply str_eqb_neq. tauto.
Qed.

End ObjectOfMap.

Lemma tally_snoc (keys : list str) (k x : str) :
  tally (keys ++ [k]) x = tally keys x + (if Str.eqb x k then 1 else 0).
Proof.
  unfold tally. rewrite count_occ_app. simpl.
  destruct (str_dec k x) as [->|Hne].
  - now rewrite str_eqb_refl.
  - replace (Str.eqb x k) with false; [reflexivity|].
    symmetry. apply str_eqb_neq. congruence.
Qed.

Lemma tally_pos (keys : list str) (k : str) :
  In k keys <-> 0 < tally keys k.
Proof. apply count_occ_In. Qed.

(** The object the sentences are tallied in holds every distinct key
    once, at the place of its first occurrence, with the number of its
    occurrences. *)
Lemma fold_bump (keys : list str) :
  fold_left bump keys []
  = map (fun k => (k, tally keys k)) (firstOccurrences keys).
Proof.
  induction keys as [|k keys IH] using rev_ind; [reflexivity|].
  rewrite fold_left_app, IH. simpl. unfold bump.
  rewrite get_map, firstOccurrences_snoc.
  destruct (in_dec str_dec k (firstOccurrences keys)) as [Hin|Hnin];
    destruct (in_dec str_dec k keys) as [Hin'|Hnin'];
    try (exfalso; apply Hnin'; now apply firstOccurrences_In);
    try (exfalso; apply Hnin; now apply firstOccurrences_In).
  - rewrite set_map_in;
      [|apply firstOccurrences_NoDup | exact Hin].
    apply map_ext. intros x. rewrite tally_snoc.
    destruct (str_dec x k) as [->|Hne].
    + rewrite str_eqb_refl. apply tally_pos in Hin'.
      destruct (Nat.eqb_spec (tally keys k) 0); [lia | reflexivity].
    + replace (Str.eqb x k) with false
        by (symmetry; now apply str_eqb_neq).
      now rewrite Nat.add_0_r.
  - rewrite set_map_notin by exact Hnin.
    rewrite map_app. simpl. f_equal.
    + apply map_ext_in. intros x Hx. rewrite tally_snoc.
      replace (Str.eqb x k) with false; [now rewrite Nat.add_0_r|].
      symmetry. apply str_eqb_neq. congruence.
    + rewrite tally_snoc, str_eqb_refl.
      replace (tally keys k) with 0; [reflexivity|].
      symmetry. apply count_occ_not_In. exact Hnin'.
Qed.

Lemma endingPatterns_tally (text : str) :
  fold_left tallyEnding (split isTerminator text) []
  = map (fun k => (k, tally (endingKeys text) k))
        (firstOccurrences (endingKeys text)).
Proof. rewrite fold_tallyEnding. apply fold_bump. Qed.

(** ** The order of [Object.entries] *)

Lemma insert_perm (e : str * nat) (o : JsObject.t) :
  Permutation (JsObject.insert e o) (e :: o).
Proof.
  induction o as [|e' o IH]; simpl; [reflexivity|].
  destruct (JsObject.toNumber (fst e) <=? JsObject.toNumber (fst e'))%N;
    [reflexivity|].
  rewrite IH. apply perm_swap.
Qed.

Lemma sort_perm (o : JsObject.t) : Permutation (JsObject.sort o) o.
Proof.
  induction o as [|e o IH]; simpl; [reflexivity|].
  rewrite insert_perm. now constructor.
Qed.

Lemma insert_sorted (e : str * nat) (o : JsObject.t) :
  StronglySorted indexLe o -> StronglySorted indexLe (JsObject.insert e o).
Proof.
  induction 1 as [|e' o Hs IH Hall]; simpl.
  - repeat constructor.
  - destruct (N.leb_spec (JsObject.toNumber (fst e))
                         (JsObject.toNumber (fst e'))) as [Hle|Hgt].
    + constructor; [now constructor|]. constructor; [exact Hle|].
      eapply Forall_impl; [|exact Hall]. unfold indexLe. intros; lia.
    + constructor; [exact IH|].
      eapply Permutation_Forall; [symmetry; apply insert_perm|].
      constructor; [unfold indexLe; lia | exact Hall].
Qed.

Lemma sort_sorted (o : JsObject.t) : StronglySorted indexLe (JsObject.sort o).
Proof.
  induction o as [|e o IH]; simpl; [constructor | now apply insert_sorted].
Qed.

Lemma entries_In (o : JsObject.t) (e : str * nat) :
  In e (JsObject.entries o) <-> In e o.
Proof.
  unfold JsObject.entries. rewrite in_app_iff.
  rewrite (Permutation_in' (eq_refl e) (sort_perm _)).
  rewrite !filter_In. destruct (JsObject.isArrayIndex (fst e)); simpl.
  - intuition discriminate.
  - intuition discriminate.
Qed.

Lemma entries_perm (o : JsObject.t) : Permutation (JsObject.entries o) o.
Proof.
  unfold JsObject.entries. rewrite sort_perm.
  induction o as [|e o IH]; simpl; [reflexivity|].
  destruct (JsObject.isArrayIndex (fst e)); simpl.
  - now constructor.
  - rewrite <- Permutation_middle. now constructor.
Qed.

(** ** The loops of [analyzeText] *)

#[local] Arguments Nat.leb _ _ : simpl never.
#[local] Arguments Nat.ltb _ _ : simpl never.

Lemma fold_reportEnding (es : list (str * nat)) : forall r,
    fold_left reportEnding es r
    = {| Result.mediaScore := Result.mediaScore r;
         Result.ambiguousPhrases := Result.ambiguousPhrases r;
         Result.repetitiveEndings :=
           Result.repetitiveEndings r
           ++ map mkEnding (filter (fun e => 3 <=? snd e) es);
         Result.mediaSpecificIssues := Result.mediaSpecificIssues r;
         Result.improvements := Result.improvements r |}.
Proof.
  induction es as [|[pattern count] es IH]; intros r; simpl.
  - rewrite app_nil_r. now destruct r.
  - rewrite IH. destruct (3 <=? count); simpl; [|reflexivity].
    now rewrite <- app_assoc.
Qed.

Section Loops.

Variable E : RegExpEngine.
Variable text : str.

Lemma wellFormed_split (rules : Rules.t) :
  wellFormed E rules = true ->
  forallb (fun phrase => compiles E (PhraseRule.text phrase))
          (Rules.ambiguousPhrases rules) = true
  /\ forallb (fun rule => compiles E (MediaRule.pattern rule))
             (Rules.mediaSpecificRules rules) = true.
Proof.
  unfold wellFormed, patterns.
  rewrite forallb_app, andb_true_iff, !forallb_forall.
  intros [Hp Hm]. split; intros x Hx.
  - apply Hp. now apply in_map.
  - apply Hm. now apply in_map.
Qed.

Lemma checkPhrase_compiled (phrase : PhraseRule.t) (r : Result.t) :
  compiles E (PhraseRule.text phrase) = true ->
  checkPhrase E text phrase r
  = Return
      (if 0 <? matchCount E text (PhraseRule.text phrase)
       then Result.push_ambiguousPhrases r (mkPhraseIssue E text phrase)
       else r).
Proof.
  unfold compiles, checkPhrase, mkPhraseIssue, matchCount.
  destruct (RegExp_new E (PhraseRule.text phrase) (utf16 "g")) as [rx|];
    [intros _ | discriminate]. simpl.
  pose proof (String_match_length E rx text) as H.
  destruct (String_match E text rx) as [found|].
  - destruct H as [<- Hpos].
    destruct (Nat.ltb_spec 0 (length found)); [reflexivity | lia].
  - now rewrite H.
Qed.

Lemma checkMediaRule_compiled (rule : MediaRule.t) (r : Result.t) :
  compiles E (MediaRule.pattern rule) = true ->
  checkMediaRule E text rule r
  = Return
      (if 0 <? matchCount E text (MediaRule.pattern rule)
       then Result.push_mediaSpecificIssues r (mkMediaIssue E text rule)
       else r).
Proof.
  unfold compiles, checkMediaRule, mkMediaIssue, matchCount.
  destruct (RegExp_new E (MediaRule.pattern rule) (utf16 "g")) as [rx|];
    [intros _ | discriminate]. simpl.
  pose proof (String_match_length E rx text) as H.
  destruct (String_match E text rx) as [found|].
  - destruct H as [<- Hpos].
    destruct (Nat.ltb_spec 0 (length found)); [reflexivity | lia].
  - now rewrite H.
Qed.

Lemma forEach_checkPhrase (rules : list PhraseRule.t) : forall r,
    forallb (fun phrase => compiles E (PhraseRule.text phrase)) rules = true ->
    forEach rules (checkPhrase E text) r
    = Return
        {| Result.mediaScore := Result.mediaScore r;
           Result.ambiguousPhrases :=
             Result.ambiguousPhrases r ++ phraseIssues E text rules;
           Result.repetitiveEndings := Result.repetitiveEndings r;
           Result.mediaSpecificIssues := Result.mediaSpecificIssues r;
           Result.improvements := Result.improvements r |}.
Proof.
  induction rules as [|phrase rules IH]; intros r Hall; simpl.
  - unfold phraseIssues. simpl. rewrite app_nil_r. now destruct r.
  - simpl in Hall. apply andb_prop in Hall. destruct Hall as [Hc Hrest].
    rewrite checkPhrase_compiled by exact Hc. simpl.
    rewrite (IH _ Hrest). unfold phraseIssues. simpl.
    destruct (0 <? matchCount E text (PhraseRule.text phrase)); simpl;
      [|reflexivity].
    now rewrite <- app_assoc.
Qed.

Lemma forEach_checkMediaRule (rules : list MediaRule.t) : forall r,
    forallb (fun rule => compiles E (MediaRule.pattern rule)) rules = true ->
    forEach rules (checkMediaRule E text) r
    = Return
        {| Result.mediaScore := Result.mediaScore r;
           Result.ambiguousPhrases := Result.ambiguousPhrases r;
           Result.repetitiveEndings := Result.repetitiveEndings r;
           Result.mediaSpecificIssues :=
             Result.mediaSpecificIssues r ++ mediaIssues E text rules;
           Result.improvements := Result.improvements r |}.
Proof.
  induction rules as [|rule rules IH]; intros r Hall; simpl.
  - unfold mediaIssues. simpl. rewrite app_nil_r. now destruct r.
  - simpl in Hall. apply andb_prop in Hall. destruct Hall as [Hc Hrest].
    rewrite checkMediaRule_compiled by exact Hc. simpl.
    rewrite (IH _ Hrest). unfold mediaIssues. simpl.
    destruct (0 <? matchCount E text (MediaRule.pattern rule)); simpl;
      [|reflexivity].
    now rewrite <- app_assoc.
Qed.

End Loops.

(** ** The result of an analysis *)

Section Analysis.

Variable E : RegExpEngine.

Lemma detailed_improvements (text : str) (r : Result.t) :
  detailed text (split isTerminator text) r
  = {| Result.mediaScore := Result.mediaScore r;
       Result.ambiguousPhrases := Result.ambiguousPhrases r;
       Result.repetitiveEndings := Result.repetitiveEndings r;
       Result.mediaSpecificIssues := Result.mediaSpecificIssues r;
       Result.improvements := Result.improvements r ++ detailAdvice text |}.
Proof.
  unfold detailed, detailAdvice.
  fold (averageSentenceLength text). fold (characterCount text).
  fold (sentenceCount text). fold (readabilityScore text).
  destruct (Number.gtb (averageSentenceLength text) 50);
    destruct (Number.ltb (readabilityScore text) 60);
    destruct r; unfold Result.push_improvements; simpl;
    rewrite <- ?app_assoc, ?app_nil_r; reflexivity.
Qed.

Lemma analyze_blank (text : str) (mediaRules : Rules.t)
      (detailedAnalysis : bool) :
  isBlank text = true ->
  analyze E text mediaRules detailedAnalysis = Return Result.initial.
Proof.
  intros Hb. unfold analyze. now rewrite guard_blank, Hb.
Qed.

Lemma analyze_nonblank (text : str) (mediaRules : Rules.t)
      (detailedAnalysis : bool) :
  isBlank text = false ->
  wellFormed E mediaRules = true ->
  analyze E text mediaRules detailedAnalysis
  = Return (analysis E text mediaRules detailedAnalysis).
Proof.
  intros Hb Hwf. apply wellFormed_split in Hwf. destruct Hwf as [Hp Hm].
  unfold analyze. rewrite guard_blank, Hb.
  rewrite forEach_checkPhrase by exact Hp. cbn [bind].
  rewrite fold_reportEnding.
  rewrite forEach_checkMediaRule by exact Hm. cbn [bind].
  fold (endings text). unfold analysis. f_equal.
  cbn [Result.ambiguousPhrases Result.repetitiveEndings
       Result.mediaSpecificIssues Result.mediaScore Result.improvements
       Result.initial Result.set_mediaScore app].
  fold (score (length (phraseIssues E text (Rules.ambiguousPhrases mediaRules))
               + length (endings text)
               + length (mediaIssues E text
                           (Rules.mediaSpecificRules mediaRules)))).
  set (sc := score _).
  destruct (sc <? 70)%Z; destruct detailedAnalysis;
    rewrite ?detailed_improvements; reflexivity.
Qed.

Lemma analyzeText_nonblank (text : str) (mediaRules : Rules.t)
      (detailedAnalysis : bool) :
  isBlank text = false ->
  wellFormed E mediaRules = true ->
  analyzeText E text mediaRules detailedAnalysis
  = Return (analysis E text mediaRules detailedAnalysis).
Proof.
  intros Hb Hwf. unfold analyzeText.
  now rewrite analyze_nonblank.
Qed.

End Analysis.

(** ** Failing analyses *)

Section Failure.

Variable E : RegExpEngine.
Variable text : str.

Lemma compiles_false (pattern : str) :
  compiles E pattern = false ->
  exists message, RegExp_new E pattern (utf16 "g") = Throw message.
Proof.
  unfold compiles. destruct (RegExp_new E pattern (utf16 "g")) as [rx|message];
    [discriminate|]. intros _. now exists message.
Qed.

(** The loop over the phrases throws what the first pattern that does
    not compile throws, and returns when all compile. *)
Lemma forEach_checkPhrase_outcome (rules : list PhraseRule.t) : forall r,
    match forEach rules (checkPhrase E text) r with
    | Return _ =>
      forallb (fun phrase => compiles E (PhraseRule.text phrase)) rules
      = true
    | Throw message =>
      exists phrase, In phrase rules
                     /\ RegExp_new E (PhraseRule.text phrase) (utf16 "g")
                        = Throw message
    end.
Proof.
  induction rules as [|phrase rules IH]; intros r; simpl; [reflexivity|].
  destruct (compiles E (PhraseRule.text phrase)) eqn:Hc.
  - rewrite checkPhrase_compiled by exact Hc. cbn [bind andb].
    match goal with |- context [forEach rules _ ?r'] =>
      specialize (IH r'); destruct (forEach rules _ r') end.
    + exact IH.
    + destruct IH as [p [Hin Hp]]. exists p. split; [now right | exact Hp].
  - destruct (compiles_false _ Hc) as [message Hm].
    unfold checkPhrase at 1. rewrite Hm. cbn [bind].
    exists phrase. split; [now left | exact Hm].
Qed.

Lemma forEach_checkMediaRule_outcome (rules : list MediaRule.t) : forall r,
    match forEach rules (checkMediaRule E text) r with
    | Return _ =>
      forallb (fun rule => compiles E (MediaRule.pattern rule)) rules
      = true
    | Throw message =>
      exists rule, In rule rules
                   /\ RegExp_new E (MediaRule.pattern rule) (utf16 "g")
                      = Throw message
    end.
Proof.
  induction rules as [|rule rules IH]; intros r; simpl; [reflexivity|].
  destruct (compiles E (MediaRule.pattern rule)) eqn:Hc.
  - rewrite checkMediaRule_compiled by exact Hc. cbn [bind andb].
    match goal with |- context [forEach rules _ ?r'] =>
      specialize (IH r'); destruct (forEach rules _ r') end.
    + exact IH.
    + destruct IH as [p [Hin Hp]]. exists p. split; [now right | exact Hp].
  - destruct (compiles_false _ Hc) as [message Hm].
    unfold checkMediaRule at 1. rewrite Hm. cbn [bind].
    exists rule. split; [now left | exact Hm].
Qed.

Lemma wellFormed_join (rules : Rules.t) :
  forallb (fun phrase => compiles E (PhraseRule.text phrase))
          (Rules.ambiguousPhrases rules) = true ->
  forallb (fun rule => compiles E (MediaRule.pattern rule))
          (Rules.mediaSpecificRules rules) = true ->
  wellFormed E rules = true.
Proof.
  unfold wellFormed, patterns.
  rewrite forallb_app, andb_true_iff, !forallb_forall.
  intros Hp Hm. split; intros x Hx; apply in_map_iff in Hx;
    destruct Hx as [y [<- Hy]]; auto.
Qed.

Lemma analyze_throws (rules : Rules.t) (detailedAnalysis : bool) :
  isBlank text = false ->
  wellFormed E rules = false ->
  exists pattern message,
    In pattern (patterns rules)
    /\ RegExp_new E pattern (utf16 "g") = Throw message
    /\ analyze E text rules detailedAnalysis = Throw message.
Proof.
  intros Hb Hwf. unfold analyze. rewrite guard_blank, Hb.
  pose proof (forEach_checkPhrase_outcome (Rules.ambiguousPhrases rules)
                                          Result.initial) as Hp.
  destruct (forEach (Rules.ambiguousPhrases rules) (checkPhrase E text)
                    Result.initial) as [r1|message].
  - cbn [bind].
    match goal with |- context [forEach _ (checkMediaRule E text) ?r'] =>
      pose proof (forEach_checkMediaRule_outcome
                    (Rules.mediaSpecificRules rules) r') as Hm;
      destruct (forEach (Rules.mediaSpecificRules rules)
                        (checkMediaRule E text) r') as [r2|message] end.
    + rewrite (wellFormed_join _ Hp Hm) in Hwf. discriminate.
    + destruct Hm as [rule [Hin Hr]].
      exists (MediaRule.pattern rule), message. cbn [bind].
      repeat split; [|exact Hr].
      unfold patterns. apply in_or_app. right. now apply in_map.
  - destruct Hp as [phrase [Hin Hr]].
    exists (PhraseRule.text phrase), message. cbn [bind].
    repeat split; [|exact Hr].
    unfold patterns. apply in_or_app. left. now apply in_map.
Qed.

End Failure.

(* ================================================================== *)
(** * The claims *)

Example phrase_counted :
  analyzeText Literal.engine sampleText sampleRules false
  = Return
      {| Result.mediaScore := 95;
         Result.ambiguousPhrases :=
           [{| PhraseIssue.text := utf16 "とても";
               PhraseIssue.count := 2;
               PhraseIssue.suggestion := utf16 "具体的な表現に" |}];
         Result.repetitiveEndings := [];
         Result.mediaSpecificIssues := [];
         Result.improvements := [] |}.
Proof. reflexivity. Qed.

Example three_issues_score_85 :
  option_map Result.mediaScore
    (match analyzeText Literal.engine (utf16 "abc")
             (lettersRules [letterRule "a"; letterRule "b"; letterRule "c"])
             false with
     | Return r => Some r
     | Throw _ => None
     end) = Some 85%Z.
Proof. reflexivity. Qed.

Example twentyfive_issues_score_0 :
  option_map (fun r => (length (Result.ambiguousPhrases r),
                        Result.mediaScore r))
    (match analyzeText Literal.engine (utf16 "abc")
             (lettersRules (repeat (letterRule "a") 25)) false with
     | Return r => Some r
     | Throw _ => None
     end) = Some (25, 0%Z).
Proof. reflexivity. Qed.

(** ** Scoring *)

(** C1. For a text that is neither empty nor white space only,
    [analyzeText] returns a result whose [mediaScore] is
    [max(0, 100 - 5 * totalIssues)], where [totalIssues] counts the
    entries of [ambiguousPhrases], [repetitiveEndings] and
    [mediaSpecificIssues] of that result; the score is an integer from 0
    to 100, is 85 for 3 issues and is 0 for 25 issues.  (The rule set is
    one whose patterns compile; with another rule set the analysis
    fails.) *)
Theorem analyzeText_mediaScore (E : RegExpEngine) (text : str)
        (mediaRules : Rules.t) (detailedAnalysis : bool) :
  isBlank text = false ->
  wellFormed E mediaRules = true ->
  exists r,
    analyzeText E text mediaRules detailedAnalysis = Return r
    /\ let totalIssues :=
         length (Result.ambiguousPhrases r)
         + length (Result.repetitiveEndings r)
         + length (Result.mediaSpecificIssues r) in
       Result.mediaScore r = Z.max 0 (100 - 5 * Z.of_nat totalIssues)
       /\ (0 <= Result.mediaScore r <= 100)%Z
       /\ (totalIssues = 3 -> Result.mediaScore r = 85%Z)
       /\ (totalIssues = 25 -> Result.mediaScore r = 0%Z).
Proof.
  intros Hb Hwf. eexists. split; [now apply analyzeText_nonblank|].
  cbv zeta. unfold analysis.
  cbn [Result.mediaScore Result.ambiguousPhrases Result.repetitiveEndings
       Result.mediaSpecificIssues].
  set (n := _ + _ + _). unfold score. repeat split; try lia.
Qed.

Lemma analyzeText_mediaScore_witness :
  isBlank (utf16 "abc") = false
  /\ wellFormed Literal.engine
       (lettersRules [letterRule "a"; letterRule "b"; letterRule "c"]) = true
  /\ exists r,
      analyzeText Literal.engine (utf16 "abc")
        (lettersRules [letterRule "a"; letterRule "b"; letterRule "c"]) false
      = Return r
      /\ let totalIssues :=
           length (Result.ambiguousPhrases r)
           + length (Result.repetitiveEndings r)
           + length (Result.mediaSpecificIssues r) in
         Result.mediaScore r = Z.max 0 (100 - 5 * Z.of_nat totalIssues)
         /\ (0 <= Result.mediaScore r <= 100)%Z
         /\ (totalIssues = 3 -> Result.mediaScore r = 85%Z)
         /\ (totalIssues = 25 -> Result.mediaScore r = 0%Z).
Proof.
  split; [reflexivity|]. split; [reflexivity|].
  apply (@analyzeText_mediaScore Literal.engine (utf16 "abc")
           (lettersRules [letterRule "a"; letterRule "b"; letterRule "c"])
           false);
    reflexivity.
Defined.

(** ** The empty-input guard *)

(** C2. For an empty or white-space-only text, whatever the rule set
    and the [detailedAnalysis] flag, [analyzeText] returns the result
    with [mediaScore] 0 and four empty lists.  No rule is evaluated:
    the result is returned for every engine and every rule set, those
    with patterns that do not compile included. *)
Theorem analyzeText_blank (E : RegExpEngine) (text : str)
        (mediaRules : Rules.t) (detailedAnalysis : bool) :
  isBlank text = true ->
  analyzeText E text mediaRules detailedAnalysis
  = Return {| Result.mediaScore := 0;
              Result.ambiguousPhrases := [];
              Result.repetitiveEndings := [];
              Result.mediaSpecificIssues := [];
              Result.improvements := [] |}.
Proof.
  intros Hb. unfold analyzeText. now rewrite analyze_blank.
Qed.

Lemma analyzeText_blank_witness :
  isBlank (utf16 "  ") = true
  /\ wellFormed Literal.engine brokenRules = false
  /\ analyzeText Literal.engine (utf16 "  ") brokenRules true
     = Return {| Result.mediaScore := 0;
                 Result.ambiguousPhrases := [];
                 Result.repetitiveEndings := [];
                 Result.mediaSpecificIssues := [];
                 Result.improvements := [] |}.
Proof.
  split; [reflexivity|]. split; [reflexivity|].
  apply (@analyzeText_blank Literal.engine (utf16 "  ") brokenRules true).
  reflexivity.
Defined.

(** ** Failure *)

(** C9. When a pattern of the rule set does not compile, the analysis
    of a text that passes the empty-input guard fails: [analyzeText]
    throws an error whose message is the fixed prefix followed by the
    message of the engine for that pattern, and returns no result, so
    the outcome differs from the result of the guard. *)
Theorem analyzeText_failure (E : RegExpEngine) (text : str)
        (mediaRules : Rules.t) (detailedAnalysis : bool) :
  isBlank text = false ->
  wellFormed E mediaRules = false ->
  exists pattern message,
    In pattern (patterns mediaRules)
    /\ RegExp_new E pattern (utf16 "g") = Throw message
    /\ analyzeText E text mediaRules detailedAnalysis
       = Throw (analysisErrorPrefix ++ message)
    /\ (forall r,
           analyzeText E text mediaRules detailedAnalysis <> Return r)
    /\ analyzeText E text mediaRules detailedAnalysis
       <> analyzeText E [] mediaRules detailedAnalysis.
Proof.
  intros Hb Hwf.
  destruct (analyze_throws E text mediaRules detailedAnalysis Hb Hwf)
    as [pattern [message [Hin [Hc Ha]]]].
  exists pattern, message. unfold analyzeText at 1 2 3. rewrite Ha.
  cbn [try_catch]. repeat split; try assumption; discriminate.
Qed.

Lemma analyzeText_failure_witness :
  isBlank sampleText = false
  /\ wellFormed Literal.engine brokenRules = false
  /\ exists pattern message,
      In pattern (patterns brokenRules)
      /\ RegExp_new Literal.engine pattern (utf16 "g") = Throw message
      /\ analyzeText Literal.engine sampleText brokenRules false
         = Throw (analysisErrorPrefix ++ message)
      /\ (forall r,
             analyzeText Literal.engine sampleText brokenRules false
             <> Return r)
      /\ analyzeText Literal.engine sampleText brokenRules false
         <> analyzeText Literal.engine [] brokenRules false.
Proof.
  split; [reflexivity|]. split; [reflexivity|].
  apply (@analyzeText_failure Literal.engine sampleText brokenRules false);
    reflexivity.
Defined.

(** ** The reserved rule list *)

(** C10. Two rule sets that differ in [repetitivePatterns] only give
    the same outcome for every text and flag: [analyzeText] never reads
    that list. *)
Theorem analyzeText_ignores_repetitivePatterns (E : RegExpEngine)
        (text : str) (detailedAnalysis : bool) (rules1 rules2 : Rules.t) :
  Rules.ambiguousPhrases rules1 = Rules.ambiguousPhrases rules2 ->
  Rules.mediaSpecificRules rules1 = Rules.mediaSpecificRules rules2 ->
  analyzeText E text rules1 detailedAnalysis
  = analyzeText E text rules2 detailedAnalysis.
Proof.
  intros Hp Hm. unfold analyzeText, analyze. now rewrite Hp, Hm.
Qed.

Lemma analyzeText_ignores_repetitivePatterns_witness :
  Rules.repetitivePatterns sampleRules
  <> Rules.repetitivePatterns sampleRulesWithPatterns
  /\ analyzeText Literal.engine sampleText sampleRules true
     = analyzeText Literal.engine sampleText sampleRulesWithPatterns true.
Proof.
  split; [discriminate|].
  apply (@analyzeText_ignores_repetitivePatterns
           Literal.engine sampleText true sampleRules sampleRulesWithPatterns);
    reflexivity.
Defined.

(** ** The rule repository *)

Example rules_classified :
  getMediaRules
    (Firestore.Available
       [activeRule "mediaSpecific" "!!"; activeRule "ambiguousPhrase" "very";
        activeRule "unknown" "x"; activeRule "repetitivePattern" "desu"])
    (Some (utf16 "news"))
  = Return
      {| Rules.ambiguousPhrases :=
           [{| PhraseRule.text := utf16 "very";
               PhraseRule.suggestion := utf16 "rephrase" |}];
         Rules.repetitivePatterns :=
           [{| PatternRule.pattern := utf16 "desu";
               PatternRule.suggestion := utf16 "rephrase" |}];
         Rules.mediaSpecificRules :=
           [{| MediaRule.pattern := utf16 "!!";
               MediaRule.description := utf16 "avoid";
               MediaRule.mediaType := utf16 "news" |}] |}.
Proof. reflexivity. Qed.

(** C8. [getMediaRules] always returns a rule set, which has its three
    lists: it never throws; when the read of the store fails it returns
    the rule set with three empty lists, and so it does when the store
    returns no record. *)
Theorem getMediaRules_total (db : Firestore.db) (mediaType : option str) :
  (exists rules, getMediaRules db mediaType = Return rules)
  /\ (forall message,
         db = Firestore.Failing message ->
         getMediaRules db mediaType
         = Return {| Rules.ambiguousPhrases := [];
                     Rules.repetitivePatterns := [];
                     Rules.mediaSpecificRules := [] |})
  /\ (Firestore.get db (rulesQuery mediaType) = Return [] ->
      getMediaRules db mediaType
      = Return {| Rules.ambiguousPhrases := [];
                  Rules.repetitivePatterns := [];
                  Rules.mediaSpecificRules := [] |}).
Proof.
  unfold getMediaRules. repeat split.
  - destruct (Firestore.get db (rulesQuery mediaType)); cbn [bind try_catch];
      eexists; reflexivity.
  - intros message ->. reflexivity.
  - intros ->. reflexivity.
Qed.

Lemma getMediaRules_total_witness :
  Firestore.get (Firestore.Available [activeRule "ambiguousPhrase" "very"])
                (rulesQuery (Some (utf16 "blog"))) = Return []
  /\ getMediaRules (Firestore.Available [activeRule "ambiguousPhrase" "very"])
                   (Some (utf16 "blog"))
     = Return {| Rules.ambiguousPhrases := [];
                 Rules.repetitivePatterns := [];
                 Rules.mediaSpecificRules := [] |}
  /\ getMediaRules (Firestore.Failing (utf16 "UNAVAILABLE")) None
     = Return {| Rules.ambiguousPhrases := [];
                 Rules.repetitivePatterns := [];
                 Rules.mediaSpecificRules := [] |}.
Proof.
  split; [reflexivity|]. split.
  - apply (proj2 (proj2 (getMediaRules_total
             (Firestore.Available [activeRule "ambiguousPhrase" "very"])
             (Some (utf16 "blog"))))).
    reflexivity.
  - apply (proj1 (proj2 (getMediaRules_total
             (Firestore.Failing (utf16 "UNAVAILABLE")) None))
             (utf16 "UNAVAILABLE")).
    reflexivity.
Defined.

(** ** Repeated endings *)

Lemma split_In (p : unit16 -> bool) (s : str) : forall piece c,
    In piece (split p s) -> In c piece -> In c s.
Proof.
  induction s as [|a s IH]; intros piece c; simpl.
  - intros [<-|[]] [].
  - destruct (p a); simpl.
    + intros [<-|Hin] Hc; [destruct Hc | right; eauto].
    + destruct (split p s) as [|h t] eqn:Hs; simpl.
      * intros [<-|[]] [<-|[]]. now left.
      * intros [<-|Hin] Hc.
        -- destruct Hc as [<-|Hc]; [now left | right].
           apply (IH h); [now left | exact Hc].
        -- right. apply (IH piece); [now right | exact Hc].
Qed.

Lemma filter_none {A : Type} (f : A -> bool) (l : list A) :
  (forall x, In x l -> f x = false) -> filter f l = [].
Proof.
  induction l as [|a l IH]; simpl; [reflexivity|]. intros H.
  rewrite (H a) by now left. apply IH. intros x Hx. apply H. now right.
Qed.

Lemma endingKeys_blank (text : str) :
  isBlank text = true -> endingKeys text = [].
Proof.
  intros Hb. unfold endingKeys.
  rewrite filter_none; [reflexivity|]. intros t Ht.
  apply in_map_iff in Ht. destruct Ht as [piece [<- Hp]].
  replace (trim piece) with (@nil unit16); [reflexivity|].
  symmetry. apply trim_nil_iff. apply forallb_forall. intros c Hc.
  unfold isBlank in Hb. rewrite forallb_forall in Hb.
  apply Hb. eapply split_In; eassumption.
Qed.

Lemma endings_tally (text : str) :
  endings text
  = map mkEnding
        (filter (fun e => 3 <=? snd e)
                (JsObject.entries
                   (map (fun k => (k, tally (endingKeys text) k))
                        (firstOccurrences (endingKeys text))))).
Proof. unfold endings. now rewrite endingPatterns_tally. Qed.

Lemma endings_blank (text : str) :
  isBlank text = true -> endings text = [].
Proof.
  intros Hb. rewrite endings_tally, endingKeys_blank by exact Hb.
  reflexivity.
Qed.

(** The endings reported are those of the tally, for blank texts too. *)
Lemma analyzeText_endings (E : RegExpEngine) (text : str)
      (mediaRules : Rules.t) (detailedAnalysis : bool) :
  wellFormed E mediaRules = true ->
  exists r,
    analyzeText E text mediaRules detailedAnalysis = Return r
    /\ Result.repetitiveEndings r = endings text.
Proof.
  intros Hwf. destruct (isBlank text) eqn:Hb.
  - exists Result.initial. unfold analyzeText.
    rewrite analyze_blank by exact Hb. split; [reflexivity|].
    now rewrite endings_blank.
  - eexists. split; [now apply analyzeText_nonblank | reflexivity].
Qed.

Lemma map_fst_tally (f : str -> nat) (ks : list str) :
  map fst (map (fun k => (k, f k)) ks) = ks.
Proof. rewrite map_map. simpl. apply map_id. Qed.

Lemma NoDup_map_fst_filter (q : str * nat -> bool) (o : JsObject.t) :
  NoDup (map fst o) -> NoDup (map fst (filter q o)).
Proof.
  induction o as [|e o IH]; simpl; [constructor|].
  intros Hnd. inversion Hnd as [|? ? Hnotin Hnd']; subst.
  destruct (q e); simpl; [|now apply IH].
  constructor; [|now apply IH].
  intros Hin. apply Hnotin. apply in_map_iff in Hin.
  destruct Hin as [x [Hx Hin]]. apply filter_In in Hin.
  apply in_map_iff. exists x. tauto.
Qed.

Lemma map_pattern_mkEnding (es : list (str * nat)) :
  map Ending.pattern (map mkEnding es) = map fst es.
Proof. rewrite map_map. reflexivity. Qed.

Lemma split_sentencesOf (text : str) :
  sentencesOf text (split isTerminator text).
Proof.
  induction text as [|c text IH]; simpl.
  - apply sentencesOf_last. constructor.
  - destruct (isTerminator c) eqn:Hc.
    + apply (sentencesOf_cons [] c text); [constructor | exact Hc | exact IH].
    + inversion IH as [sentence Hs Ht Hsplit
                      |sentence terminator rest sentences Hs Ht Hrest Htext
                         Hsplit].
      * apply sentencesOf_last. now constructor.
      * apply (sentencesOf_cons (c :: sentence) terminator rest sentences);
          [now constructor | exact Ht | exact Hrest].
Qed.

Lemma dropWhile_prefix (p : unit16 -> bool) (s : str) :
  exists dropped,
    s = dropped ++ dropWhile p s /\ Forall (fun c => p c = true) dropped.
Proof.
  induction s as [|c s [dropped [Hs Hd]]]; simpl.
  - exists []. split; [reflexivity | constructor].
  - destruct (p c) eqn:Hc.
    + exists (c :: dropped). split; [simpl; now f_equal | now constructor].
    + exists []. split; [reflexivity | constructor].
Qed.

Lemma trim_trimmedOf (sentence : str) : trimmedOf sentence (trim sentence).
Proof.
  unfold trimmedOf, trim.
  destruct (dropWhile_prefix isWhiteSpace sentence) as [before [Hb Hbefore]].
  set (d := dropWhile isWhiteSpace sentence) in *.
  destruct (dropWhile_prefix isWhiteSpace (rev d)) as [after [Ha Hafter]].
  set (t := dropWhile isWhiteSpace (rev d)) in *.
  assert (Hd : d = rev t ++ rev after).
  { rewrite <- rev_app_distr, <- Ha. now rewrite rev_involutive. }
  exists before, (rev after). split; [now rewrite <- Hd|].
  split; [exact Hbefore|]. split.
  { apply Forall_forall. intros c Hc. apply in_rev in Hc.
    now apply (proj1 (Forall_forall _ _) Hafter). }
  split.
  - intros c rest Ht. pose proof (dropWhile_head isWhiteSpace sentence) as Hh.
    fold d in Hh. rewrite Hd, Ht in Hh. exact Hh.
  - intros front c Ht. pose proof (dropWhile_head isWhiteSpace (rev d)) as Hh.
    fold t in Hh. apply (f_equal (@rev unit16)) in Ht.
    rewrite rev_involutive, rev_app_distr in Ht. simpl in Ht.
    rewrite Ht in Hh. exact Hh.
Qed.

(** C3. The ending keys of a text are the last five code units (the
    whole sentence when it is shorter) of the sentences between the
    terminators [。．.!?！？] that are not empty once trimmed: the
    sentences are the pieces the text falls into at its terminators,
    and a trimmed sentence is the sentence without the white space
    before and after it.  An entry is in [repetitiveEndings] if and only
    if its pattern is a key that occurs at least 3 times, its count is
    the number of occurrences of that key and its suggestion is the
    sentence of the source with that count in decimal digits; no two
    entries have the same pattern.  So a key that occurs twice has no
    entry, and a key that occurs three times has exactly one, with
    count 3. *)
Theorem analyzeText_repetitiveEndings (E : RegExpEngine) (text : str)
        (mediaRules : Rules.t) (detailedAnalysis : bool) :
  wellFormed E mediaRules = true ->
  endingKeys text
  = map (fun sentence =>
           if length sentence <=? 5 then sentence
           else skipn (length sentence - 5) sentence)
        (filter (fun sentence => negb (length sentence =? 0))
                (map trim (split isTerminator text)))
  /\ (exists sentences trimmed,
         sentencesOf text sentences
         /\ Forall2 trimmedOf sentences trimmed
         /\ endingKeys text
            = map (fun sentence => skipn (length sentence - 5) sentence)
                  (filter (fun sentence => negb (length sentence =? 0))
                          trimmed))
  /\ exists r,
    analyzeText E text mediaRules detailedAnalysis = Return r
    /\ NoDup (map Ending.pattern (Result.repetitiveEndings r))
    /\ (forall e,
           In e (Result.repetitiveEndings r)
           <-> 3 <= tally (endingKeys text) (Ending.pattern e)
               /\ Ending.count e
                  = tally (endingKeys text) (Ending.pattern e)
               /\ Ending.suggestion e
                  = utf16 "語尾の表現を変えてみてください。現在 "
                    ++ utf16 (NilZero.string_of_uint
                                (Nat.to_uint (Ending.count e)))
                    ++ utf16 " 回使用されています。")
    /\ (forall key,
           tally (endingKeys text) key = 2 ->
           ~ In key (map Ending.pattern (Result.repetitiveEndings r)))
    /\ (forall key,
           tally (endingKeys text) key = 3 ->
           In {| Ending.pattern := key;
                 Ending.count := 3;
                 Ending.suggestion :=
                   utf16 "語尾の表現を変えてみてください。現在 3 回使用されています。" |}
              (Result.repetitiveEndings r)
           /\ forall e,
               In e (Result.repetitiveEndings r) ->
               Ending.pattern e = key ->
               e = {| Ending.pattern := key;
                      Ending.count := 3;
                      Ending.suggestion :=
                        utf16 "語尾の表現を変えてみてください。現在 3 回使用されています。" |}).
Proof.
  intros Hwf. split.
  { unfold endingKeys. apply map_ext. intros sentence.
    destruct (Nat.leb_spec (length sentence) 5) as [Hle|Hgt];
      [now apply slice_last_short | reflexivity]. }
  split.
  { exists (split isTerminator text), (map trim (split isTerminator text)).
    split; [apply split_sentencesOf|]. split; [|reflexivity].
    induction (split isTerminator text) as [|sentence sentences IH];
      simpl; constructor; [apply trim_trimmedOf | exact IH]. }
  destruct (analyzeText_endings E text mediaRules detailedAnalysis Hwf)
    as [r [Hr He]].
  exists r. split; [exact Hr|]. rewrite He, endings_tally.
  set (keys := endingKeys text).
  assert (Hiff : forall e,
             In e (map mkEnding
                     (filter (fun e => 3 <=? snd e)
                        (JsObject.entries
                           (map (fun k => (k, tally keys k))
                                (firstOccurrences keys)))))
             <-> 3 <= tally keys (Ending.pattern e)
                 /\ Ending.count e = tally keys (Ending.pattern e)
                 /\ Ending.suggestion e
                    = utf16 "語尾の表現を変えてみてください。現在 "
                      ++ utf16 (NilZero.string_of_uint
                                  (Nat.to_uint (Ending.count e)))
                      ++ utf16 " 回使用されています。").
  { intros e. rewrite in_map_iff. split.
    - intros [[k n] [<- Hin]]. apply filter_In in Hin.
      destruct Hin as [Hin H3]. apply (proj1 (entries_In _ _)) in Hin.
      apply in_map_iff in Hin. destruct Hin as [k' [[= <- <-] _]].
      simpl in *. apply Nat.leb_le in H3. tauto.
    - intros [H3 [Hc Hs]].
      exists (Ending.pattern e, tally keys (Ending.pattern e)). split.
      + destruct e as [p c s]. simpl in *. subst. reflexivity.
      + apply filter_In. split; [|now apply Nat.leb_le].
        apply entries_In. apply in_map_iff.
        exists (Ending.pattern e). split; [reflexivity|].
        apply firstOccurrences_In. apply tally_pos. lia. }
  split; [|split; [exact Hiff | split]].
  - rewrite map_pattern_mkEnding. apply NoDup_map_fst_filter.
    eapply Permutation_NoDup.
    + symmetry. apply Permutation_map. apply entries_perm.
    + rewrite map_fst_tally. apply firstOccurrences_NoDup.
  - intros key H2 Hin. apply in_map_iff in Hin.
    destruct Hin as [e [<- Hin]]. apply Hiff in Hin. lia.
  - intros key H3. split.
    + apply Hiff. simpl. rewrite H3. repeat split. lia.
    + intros e Hin Hkey. apply Hiff in Hin. subst key.
      destruct Hin as [_ [Hc Hs]]. rewrite H3 in Hc.
      destruct e as [p c s]. simpl in *. subst c. rewrite Hs. reflexivity.
Qed.

Lemma analyzeText_repetitiveEndings_witness :
  wellFormed Literal.engine sampleRules = true
  /\ tally (endingKeys thriceText) (utf16 "寝た") = 2
  /\ tally (endingKeys thriceText) (utf16 "行きました") = 3
  /\ exists r,
      analyzeText Literal.engine thriceText sampleRules false = Return r
      /\ ~ In (utf16 "寝た") (map Ending.pattern (Result.repetitiveEndings r))
      /\ In {| Ending.pattern := utf16 "行きました";
               Ending.count := 3;
               Ending.suggestion :=
                 utf16 "語尾の表現を変えてみてください。現在 3 回使用されています。" |}
            (Result.repetitiveEndings r).
Proof.
  split; [reflexivity|]. split; [reflexivity|]. split; [reflexivity|].
  destruct (@analyzeText_repetitiveEndings
              Literal.engine thriceText sampleRules false eq_refl)
    as [_ [_ [r [Hr [_ [_ [Htwo Hthree]]]]]]].
  exists r. split; [exact Hr|]. split.
  - apply Htwo. reflexivity.
  - apply Hthree. reflexivity.
Defined.

(** ** The order of the repeated endings *)

Example decimals_endings :
  endingKeys decimalsText
  = [utf16 "合計は10"; utf16 "5"; utf16 "合計は10"; utf16 "5";
     utf16 "合計は10"; utf16 "5"]
  /\ exists r,
      analyzeText Literal.engine decimalsText Rules.empty false = Return r
      /\ map Ending.pattern (Result.repetitiveEndings r)
         = [utf16 "5"; utf16 "合計は10"].
Proof. split; [reflexivity|]. eexists. split; reflexivity. Qed.

(** C4 as stated fails: in a text whose sentences end three times in
    [合計は10] and then in [5], the entry of [5] comes before the entry of
    [合計は10], since [Object.entries] lists a key that is an array index
    before the other keys. *)
Lemma endings_order_counterexample :
  exists r,
    analyzeText Literal.engine decimalsText Rules.empty false = Return r
    /\ ~ firstOccurrenceOrder decimalsText r.
Proof.
  eexists. split; [reflexivity|].
  unfold firstOccurrenceOrder. intros H. vm_compute in H. discriminate.
Qed.

Lemma filter_tally_map (p q : str * nat -> bool) (f : str -> nat)
      (ks : list str) :
  map fst (filter q (filter p (map (fun k => (k, f k)) ks)))
  = filter (fun k => p (k, f k) && q (k, f k)) ks.
Proof.
  induction ks as [|k ks IH]; simpl; [reflexivity|].
  destruct (p (k, f k)); simpl; [|exact IH].
  destruct (q (k, f k)); simpl; [now rewrite IH | exact IH].
Qed.

Lemma Permutation_filter_same {A : Type} (q : A -> bool) (l l' : list A) :
  Permutation l l' -> Permutation (filter q l) (filter q l').
Proof.
  induction 1 as [|x l l' _ IH|x y l|l l' l'' _ IH1 _ IH2]; simpl.
  - constructor.
  - destruct (q x); [now constructor | exact IH].
  - destruct (q x); destruct (q y); try reflexivity. apply perm_swap.
  - now transitivity (filter q l').
Qed.

Lemma StronglySorted_filter {A : Type} (R : A -> A -> Prop)
      (q : A -> bool) (l : list A) :
  StronglySorted R l -> StronglySorted R (filter q l).
Proof.
  induction 1 as [|a l Hs IH Hall]; simpl; [constructor|].
  destruct (q a); [|exact IH]. constructor; [exact IH|].
  rewrite Forall_forall in *. intros x Hx. apply filter_In in Hx.
  apply Hall. tauto.
Qed.

Lemma StronglySorted_map_fst (o : JsObject.t) :
  StronglySorted indexLe o -> StronglySorted keyLe (map fst o).
Proof.
  induction 1 as [|e o Hs IH Hall]; simpl; constructor; [exact IH|].
  rewrite Forall_forall in *. intros k Hk. apply in_map_iff in Hk.
  destruct Hk as [e' [<- He']]. now apply Hall.
Qed.

(** C4, amended. The entries of [repetitiveEndings] are in the order of
    [Object.entries]: first the repeated keys that are array indices
    (decimal integers in canonical form), in ascending numeric order;
    after them the other repeated keys, in the order of their first
    occurrences among the non-empty trimmed sentences.  When no ending
    key is an array index, the order is that of the first
    occurrences. *)
Theorem analyzeText_endings_order (E : RegExpEngine) (text : str)
        (mediaRules : Rules.t) (detailedAnalysis : bool) :
  wellFormed E mediaRules = true ->
  exists r indices,
    analyzeText E text mediaRules detailedAnalysis = Return r
    /\ map Ending.pattern (Result.repetitiveEndings r)
       = indices
         ++ filter (fun k => negb (JsObject.isArrayIndex k)
                             && repeated text k)
                   (firstOccurrences (endingKeys text))
    /\ Permutation indices
         (filter (fun k => JsObject.isArrayIndex k && repeated text k)
                 (firstOccurrences (endingKeys text)))
    /\ StronglySorted keyLe indices
    /\ ((forall k, In k (endingKeys text) ->
                   JsObject.isArrayIndex k = false) ->
        firstOccurrenceOrder text r).
Proof.
  intros Hwf.
  destruct (analyzeText_endings E text mediaRules detailedAnalysis Hwf)
    as [r [Hr He]].
  set (keys := endingKeys text).
  set (o := map (fun k => (k, tally keys k)) (firstOccurrences keys)).
  set (isIndex := fun e : str * nat => JsObject.isArrayIndex (fst e)).
  set (q := fun e : str * nat => 3 <=? snd e).
  exists r, (map fst (filter q (JsObject.sort (filter isIndex o)))).
  assert (Hpat : map Ending.pattern (Result.repetitiveEndings r)
                 = map fst (filter q (JsObject.sort (filter isIndex o)))
                   ++ filter (fun k => negb (JsObject.isArrayIndex k)
                                       && repeated text k)
                             (firstOccurrences keys)).
  { rewrite He, endings_tally, map_pattern_mkEnding.
    unfold JsObject.entries. fold keys. fold o.
    rewrite filter_app, map_app. f_equal.
    unfold o. now rewrite filter_tally_map. }
  assert (Hperm : Permutation
                    (map fst (filter q (JsObject.sort (filter isIndex o))))
                    (filter (fun k => JsObject.isArrayIndex k
                                      && repeated text k)
                            (firstOccurrences keys))).
  { rewrite (Permutation_filter_same q _ _ (sort_perm (filter isIndex o))).
    unfold o. now rewrite filter_tally_map. }
  split; [exact Hr|]. split; [exact Hpat|]. split; [exact Hperm|]. split.
  - apply StronglySorted_map_fst, StronglySorted_filter, sort_sorted.
  - intros Hnone. unfold firstOccurrenceOrder. rewrite Hpat.
    assert (Hnil : filter (fun k => JsObject.isArrayIndex k
                                    && repeated text k)
                          (firstOccurrences keys) = []).
    { apply filter_none. intros k Hk.
      rewrite Hnone; [reflexivity | now apply firstOccurrences_In]. }
    rewrite Hnil in Hperm. apply Permutation_sym in Hperm.
    apply Permutation_nil in Hperm. rewrite Hperm.
    simpl. apply filter_ext_in. intros k Hk.
    rewrite Hnone; [reflexivity | now apply firstOccurrences_In].
Qed.

Lemma analyzeText_endings_order_witness :
  wellFormed Literal.engine sampleRules = true
  /\ exists r indices,
      analyzeText Literal.engine decimalsText sampleRules false = Return r
      /\ map Ending.pattern (Result.repetitiveEndings r)
         = indices
           ++ filter (fun k => negb (JsObject.isArrayIndex k)
                               && repeated decimalsText k)
                     (firstOccurrences (endingKeys decimalsText))
      /\ Permutation indices
           (filter (fun k => JsObject.isArrayIndex k
                             && repeated decimalsText k)
                   (firstOccurrences (endingKeys decimalsText)))
      /\ StronglySorted keyLe indices
      /\ ((forall k, In k (endingKeys decimalsText) ->
                     JsObject.isArrayIndex k = false) ->
          firstOccurrenceOrder decimalsText r).
Proof.
  split; [reflexivity|].
  apply (@analyzeText_endings_order
           Literal.engine decimalsText sampleRules false).
  reflexivity.
Defined.

(** ** Phrase and media rules *)

(** C5 as stated fails on a text that is not empty but has white space
    only: a rule whose pattern matches white space has matches there,
    and the guard returns before any rule is looked at. *)
Lemma matched_rules_counterexample :
  wideSpaces <> []
  /\ matchCount Literal.engine wideSpaces (utf16 "　") = 2
  /\ exists r,
      analyzeText Literal.engine wideSpaces wideSpaceRules false = Return r
      /\ Result.mediaSpecificIssues r = []
      /\ ~ emitsMatchedRules Literal.engine wideSpaces wideSpaceRules r.
Proof.
  split; [discriminate|]. split; [reflexivity|].
  eexists. split; [reflexivity|]. split; [reflexivity|].
  intros [_ H]. vm_compute in H. discriminate.
Qed.

Example matching_is_case_sensitive :
  matchCount Literal.engine (utf16 "Very very VERY") (utf16 "very") = 1
  /\ option_map (fun rx => length (match_ranges Literal.engine rx
                                                 (utf16 "Very very VERY")))
        (match RegExp_new Literal.engine (utf16 "very") (utf16 "gi") with
         | Return rx => Some rx
         | Throw _ => None
         end) = Some 3.
Proof. split; reflexivity. Qed.

Example matches_do_not_overlap :
  match_ranges Literal.engine (utf16 "aa", utf16 "g") (utf16 "aaaaa")
  = [(0, 2); (2, 4)].
Proof. reflexivity. Qed.

Example rule_order_not_text_order :
  option_map (fun r => map PhraseIssue.text (Result.ambiguousPhrases r))
    (match analyzeText Literal.engine (utf16 "cab")
             (lettersRules [letterRule "a"; letterRule "z"; letterRule "c"])
             false with
     | Return r => Some r
     | Throw _ => None
     end) = Some [utf16 "a"; utf16 "c"].
Proof. reflexivity. Qed.

Lemma match_from_scanned (E : RegExpEngine) (rx : regexp E) (s : str) :
  forall fuel lastIndex,
    length s + 1 - lastIndex <= fuel ->
    scanned E rx s lastIndex (match_from E fuel rx s lastIndex).
Proof.
  induction fuel as [|fuel IH]; intros lastIndex Hfuel; simpl.
  - apply scanned_end. left. lia.
  - destruct (Nat.ltb_spec (length s) lastIndex) as [Hlt|Hle].
    + apply scanned_end. now left.
    + destruct (exec E rx s lastIndex) as [[b e]|] eqn:Hexec.
      * apply scanned_match; [exact Hle | exact Hexec|].
        apply IH. apply exec_range in Hexec.
        destruct (Nat.eqb_spec e b); lia.
      * apply scanned_end. now right.
Qed.

Lemma scanned_unique (E : RegExpEngine) (rx : regexp E) (s : str) :
  forall lastIndex ranges ranges',
    scanned E rx s lastIndex ranges ->
    scanned E rx s lastIndex ranges' ->
    ranges = ranges'.
Proof.
  intros lastIndex ranges ranges' H. revert ranges'.
  induction H as [lastIndex Hend|lastIndex b e rest Hle Hexec Hrest IH];
    intros ranges' H'.
  - inversion H' as [|? b e rest Hle Hexec Hrest]; subst; [reflexivity|].
    destruct Hend as [Hlt|Hnone]; [lia | congruence].
  - inversion H' as [? Hend|? b' e' rest' Hle' Hexec' Hrest']; subst.
    + destruct Hend as [Hlt|Hnone]; [lia | congruence].
    + rewrite Hexec in Hexec'. injection Hexec' as <- <-.
      f_equal. now apply IH.
Qed.

(** C5, amended. For a text that is neither empty nor white space
    only: each rule of [ambiguousPhrases] (of [mediaSpecificRules]) has
    the matches of its pattern in the text counted; the expression is
    the one the constructor gives for the pattern with the flags [g]
    alone, so it is global and does not ignore case; the scan finds the
    matches from left to right, each at or after the end of the one
    before, until none is left, so that they do not overlap; the rule
    has an entry [{text, count, suggestion}]
    ([{pattern, count, description}]) if and only if that count is
    greater than 0, and the entries are in the order of the rule list.
    The count is the number of rounds of the match loop, which more
    rounds would not change. *)
Theorem analyzeText_matched_rules (E : RegExpEngine) (text : str)
        (mediaRules : Rules.t) (detailedAnalysis : bool) :
  isBlank text = false ->
  wellFormed E mediaRules = true ->
  exists r,
    analyzeText E text mediaRules detailedAnalysis = Return r
    /\ emitsMatchedRules E text mediaRules r
    /\ (forall pattern rx,
           RegExp_new E pattern (utf16 "g") = Return rx ->
           ignoreCase E rx = false
           /\ global E rx = true
           /\ scanned E rx text 0 (match_ranges E rx text)
           /\ (forall ranges,
                  scanned E rx text 0 ranges ->
                  matchCount E text pattern = length ranges)
           /\ matchCount E text pattern = length (match_ranges E rx text)
           /\ StronglySorted before (match_ranges E rx text)
           /\ Forall (fun range => fst range <= snd range
                                   /\ snd range <= length text)
                     (match_ranges E rx text)
           /\ (forall more,
                  match_from E (length text + 1 + more) rx text 0
                  = match_ranges E rx text)).
Proof.
  intros Hb Hwf. eexists. split; [now apply analyzeText_nonblank|].
  split; [split; reflexivity|].
  intros pattern rx Hrx.
  destruct (RegExp_flags E _ _ _ Hrx) as [Hg Hi].
  split; [exact Hi|]. split; [exact Hg|].
  assert (Hscan : scanned E rx text 0 (match_ranges E rx text)).
  { unfold match_ranges. apply match_from_scanned. lia. }
  split; [exact Hscan|].
  unfold matchCount. rewrite Hrx.
  split; [intros ranges H; f_equal; exact (scanned_unique _ _ _ _ _ _ Hscan H)|].
  split; [reflexivity|].
  destruct (match_ranges_disjoint E rx text) as [Hsorted Hin].
  repeat split; try assumption.
  intros more. apply match_from_fuel. lia.
Qed.

Lemma analyzeText_matched_rules_witness :
  isBlank sampleText = false
  /\ wellFormed Literal.engine sampleRules = true
  /\ exists r,
      analyzeText Literal.engine sampleText sampleRules true = Return r
      /\ emitsMatchedRules Literal.engine sampleText sampleRules r
      /\ (forall pattern rx,
             RegExp_new Literal.engine pattern (utf16 "g") = Return rx ->
             ignoreCase Literal.engine rx = false
             /\ global Literal.engine rx = true
             /\ scanned Literal.engine rx sampleText 0
                        (match_ranges Literal.engine rx sampleText)).
Proof.
  split; [reflexivity|]. split; [reflexivity|].
  destruct (@analyzeText_matched_rules
              Literal.engine sampleText sampleRules true eq_refl eq_refl)
    as [r [Hr [Hemits Hscan]]].
  exists r. split; [exact Hr|]. split; [exact Hemits|].
  intros pattern rx Hrx.
  destruct (Hscan pattern rx Hrx) as [Hi [Hg [Hs _]]].
  split; [exact Hi|]. split; [exact Hg | exact Hs].
Defined.

(** ** The detailed analysis *)

Lemma Number_ltb_lt (a b : Q) : Number.ltb a b = true <-> (a < b)%Q.
Proof.
  unfold Number.ltb. rewrite negb_true_iff. split.
  - intros H. apply Qnot_le_lt. intros Hle.
    apply Qle_bool_iff in Hle. congruence.
  - intros Hlt. destruct (Qle_bool b a) eqn:Hle; [|reflexivity].
    apply Qle_bool_iff in Hle. exfalso. now apply (Qlt_not_le a b).
Qed.

Lemma lengthAdvice_not_baseline (n : Z) : lengthAdvice n <> baselineAdvice.
Proof. unfold lengthAdvice. discriminate. Qed.

Lemma lengthAdvice_not_complexity (n : Z) :
  lengthAdvice n <> complexityAdvice.
Proof. unfold lengthAdvice. discriminate. Qed.

Lemma complexity_not_baseline : complexityAdvice <> baselineAdvice.
Proof. discriminate. Qed.

(** The improvements of an analysis that passed the guard. *)
Lemma analysis_lengthAdvice (E : RegExpEngine) (text : str)
      (mediaRules : Rules.t) (detailedAnalysis : bool) (n : Z) :
  In (lengthAdvice n)
     (Result.improvements (analysis E text mediaRules detailedAnalysis))
  <-> detailedAnalysis = true
      /\ (50 < averageSentenceLength text)%Q
      /\ lengthAdvice n
         = lengthAdvice (Number.round (averageSentenceLength text)).
Proof.
  unfold analysis. cbn [Result.improvements]. rewrite in_app_iff.
  rewrite <- Number_ltb_lt. fold (Number.gtb (averageSentenceLength text) 50).
  pose proof (lengthAdvice_not_baseline n) as Hb.
  pose proof (lengthAdvice_not_complexity n) as Hc.
  unfold detailAdvice.
  destruct (_ <? 70)%Z; destruct detailedAnalysis;
    destruct (Number.gtb (averageSentenceLength text) 50);
    destruct (Number.ltb (readabilityScore text) 60);
    simpl; intuition congruence.
Qed.

Lemma analysis_complexityAdvice (E : RegExpEngine) (text : str)
      (mediaRules : Rules.t) (detailedAnalysis : bool) :
  In complexityAdvice
     (Result.improvements (analysis E text mediaRules detailedAnalysis))
  <-> detailedAnalysis = true /\ (readabilityScore text < 60)%Q.
Proof.
  unfold analysis. cbn [Result.improvements]. rewrite in_app_iff.
  rewrite <- Number_ltb_lt.
  pose proof (lengthAdvice_not_complexity
                (Number.round (averageSentenceLength text))) as Hc.
  pose proof complexity_not_baseline as Hb.
  unfold detailAdvice.
  destruct (_ <? 70)%Z; destruct detailedAnalysis;
    destruct (Number.gtb (averageSentenceLength text) 50);
    destruct (Number.ltb (readabilityScore text) 60);
    simpl; intuition congruence.
Qed.

(** C6 as stated fails on a text that is not empty but has white space
    only: 51 spaces are one segment of 51 code units, an average above
    50, and the guard returns the empty result without any advice. *)
Lemma length_advice_counterexample :
  spaces51 <> []
  /\ (50 < averageSentenceLength spaces51)%Q
  /\ exists r,
      analyzeText Literal.engine spaces51 Rules.empty true = Return r
      /\ Result.improvements r = []
      /\ ~ lengthAdvised spaces51 r.
Proof.
  split; [discriminate|]. split; [reflexivity|].
  eexists. split; [reflexivity|]. split; [reflexivity|].
  intros [_ H]. apply H. reflexivity.
Qed.

Example long_sentence_advised :
  option_map Result.improvements
    (match analyzeText Literal.engine (repeat 97%N 101 ++ utf16 ".")
             Rules.empty true with
     | Return r => Some r
     | Throw _ => None
     end) = Some [utf16 "文が平均51文字と長めです。短く区切ることを検討してください。"].
Proof. reflexivity. Qed.

Lemma sentencesOf_length (text : str) (sentences : list str) :
  sentencesOf text sentences ->
  length sentences = length (filter isTerminator text) + 1.
Proof.
  assert (Hnone : forall sentence,
             Forall (fun c => isTerminator c = false) sentence ->
             filter isTerminator sentence = []).
  { intros sentence H. apply filter_none. intros c Hc.
    exact (proj1 (Forall_forall _ _) H c Hc). }
  induction 1 as [sentence Hs|sentence terminator rest sentences Hs Ht _ IH].
  - now rewrite (Hnone sentence Hs).
  - rewrite filter_app, (Hnone sentence Hs). simpl. rewrite Ht. simpl.
    now rewrite IH.
Qed.

Lemma average_nonnegative (text : str) : (0 <= averageSentenceLength text)%Q.
Proof.
  unfold averageSentenceLength, Number.of_nat, Qdiv.
  apply Qmult_le_0_compat.
  - change 0%Q with (inject_Z 0). rewrite <- Zle_Qle. lia.
  - apply Qinv_le_0_compat.
    change 0%Q with (inject_Z 0). rewrite <- Zle_Qle. lia.
Qed.

(** [Math.round] gives the integer [n] with [n <= q + 1/2 < n + 1], and
    [String] its decimal digits. *)
Lemma round_nearest (q : Q) :
  (0 <= q)%Q ->
  exists rounded : nat,
    Number.round q = Z.of_nat rounded
    /\ (inject_Z (Z.of_nat rounded) <= q + (1 # 2))%Q
    /\ (q + (1 # 2) < inject_Z (Z.of_nat rounded) + 1)%Q
    /\ Number.toString (Number.round q)
       = utf16 (NilZero.string_of_uint (Nat.to_uint rounded)).
Proof.
  intros Hq. unfold Number.round.
  assert (H0 : (0 <= Qfloor (q + (1 # 2)))%Z).
  { change 0%Z with (Qfloor 0). apply Qfloor_resp_le.
    apply Qle_trans with q; [exact Hq|].
    rewrite <- (Qplus_0_r q) at 1. apply Qplus_le_r. discriminate. }
  exists (Z.to_nat (Qfloor (q + (1 # 2)))).
  rewrite Z2Nat.id by exact H0.
  split; [reflexivity|]. split; [apply Qfloor_le|]. split.
  - rewrite <- (inject_Z_plus _ 1). apply Qlt_floor.
  - unfold Number.toString, Str.of_nat.
    destruct (Qfloor (q + (1 # 2))); [reflexivity | reflexivity | lia].
Qed.

(** C6, amended. For a text that is neither empty nor white space
    only: without [detailedAnalysis], [improvements] has no advice on
    length and none on complexity, whatever the thresholds: it holds
    the advice on vague wording at most.  With it, the advice naming
    the rounded average is in [improvements] if and only if the length
    of the text divided by the number of its sentences, the empty ones
    counted (one more than its terminators), exceeds 50.  That advice
    is the sentence of the source around the decimal digits of the
    integer [n] with [n <= average + 1/2 < n + 1], and [improvements]
    has no advice on length with other digits. *)
Theorem analyzeText_length_advice (E : RegExpEngine) (text : str)
        (mediaRules : Rules.t) (detailedAnalysis : bool) :
  isBlank text = false ->
  wellFormed E mediaRules = true ->
  exists r,
    analyzeText E text mediaRules detailedAnalysis = Return r
    /\ (detailedAnalysis = false ->
        (forall n, ~ In (lengthAdvice n) (Result.improvements r))
        /\ ~ In complexityAdvice (Result.improvements r)
        /\ (forall advice,
               In advice (Result.improvements r) ->
               advice
               = utf16 "曖昧な表現や重複を避け、より具体的で多様な表現を心がけましょう。")
        /\ (forall digits,
               ~ In (utf16 "文が平均" ++ digits
                     ++ utf16 "文字と長めです。短く区切ることを検討してください。")
                    (Result.improvements r))
        /\ ~ In (utf16 "文章が複雑すぎる可能性があります。短い文に分けることを検討してください。")
                (Result.improvements r))
    /\ (detailedAnalysis = true ->
        lengthAdvised text r
        /\ (forall n,
               In (lengthAdvice n) (Result.improvements r) ->
               lengthAdvice n
               = lengthAdvice
                   (Number.round
                      (inject_Z (Z.of_nat (length text))
                       / inject_Z (Z.of_nat
                                     (length (split isTerminator text))))))
        /\ (forall sentences,
               sentencesOf text sentences ->
               length sentences = length (filter isTerminator text) + 1)
        /\ let average :=
             (inject_Z (Z.of_nat (length text))
              / inject_Z (Z.of_nat (length (filter isTerminator text) + 1)))%Q
           in
           exists rounded : nat,
             (inject_Z (Z.of_nat rounded) <= average + (1 # 2))%Q
             /\ (average + (1 # 2) < inject_Z (Z.of_nat rounded) + 1)%Q
             /\ (In (utf16 "文が平均"
                     ++ utf16 (NilZero.string_of_uint (Nat.to_uint rounded))
                     ++ utf16 "文字と長めです。短く区切ることを検討してください。")
                    (Result.improvements r)
                 <-> (50 < average)%Q)
             /\ (forall digits,
                    In (utf16 "文が平均" ++ digits
                        ++ utf16 "文字と長めです。短く区切ることを検討してください。")
                       (Result.improvements r) ->
                    digits
                    = utf16 (NilZero.string_of_uint (Nat.to_uint rounded)))).
Proof.
  intros Hb Hwf. eexists. split; [now apply analyzeText_nonblank|].
  assert (Hbase : forall digits,
             utf16 "文が平均" ++ digits
             ++ utf16 "文字と長めです。短く区切ることを検討してください。"
             <> baselineAdvice) by (intros digits; discriminate).
  assert (Hcomplex : forall digits,
             utf16 "文が平均" ++ digits
             ++ utf16 "文字と長めです。短く区切ることを検討してください。"
             <> complexityAdvice) by (intros digits; discriminate).
  split.
  - intros ->. split.
    { intros n Hin. apply analysis_lengthAdvice in Hin.
      destruct Hin as [Hd _]. discriminate. }
    split.
    { intros Hin. apply analysis_complexityAdvice in Hin.
      destruct Hin as [Hd _]. discriminate. }
    unfold analysis. cbn [Result.improvements]. rewrite app_nil_r.
    destruct (_ <? 70)%Z.
    + split; [intros advice [<-|[]]; reflexivity|].
      split; [intros digits [Hin|[]]; symmetry in Hin; now apply Hbase in Hin|].
      intros [Hin|[]]. discriminate.
    + split; [intros advice []|]. split; [intros digits []|intros []].
  - intros ->. split.
    { unfold lengthAdvised. rewrite analysis_lengthAdvice. tauto. }
    split.
    { intros n Hin. apply analysis_lengthAdvice in Hin. tauto. }
    split; [apply sentencesOf_length|].
    rewrite <- (split_length isTerminator text).
    change (inject_Z (Z.of_nat (length text))
            / inject_Z (Z.of_nat (length (split isTerminator text))))%Q
      with (averageSentenceLength text).
    cbv zeta.
    destruct (round_nearest (averageSentenceLength text)
                            (average_nonnegative text))
      as [rounded [Hround [Hlow [Hhigh Hdigits]]]].
    exists rounded. split; [exact Hlow|]. split; [exact Hhigh|].
    unfold analysis. cbn [Result.improvements]. unfold detailAdvice.
    unfold lengthAdvice. rewrite Hdigits.
    rewrite <- Number_ltb_lt.
    fold (Number.gtb (averageSentenceLength text) 50).
    change lengthAdvicePrefix with (utf16 "文が平均").
    change lengthAdviceSuffix
      with (utf16 "文字と長めです。短く区切ることを検討してください。").
    assert (Hinj : forall digits digits',
               utf16 "文が平均" ++ digits
               ++ utf16 "文字と長めです。短く区切ることを検討してください。"
               = utf16 "文が平均" ++ digits'
                 ++ utf16 "文字と長めです。短く区切ることを検討してください。" ->
               digits = digits').
    { intros digits digits' H. apply app_inv_head in H.
      now apply app_inv_tail in H. }
    split.
    + rewrite !in_app_iff.
      destruct (_ <? 70)%Z;
        destruct (Number.gtb (averageSentenceLength text) 50);
        destruct (Number.ltb (readabilityScore text) 60);
        simpl; split; intros H; try reflexivity; try discriminate;
        try (right; left; left; reflexivity);
        try (right; left; reflexivity);
        try (left; left; reflexivity);
        try (left; reflexivity);
        exfalso;
        repeat match goal with
               | H : _ \/ _ |- _ => destruct H as [H|H]
               | H : False |- _ => destruct H
               | H : baselineAdvice = _ |- _ =>
                 symmetry in H; apply Hbase in H; destruct H
               | H : complexityAdvice = _ |- _ =>
                 symmetry in H; apply Hcomplex in H; destruct H
               end.
    + intros digits. rewrite !in_app_iff.
      destruct (_ <? 70)%Z;
        destruct (Number.gtb (averageSentenceLength text) 50);
        destruct (Number.ltb (readabilityScore text) 60);
        simpl; intros H;
        repeat match goal with
               | H : _ \/ _ |- _ => destruct H as [H|H]
               | H : False |- _ => destruct H
               | H : baselineAdvice = _ |- _ =>
                 symmetry in H; apply Hbase in H; destruct H
               | H : complexityAdvice = _ |- _ =>
                 symmetry in H; apply Hcomplex in H; destruct H
               end;
        symmetry; now apply Hinj.
Qed.

Lemma analyzeText_length_advice_witness :
  isBlank longText = false
  /\ wellFormed Literal.engine sampleRules = true
  /\ exists r,
      analyzeText Literal.engine longText sampleRules true = Return r
      /\ In (utf16 "文が平均51文字と長めです。短く区切ることを検討してください。")
            (Result.improvements r).
Proof.
  split; [reflexivity|]. split; [reflexivity|].
  destruct (@analyzeText_length_advice
              Literal.engine longText sampleRules true eq_refl eq_refl)
    as [r [Hr [_ Hdetailed]]].
  exists r. split; [exact Hr|].
  destruct (Hdetailed eq_refl) as [_ [_ [_ Hadvice]]].
  cbv zeta in Hadvice.
  destruct Hadvice as [rounded [Hlow [Hhigh [Hiff _]]]].
  assert (Haverage :
            (inject_Z (Z.of_nat (length longText))
             / inject_Z (Z.of_nat (length (filter isTerminator longText) + 1))
             == 51)%Q) by (vm_compute; reflexivity).
  assert (Hrounded : rounded = 51).
  { rewrite Haverage in Hlow, Hhigh.
    unfold Qle in Hlow. unfold Qlt in Hhigh.
    simpl in Hlow, Hhigh. lia. }
  subst rounded.
  assert (Hadvice :
            utf16 "文が平均51文字と長めです。短く区切ることを検討してください。"
            = utf16 "文が平均"
              ++ utf16 (NilZero.string_of_uint (Nat.to_uint 51))
              ++ utf16 "文字と長めです。短く区切ることを検討してください。")
    by (vm_compute; reflexivity).
  rewrite Hadvice. apply (proj2 Hiff). rewrite Haverage.
  vm_compute. reflexivity.
Defined.

(** ** Readability *)






Example dense_text_advised :
  option_map Result.improvements
    (match analyzeText Literal.engine denseText Rules.empty true with
     | Return r => Some r
     | Throw _ => None
     end)
  = Some [utf16 "文が平均401文字と長めです。短く区切ることを検討してください。";
          utf16 "文章が複雑すぎる可能性があります。短い文に分けることを検討してください。"].
Proof. reflexivity. Qed.

(* ================================================================== *)
(** * Further properties of the analyzer *)

Lemma analysis_baselineAdvice (E : RegExpEngine) (text : str)
      (mediaRules : Rules.t) (detailedAnalysis : bool) :
  In baselineAdvice
     (Result.improvements (analysis E text mediaRules detailedAnalysis))
  <-> (Result.mediaScore (analysis E text mediaRules detailedAnalysis)
       < 70)%Z.
Proof.
  unfold analysis. cbn [Result.improvements Result.mediaScore].
  rewrite in_app_iff.
  pose proof (lengthAdvice_not_baseline
                (Number.round (averageSentenceLength text))) as Hl.
  pose proof complexity_not_baseline as Hc.
  unfold detailAdvice.
  destruct (Z.ltb_spec (score (length (phraseIssues E text
                                         (Rules.ambiguousPhrases mediaRules))
                               + length (endings text)
                               + length (mediaIssues E text
                                           (Rules.mediaSpecificRules
                                              mediaRules)))) 70);
    destruct detailedAnalysis;
    destruct (Number.gtb (averageSentenceLength text) 50);
    destruct (Number.ltb (readabilityScore text) 60);
    simpl; intuition (try congruence; try lia).
Qed.

(** X1. The advice on vague and repeated wording is the first of
    [improvements] exactly when the text passes the guard and has 7
    issues or more, that is when the score is below 70; a blank text
    has score 0 and no advice. *)
Theorem analyzeText_baseline_advice (E : RegExpEngine) (text : str)
        (mediaRules : Rules.t) (detailedAnalysis : bool) :
  wellFormed E mediaRules = true ->
  exists r,
    analyzeText E text mediaRules detailedAnalysis = Return r
    /\ (In baselineAdvice (Result.improvements r)
        <-> isBlank text = false /\ 7 <= totalIssues r)
    /\ (In baselineAdvice (Result.improvements r)
        <-> isBlank text = false /\ (Result.mediaScore r < 70)%Z)
    /\ (In baselineAdvice (Result.improvements r) ->
        exists rest, Result.improvements r = baselineAdvice :: rest).
Proof.
  intros Hwf. destruct (isBlank text) eqn:Hb.
  - exists Result.initial. unfold analyzeText.
    rewrite analyze_blank by exact Hb. split; [reflexivity|].
    simpl. intuition discriminate.
  - eexists. split; [now apply analyzeText_nonblank|].
    rewrite analysis_baselineAdvice.
    unfold totalIssues, analysis.
    cbn [Result.mediaScore Result.ambiguousPhrases Result.repetitiveEndings
         Result.mediaSpecificIssues Result.improvements].
    set (n := _ + _ + _). unfold score.
    split; [|split].
    + split; [intros H; split; [reflexivity | lia] | intros [_ H]; lia].
    + tauto.
    + intros H. destruct (Z.ltb_spec (Z.max 0 (100 - Z.of_nat n * 5)) 70);
        [|lia]. eexists. reflexivity.
Qed.

Lemma analyzeText_baseline_advice_witness :
  wellFormed Literal.engine
    (lettersRules (repeat (letterRule "a") 7)) = true
  /\ exists r,
      analyzeText Literal.engine (utf16 "abc")
        (lettersRules (repeat (letterRule "a") 7)) false = Return r
      /\ (In baselineAdvice (Result.improvements r)
          <-> isBlank (utf16 "abc") = false /\ 7 <= totalIssues r)
      /\ (In baselineAdvice (Result.improvements r)
          <-> isBlank (utf16 "abc") = false /\ (Result.mediaScore r < 70)%Z)
      /\ (In baselineAdvice (Result.improvements r) ->
          exists rest, Result.improvements r = baselineAdvice :: rest).
Proof.
  split; [reflexivity|].
  apply (@analyzeText_baseline_advice Literal.engine (utf16 "abc")
           (lettersRules (repeat (letterRule "a") 7)) false).
  reflexivity.
Defined.

(** The detailed analysis is a last step on the result of the plain
    one. *)
Lemma analyze_detailed (E : RegExpEngine) (text : str)
      (mediaRules : Rules.t) :
  analyze E text mediaRules true
  = (r <- analyze E text mediaRules false ;;
     Return (if isBlank text then r
             else detailed text (split isTerminator text) r)).
Proof.
  unfold analyze. rewrite guard_blank.
  destruct (isBlank text); [reflexivity|].
  destruct (forEach (Rules.ambiguousPhrases mediaRules) (checkPhrase E text)
                    Result.initial) as [r1|m]; [|reflexivity].
  cbn [bind].
  match goal with |- context [forEach _ (checkMediaRule E text) ?r'] =>
    destruct (forEach (Rules.mediaSpecificRules mediaRules)
                      (checkMediaRule E text) r') as [r2|m] end;
    reflexivity.
Qed.

(** X2. The flag [detailedAnalysis] changes nothing but [improvements]:
    with and without it the analysis fails with the same error or
    returns the same score and the same three lists of issues, and the
    detailed analysis only appends to [improvements], at most two
    entries. *)
Theorem analyzeText_detailed_frame (E : RegExpEngine) (text : str)
        (mediaRules : Rules.t) :
  match analyzeText E text mediaRules false,
        analyzeText E text mediaRules true with
  | Return r0, Return r1 =>
    Result.mediaScore r1 = Result.mediaScore r0
    /\ Result.ambiguousPhrases r1 = Result.ambiguousPhrases r0
    /\ Result.repetitiveEndings r1 = Result.repetitiveEndings r0
    /\ Result.mediaSpecificIssues r1 = Result.mediaSpecificIssues r0
    /\ exists added,
        Result.improvements r1 = Result.improvements r0 ++ added
        /\ length added <= 2
  | Throw m0, Throw m1 => m0 = m1
  | _, _ => False
  end.
Proof.
  unfold analyzeText. rewrite analyze_detailed.
  destruct (analyze E text mediaRules false) as [r|m]; cbn [bind try_catch];
    [|reflexivity].
  destruct (isBlank text).
  - repeat split. exists [].
    split; [now rewrite app_nil_r | simpl; lia].
  - rewrite detailed_improvements. cbn. repeat split.
    exists (detailAdvice text). split; [reflexivity|].
    unfold detailAdvice.
    destruct (Number.gtb _ _); destruct (Number.ltb _ _); simpl; lia.
Qed.

(** ** The shape of the repeated endings *)

Lemma filter_length_bound {A : Type} (f : A -> bool) (l : list A) :
  length (filter f l) <= length l.
Proof.
  induction l as [|a l IH]; simpl; [lia|]. destruct (f a); simpl; lia.
Qed.

Lemma split_no_separator (p : unit16 -> bool) (s : str) : forall piece c,
    In piece (split p s) -> In c piece -> p c = false.
Proof.
  induction s as [|a s IH]; intros piece c; simpl.
  - intros [<-|[]] [].
  - destruct (p a) eqn:Ha; simpl.
    + intros [<-|Hin] Hc; [destruct Hc | eauto].
    + destruct (split p s) as [|h t] eqn:Hs; simpl.
      * intros [<-|[]] [<-|[]]. exact Ha.
      * intros [<-|Hin] Hc.
        -- destruct Hc as [<-|Hc]; [exact Ha|].
           apply (IH h); [now left | exact Hc].
        -- apply (IH piece); [now right | exact Hc].
Qed.

Lemma dropWhile_In (p : unit16 -> bool) (s : str) (c : unit16) :
  In c (dropWhile p s) -> In c s.
Proof.
  induction s as [|a s IH]; simpl; [tauto|].
  destruct (p a); simpl; tauto.
Qed.

Lemma trim_In (s : str) (c : unit16) : In c (trim s) -> In c s.
Proof.
  unfold trim. intros H. apply in_rev in H. apply dropWhile_In in H.
  apply in_rev in H. now apply dropWhile_In in H.
Qed.

(** A trimmed string that is not empty ends in a code unit that is not
    white space. *)
Lemma trim_last (s : str) :
  trim s <> [] ->
  exists front c, trim s = front ++ [c] /\ isWhiteSpace c = false.
Proof.
  unfold trim.
  pose proof (dropWhile_head isWhiteSpace
                (rev (dropWhile isWhiteSpace s))) as Hh.
  destruct (dropWhile isWhiteSpace (rev (dropWhile isWhiteSpace s)))
    as [|c d]; simpl; [congruence|].
  intros _. now exists (rev d), c.
Qed.

Lemma slice_last_In (n : nat) (s : str) (c : unit16) :
  In c (slice_last n s) -> In c s.
Proof.
  unfold slice_last. intros H.
  rewrite <- (firstn_skipn (length s - n) s). apply in_or_app. now right.
Qed.

Lemma slice_last_length (n : nat) (s : str) :
  length (slice_last n s) = Nat.min n (length s).
Proof. unfold slice_last. rewrite length_skipn. lia. Qed.

Lemma slice_last_snoc (n : nat) (front : str) (c : unit16) :
  1 <= n ->
  exists front', slice_last n (front ++ [c]) = front' ++ [c].
Proof.
  intros Hn. unfold slice_last. rewrite length_app. simpl.
  rewrite skipn_app.
  replace (length front + 1 - n - length front) with 0 by lia.
  simpl. now exists (skipn (length front + 1 - n) front).
Qed.

Lemma endingKeys_shape (text : str) (key : str) :
  In key (endingKeys text) -> endingShape key.
Proof.
  unfold endingKeys. intros H. apply in_map_iff in H.
  destruct H as [t [<- Ht]]. apply filter_In in Ht.
  destruct Ht as [Ht Hne]. apply in_map_iff in Ht.
  destruct Ht as [piece [<- Hp]].
  assert (Hnil : trim piece <> []).
  { intros Hnil. rewrite Hnil in Hne. discriminate. }
  destruct (trim_last piece Hnil) as [front [c [Hf Hc]]].
  repeat split.
  - rewrite slice_last_length, Hf, length_app. cbn [length]. lia.
  - rewrite slice_last_length. lia.
  - intros x Hx. apply slice_last_In, trim_In in Hx.
    eapply split_no_separator; eassumption.
  - rewrite Hf. destruct (slice_last_snoc 5 front c) as [front' Hs]; [lia|].
    now exists front', c.
Qed.

Lemma endings_In (text : str) (e : Ending.t) :
  In e (endings text) ->
  In (Ending.pattern e) (endingKeys text)
  /\ Ending.count e = tally (endingKeys text) (Ending.pattern e)
  /\ 3 <= Ending.count e.
Proof.
  rewrite endings_tally, in_map_iff. intros [[k n] [<- Hin]].
  apply filter_In in Hin. destruct Hin as [Hin H3].
  apply (proj1 (entries_In _ _)) in Hin.
  apply in_map_iff in Hin. destruct Hin as [k' [[= <- <-] Hk]].
  simpl in *. apply Nat.leb_le in H3.
  split; [now apply firstOccurrences_In | tauto].
Qed.

(** X3. Every pattern of [repetitiveEndings] has one to five code
    units, none of them a sentence terminator, and does not end in
    white space. *)
Theorem analyzeText_endings_shape (E : RegExpEngine) (text : str)
        (mediaRules : Rules.t) (detailedAnalysis : bool) :
  wellFormed E mediaRules = true ->
  exists r,
    analyzeText E text mediaRules detailedAnalysis = Return r
    /\ Forall (fun e => endingShape (Ending.pattern e))
              (Result.repetitiveEndings r).
Proof.
  intros Hwf.
  destruct (analyzeText_endings E text mediaRules detailedAnalysis Hwf)
    as [r [Hr He]].
  exists r. split; [exact Hr|]. rewrite He. apply Forall_forall.
  intros e Hin. apply endings_In in Hin.
  apply (endingKeys_shape text). tauto.
Qed.

Lemma analyzeText_endings_shape_witness :
  wellFormed Literal.engine sampleRules = true
  /\ exists r,
      analyzeText Literal.engine thriceText sampleRules false = Return r
      /\ Forall (fun e => endingShape (Ending.pattern e))
                (Result.repetitiveEndings r).
Proof.
  split; [reflexivity|].
  apply (@analyzeText_endings_shape
           Literal.engine thriceText sampleRules false).
  reflexivity.
Defined.

(** ** How many endings can repeat *)

Lemma tally_cons (a : str) (keys : list str) (k : str) :
  tally (a :: keys) k = tally keys k + (if Str.eqb a k then 1 else 0).
Proof.
  unfold tally. simpl. destruct (str_dec a k) as [->|Hne].
  - rewrite str_eqb_refl. lia.
  - replace (Str.eqb a k) with false; [lia|].
    symmetry. now apply str_eqb_neq.
Qed.

Lemma tally_sum_cons (a : str) (keys : list str) (S : list str) :
  NoDup S ->
  list_sum (map (tally (a :: keys)) S) <= list_sum (map (tally keys) S) + 1.
Proof.
  induction 1 as [|k S Hk Hnd IH]; cbn [map list_sum fold_right]; [lia|].
  fold (list_sum (map (tally (a :: keys)) S)).
  fold (list_sum (map (tally keys) S)).
  rewrite tally_cons. destruct (str_dec a k) as [->|Hne].
  - rewrite str_eqb_refl.
    replace (map (tally (k :: keys)) S) with (map (tally keys) S); [lia|].
    apply map_ext_in. intros x Hx. rewrite tally_cons.
    replace (Str.eqb k x) with false; [lia|].
    symmetry. apply str_eqb_neq. congruence.
  - replace (Str.eqb a k) with false
      by (symmetry; now apply str_eqb_neq).
    lia.
Qed.

(** Distinct keys cannot occur more often, taken together, than there
    are keys. *)
Lemma tally_sum (keys : list str) (S : list str) :
  NoDup S -> list_sum (map (tally keys) S) <= length keys.
Proof.
  intros Hnd. induction keys as [|a keys IH].
  - induction S as [|k S IHS]; simpl; [lia|].
    inversion Hnd; subst. auto.
  - pose proof (tally_sum_cons a keys S Hnd). simpl length. lia.
Qed.

Lemma endings_NoDup (text : str) :
  NoDup (map Ending.pattern (endings text)).
Proof.
  rewrite endings_tally, map_pattern_mkEnding.
  apply NoDup_map_fst_filter.
  eapply Permutation_NoDup.
  - symmetry. apply Permutation_map. apply entries_perm.
  - rewrite map_fst_tally. apply firstOccurrences_NoDup.
Qed.

Lemma list_sum_at_least (n : nat) (l : list nat) :
  Forall (fun x => n <= x) l -> n * length l <= list_sum l.
Proof.
  induction 1 as [|x l Hx Hall IH]; simpl; lia.
Qed.

Lemma endingKeys_length (text : str) :
  length (endingKeys text) <= length (split isTerminator text).
Proof.
  unfold endingKeys. rewrite length_map.
  etransitivity; [apply filter_length_bound|]. now rewrite length_map.
Qed.

(** X4. The counts of [repetitiveEndings] add up to no more than the
    number of sentences that are not empty once trimmed, which is at
    most the number of segments, one more than the terminators of the
    text; so three times the number of entries is within that bound
    as well. *)
Theorem analyzeText_endings_counts (E : RegExpEngine) (text : str)
        (mediaRules : Rules.t) (detailedAnalysis : bool) :
  wellFormed E mediaRules = true ->
  exists r,
    analyzeText E text mediaRules detailedAnalysis = Return r
    /\ list_sum (map Ending.count (Result.repetitiveEndings r))
       <= length (endingKeys text)
    /\ length (endingKeys text)
       <= length (filter isTerminator text) + 1
    /\ 3 * length (Result.repetitiveEndings r)
       <= length (filter isTerminator text) + 1.
Proof.
  intros Hwf.
  destruct (analyzeText_endings E text mediaRules detailedAnalysis Hwf)
    as [r [Hr He]].
  exists r. split; [exact Hr|]. rewrite He.
  assert (Hsum : list_sum (map Ending.count (endings text))
                 <= length (endingKeys text)).
  { replace (map Ending.count (endings text))
      with (map (tally (endingKeys text))
                (map Ending.pattern (endings text))).
    - apply tally_sum, endings_NoDup.
    - rewrite map_map. apply map_ext_in. intros e Hin.
      apply endings_In in Hin. symmetry. tauto. }
  assert (Hlen : length (endingKeys text)
                 <= length (filter isTerminator text) + 1).
  { rewrite <- split_length. apply endingKeys_length. }
  split; [exact Hsum|]. split; [exact Hlen|].
  assert (H3 : 3 * length (map Ending.count (endings text))
               <= list_sum (map Ending.count (endings text))).
  { apply list_sum_at_least. apply Forall_forall. intros n Hn.
    apply in_map_iff in Hn. destruct Hn as [e [<- Hin]].
    apply endings_In in Hin. tauto. }
  rewrite length_map in H3. lia.
Qed.

Lemma analyzeText_endings_counts_witness :
  wellFormed Literal.engine sampleRules = true
  /\ exists r,
      analyzeText Literal.engine thriceText sampleRules false = Return r
      /\ list_sum (map Ending.count (Result.repetitiveEndings r))
         <= length (endingKeys thriceText)
      /\ length (endingKeys thriceText)
         <= length (filter isTerminator thriceText) + 1
      /\ 3 * length (Result.repetitiveEndings r)
         <= length (filter isTerminator thriceText) + 1.
Proof.
  split; [reflexivity|].
  apply (@analyzeText_endings_counts
           Literal.engine thriceText sampleRules false).
  reflexivity.
Defined.

(** ** Adding rules *)

Lemma wellFormed_addRules (E : RegExpEngine) (rules : Rules.t)
      (phrases : list PhraseRule.t) (media : list MediaRule.t) :
  wellFormed E (addRules rules phrases media) = true ->
  wellFormed E rules = true.
Proof.
  intros H. apply wellFormed_split in H. destruct H as [Hp Hm].
  simpl in Hp, Hm. rewrite forallb_app in Hp, Hm.
  apply andb_prop in Hp. apply andb_prop in Hm.
  apply wellFormed_join; tauto.
Qed.

(** X5. More rules never raise the score, and each added rule lowers
    it by 5 at most: the entries of the added rules come after the
    entries there were, and the repeated endings stay as they are. *)
Theorem analyzeText_more_rules (E : RegExpEngine) (text : str)
        (rules : Rules.t) (phrases : list PhraseRule.t)
        (media : list MediaRule.t) (detailedAnalysis : bool) :
  isBlank text = false ->
  wellFormed E (addRules rules phrases media) = true ->
  exists r1 r2,
    analyzeText E text rules detailedAnalysis = Return r1
    /\ analyzeText E text (addRules rules phrases media) detailedAnalysis
       = Return r2
    /\ (Result.mediaScore r2 <= Result.mediaScore r1)%Z
    /\ (Result.mediaScore r1
        - 5 * Z.of_nat (length phrases + length media)
        <= Result.mediaScore r2)%Z
    /\ Result.repetitiveEndings r2 = Result.repetitiveEndings r1
    /\ (exists added,
           Result.ambiguousPhrases r2 = Result.ambiguousPhrases r1 ++ added
           /\ length added <= length phrases)
    /\ (exists added,
           Result.mediaSpecificIssues r2
           = Result.mediaSpecificIssues r1 ++ added
           /\ length added <= length media).
Proof.
  intros Hb Hwf2. pose proof (wellFormed_addRules _ _ _ _ Hwf2) as Hwf1.
  do 2 eexists.
  split; [now apply analyzeText_nonblank|].
  split; [now apply analyzeText_nonblank|].
  unfold analysis.
  cbn [Result.mediaScore Result.ambiguousPhrases Result.repetitiveEndings
       Result.mediaSpecificIssues addRules Rules.ambiguousPhrases
       Rules.mediaSpecificRules].
  unfold phraseIssues, mediaIssues. rewrite !filter_app, !map_app.
  rewrite !length_app, !length_map.
  set (p1 := length (filter _ (Rules.ambiguousPhrases rules))).
  set (m1 := length (filter _ (Rules.mediaSpecificRules rules))).
  pose proof (filter_length_bound
                (fun phrase =>
                   0 <? matchCount E text (PhraseRule.text phrase)) phrases)
    as Hp.
  pose proof (filter_length_bound
                (fun rule =>
                   0 <? matchCount E text (MediaRule.pattern rule)) media)
    as Hm.
  unfold score. repeat split; try lia.
  - eexists. split; [reflexivity|]. now rewrite length_map.
  - eexists. split; [reflexivity|]. now rewrite length_map.
Qed.

Lemma analyzeText_more_rules_witness :
  isBlank sampleText = false
  /\ wellFormed Literal.engine
       (addRules sampleRules [letterRule "a"]
                 (Rules.mediaSpecificRules wideSpaceRules)) = true
  /\ exists r1 r2,
      analyzeText Literal.engine sampleText sampleRules true = Return r1
      /\ analyzeText Literal.engine sampleText
           (addRules sampleRules [letterRule "a"]
                     (Rules.mediaSpecificRules wideSpaceRules)) true
         = Return r2
      /\ (Result.mediaScore r2 <= Result.mediaScore r1)%Z
      /\ (Result.mediaScore r1
          - 5 * Z.of_nat (length [letterRule "a"]
                          + length (Rules.mediaSpecificRules wideSpaceRules))
          <= Result.mediaScore r2)%Z
      /\ Result.repetitiveEndings r2 = Result.repetitiveEndings r1
      /\ (exists added,
             Result.ambiguousPhrases r2 = Result.ambiguousPhrases r1 ++ added
             /\ length added <= length [letterRule "a"])
      /\ (exists added,
             Result.mediaSpecificIssues r2
             = Result.mediaSpecificIssues r1 ++ added
             /\ length added
                <= length (Rules.mediaSpecificRules wideSpaceRules)).
Proof.
  split; [reflexivity|]. split; [reflexivity|].
  apply (@analyzeText_more_rules Literal.engine sampleText sampleRules
           [letterRule "a"] (Rules.mediaSpecificRules wideSpaceRules) true);
    reflexivity.
Defined.

(** ** Which pattern fails the analysis *)

Section FirstFailure.

Variable E : RegExpEngine.
Variable text : str.

Lemma compiles_Throw (pattern message : str) :
  RegExp_new E pattern (utf16 "g") = Throw message -> compiles E pattern = false.
Proof. unfold compiles. now intros ->. Qed.

Lemma firstFailure_cons (p : str) (rest : list str) (pattern message : str) :
  compiles E p = true ->
  firstFailure E rest pattern message ->
  firstFailure E (p :: rest) pattern message.
Proof.
  intros Hp [before [after [-> [Hb Hf]]]].
  exists (p :: before), after. simpl. rewrite Hp, Hb. tauto.
Qed.

Lemma firstFailure_app_l (l more : list str) (pattern message : str) :
  firstFailure E l pattern message ->
  firstFailure E (l ++ more) pattern message.
Proof.
  intros [before [after [-> [Hb Hf]]]].
  exists before, (after ++ more). rewrite <- app_assoc. simpl. tauto.
Qed.

Lemma firstFailure_app_r (l more : list str) (pattern message : str) :
  forallb (compiles E) l = true ->
  firstFailure E more pattern message ->
  firstFailure E (l ++ more) pattern message.
Proof.
  induction l as [|p l IH]; simpl; [tauto|].
  intros Hl Hf. apply andb_prop in Hl.
  apply firstFailure_cons; tauto.
Qed.

Lemma firstFailure_unique (l : list str) (p1 m1 p2 m2 : str) :
  firstFailure E l p1 m1 -> firstFailure E l p2 m2 ->
  p1 = p2 /\ m1 = m2.
Proof.
  intros [b1 [a1 [-> [Hb1 Hf1]]]] [b2 [a2 [Heq [Hb2 Hf2]]]].
  revert b2 Heq Hb2. induction b1 as [|x b1 IH]; intros [|y b2]; simpl.
  - intros [= -> _] _. split; congruence.
  - intros [= -> _] Hy. apply andb_prop in Hy.
    apply compiles_Throw in Hf1. destruct Hy. congruence.
  - intros [= <- _] _. simpl in Hb1. apply andb_prop in Hb1.
    apply compiles_Throw in Hf2. destruct Hb1. congruence.
  - intros [= <- Heq] Hy. simpl in Hb1.
    apply andb_prop in Hb1. apply andb_prop in Hy.
    apply (IH (proj2 Hb1) b2 Heq). tauto.
Qed.

Lemma firstFailure_not_wellFormed (rules : Rules.t) (pattern message : str) :
  firstFailure E (patterns rules) pattern message ->
  wellFormed E rules = false.
Proof.
  intros [before [after [Heq [_ Hf]]]]. unfold wellFormed. rewrite Heq.
  rewrite forallb_app. simpl. rewrite (compiles_Throw _ _ Hf).
  now rewrite andb_false_r.
Qed.

(** The loop over the phrases throws the message of the first pattern
    that does not compile. *)
Lemma forEach_checkPhrase_first (rules : list PhraseRule.t) : forall r,
    match forEach rules (checkPhrase E text) r with
    | Return _ =>
      forallb (compiles E) (map PhraseRule.text rules) = true
    | Throw message =>
      exists pattern,
        firstFailure E (map PhraseRule.text rules) pattern message
    end.
Proof.
  induction rules as [|phrase rules IH]; intros r; simpl; [reflexivity|].
  destruct (compiles E (PhraseRule.text phrase)) eqn:Hc.
  - rewrite checkPhrase_compiled by exact Hc. cbn [bind andb].
    match goal with |- context [forEach rules _ ?r'] =>
      specialize (IH r'); destruct (forEach rules _ r') end.
    + exact IH.
    + destruct IH as [p Hp]. exists p. now apply firstFailure_cons.
  - destruct (compiles_false _ _ Hc) as [message Hm].
    unfold checkPhrase at 1. rewrite Hm. cbn [bind].
    exists (PhraseRule.text phrase), [], (map PhraseRule.text rules).
    tauto.
Qed.

Lemma forEach_checkMediaRule_first (rules : list MediaRule.t) : forall r,
    match forEach rules (checkMediaRule E text) r with
    | Return _ =>
      forallb (compiles E) (map MediaRule.pattern rules) = true
    | Throw message =>
      exists pattern,
        firstFailure E (map MediaRule.pattern rules) pattern message
    end.
Proof.
  induction rules as [|rule rules IH]; intros r; simpl; [reflexivity|].
  destruct (compiles E (MediaRule.pattern rule)) eqn:Hc.
  - rewrite checkMediaRule_compiled by exact Hc. cbn [bind andb].
    match goal with |- context [forEach rules _ ?r'] =>
      specialize (IH r'); destruct (forEach rules _ r') end.
    + exact IH.
    + destruct IH as [p Hp]. exists p. now apply firstFailure_cons.
  - destruct (compiles_false _ _ Hc) as [message Hm].
    unfold checkMediaRule at 1. rewrite Hm. cbn [bind].
    exists (MediaRule.pattern rule), [], (map MediaRule.pattern rules).
    tauto.
Qed.

Lemma analyze_Throw_first (rules : Rules.t) (detailedAnalysis : bool)
      (message : str) :
  analyze E text rules detailedAnalysis = Throw message ->
  isBlank text = false
  /\ exists pattern, firstFailure E (patterns rules) pattern message.
Proof.
  unfold analyze. rewrite guard_blank.
  destruct (isBlank text); [discriminate|]. intros H. split; [reflexivity|].
  pose proof (forEach_checkPhrase_first (Rules.ambiguousPhrases rules)
                                        Result.initial) as Hp.
  destruct (forEach (Rules.ambiguousPhrases rules) (checkPhrase E text)
                    Result.initial) as [r1|m1].
  - cbn [bind] in H.
    match type of H with context [forEach _ (checkMediaRule E text) ?r'] =>
      pose proof (forEach_checkMediaRule_first
                    (Rules.mediaSpecificRules rules) r') as Hm;
      destruct (forEach (Rules.mediaSpecificRules rules)
                        (checkMediaRule E text) r') as [r2|m2] end.
    + discriminate.
    + cbn [bind] in H. injection H as <-. destruct Hm as [p Hm].
      exists p. unfold patterns. now apply firstFailure_app_r.
  - cbn [bind] in H. injection H as <-. destruct Hp as [p Hp].
    exists p. unfold patterns. now apply firstFailure_app_l.
Qed.

End FirstFailure.

(** X6. [analyzeText] fails exactly when the text passes the guard and
    some pattern does not compile; the patterns are compiled in the
    order of [ambiguousPhrases], then of [mediaSpecificRules], and the
    error carries, after the fixed prefix, the message of the first one
    that does not compile. *)
Theorem analyzeText_throws_iff (E : RegExpEngine) (text : str)
        (mediaRules : Rules.t) (detailedAnalysis : bool) (error : str) :
  analyzeText E text mediaRules detailedAnalysis = Throw error
  <-> isBlank text = false
      /\ exists pattern message,
          firstFailure E (patterns mediaRules) pattern message
          /\ error = analysisErrorPrefix ++ message.
Proof.
  unfold analyzeText. split.
  - destruct (analyze E text mediaRules detailedAnalysis) as [r|m] eqn:Ha;
      cbn [try_catch]; [discriminate|].
    intros [= <-]. apply analyze_Throw_first in Ha.
    destruct Ha as [Hb [p Hp]]. split; [exact Hb|]. now exists p, m.
  - intros [Hb [p [m [Hf ->]]]].
    pose proof (firstFailure_not_wellFormed E mediaRules p m Hf) as Hwf.
    destruct (analyze_throws E text mediaRules detailedAnalysis Hb Hwf)
      as [p' [m' [_ [_ Ha]]]].
    rewrite Ha. cbn [try_catch]. apply analyze_Throw_first in Ha.
    destruct Ha as [_ [p'' Hf']].
    destruct (firstFailure_unique E _ _ _ _ _ Hf Hf') as [_ <-].
    reflexivity.
Qed.

Example first_failure_reported :
  analyzeText Literal.engine sampleText twoBrokenRules false
  = Throw (analysisErrorPrefix ++ utf16 "Invalid regular expression: /[b/").
Proof. reflexivity. Qed.

(* ================================================================== *)
(** * Properties of [getMediaRules] *)

Lemma fold_classify (docs : list Firestore.doc) : forall rules,
    fold_left classify docs rules
    = {| Rules.ambiguousPhrases :=
           Rules.ambiguousPhrases rules
           ++ map toPhraseRule (filter (hasType "ambiguousPhrase") docs);
         Rules.repetitivePatterns :=
           Rules.repetitivePatterns rules
           ++ map toPatternRule (filter (hasType "repetitivePattern") docs);
         Rules.mediaSpecificRules :=
           Rules.mediaSpecificRules rules
           ++ map toMediaRule (filter (hasType "mediaSpecific") docs) |}.
Proof.
  induction docs as [|d docs IH]; intros rules.
  - simpl. rewrite !app_nil_r. now destruct rules.
  - cbn [fold_left filter]. rewrite IH. unfold classify, hasType.
    destruct (Str.eqb (Firestore.type d) (utf16 "ambiguousPhrase")) eqn:Ha.
    { apply str_eqb_eq in Ha. rewrite Ha. cbn.
      now rewrite <- !app_assoc. }
    destruct (Str.eqb (Firestore.type d) (utf16 "repetitivePattern")) eqn:Hr.
    { apply str_eqb_eq in Hr. rewrite Hr. cbn.
      now rewrite <- !app_assoc. }
    destruct (Str.eqb (Firestore.type d) (utf16 "mediaSpecific")) eqn:Hm.
    { cbn. now rewrite <- !app_assoc. }
    reflexivity.
Qed.

Lemma getMediaRules_available (docs : list Firestore.doc)
      (mediaType : option str) :
  getMediaRules (Firestore.Available docs) mediaType
  = Return
      {| Rules.ambiguousPhrases :=
           map toPhraseRule
               (filter (hasType "ambiguousPhrase") (selected docs mediaType));
         Rules.repetitivePatterns :=
           map toPatternRule
               (filter (hasType "repetitivePattern")
                       (selected docs mediaType));
         Rules.mediaSpecificRules :=
           map toMediaRule
               (filter (hasType "mediaSpecific")
                       (selected docs mediaType)) |}.
Proof.
  unfold getMediaRules. cbn [Firestore.get bind try_catch].
  now rewrite fold_classify.
Qed.

Lemma rulesQuery_specific (mediaType : option str) :
  rulesQuery mediaType
  = match specificMedia mediaType with
    | Some m => [Firestore.isActive_eq true;
                 Firestore.mediaTypes_array_contains m]
    | None => [Firestore.isActive_eq true]
    end.
Proof.
  unfold rulesQuery, specificMedia. destruct mediaType as [m|]; [|reflexivity].
  destruct (truthy (Some m) && negb (Str.eqb m (utf16 "一般")));
    reflexivity.
Qed.

Lemma selected_In (docs : list Firestore.doc) (mediaType : option str)
      (d : Firestore.doc) :
  In d (selected docs mediaType)
  <-> In d docs
      /\ Firestore.isActive d = true
      /\ match specificMedia mediaType with
         | Some m => In m (Firestore.mediaTypes d)
         | None => True
         end.
Proof.
  unfold selected. rewrite filter_In, rulesQuery_specific.
  destruct (specificMedia mediaType) as [m|]; simpl;
    rewrite ?andb_true_r, ?andb_true_iff, ?existsb_exists;
    destruct (Firestore.isActive d); simpl.
  - split.
    + intros [Hd [_ [x [Hx Heq]]]]. apply str_eqb_eq in Heq. subst x. tauto.
    + intros [Hd [_ Hm]]. repeat split; try assumption.
      exists m. split; [exact Hm | apply str_eqb_refl].
  - split; [intros [_ [H _]]; discriminate | intros [_ [H _]]; discriminate].
  - tauto.
  - split; [intros [_ H]; discriminate | intros [_ [H _]]; discriminate].
Qed.

Lemma filter_length_cons {A : Type} (f : A -> bool) (a : A) (l : list A) :
  length (filter f (a :: l)) = (if f a then 1 else 0) + length (filter f l).
Proof. simpl. destruct (f a); reflexivity. Qed.

(** A document has one type. *)
Lemma hasType_exclusive (d : Firestore.doc) :
  (if hasType "ambiguousPhrase" d then 1 else 0)
  + (if hasType "repetitivePattern" d then 1 else 0)
  + (if hasType "mediaSpecific" d then 1 else 0) <= 1.
Proof.
  unfold hasType.
  destruct (Str.eqb (Firestore.type d) (utf16 "ambiguousPhrase")) eqn:Ha.
  { apply str_eqb_eq in Ha. rewrite Ha. vm_compute. lia. }
  destruct (Str.eqb (Firestore.type d) (utf16 "repetitivePattern")) eqn:Hr.
  { apply str_eqb_eq in Hr. rewrite Hr. vm_compute. lia. }
  destruct (Str.eqb (Firestore.type d) (utf16 "mediaSpecific")); lia.
Qed.

(** X7. The three lists [getMediaRules] returns are the documents the
    query selects (the active ones, and of them those whose media types
    contain the one asked for), each in the list its [type] names and
    in the order of the store; a document of another type is in none of
    them, so the lists together are no longer than the store. *)
Theorem getMediaRules_classified (docs : list Firestore.doc)
        (mediaType : option str) :
  exists rules,
    getMediaRules (Firestore.Available docs) mediaType = Return rules
    /\ Rules.ambiguousPhrases rules
       = map toPhraseRule
             (filter (hasType "ambiguousPhrase") (selected docs mediaType))
    /\ Rules.repetitivePatterns rules
       = map toPatternRule
             (filter (hasType "repetitivePattern") (selected docs mediaType))
    /\ Rules.mediaSpecificRules rules
       = map toMediaRule
             (filter (hasType "mediaSpecific") (selected docs mediaType))
    /\ (forall d,
           In d (selected docs mediaType)
           <-> In d docs
               /\ Firestore.isActive d = true
               /\ match specificMedia mediaType with
                  | Some m => In m (Firestore.mediaTypes d)
                  | None => True
                  end)
    /\ length (Rules.ambiguousPhrases rules)
       + length (Rules.repetitivePatterns rules)
       + length (Rules.mediaSpecificRules rules)
       <= length (selected docs mediaType)
    /\ length (selected docs mediaType) <= length docs.
Proof.
  eexists. split; [apply getMediaRules_available|].
  cbn [Rules.ambiguousPhrases Rules.repetitivePatterns
       Rules.mediaSpecificRules].
  do 3 (split; [reflexivity|]).
  split; [intros d; apply selected_In|].
  split; [|apply filter_length_bound].
  rewrite !length_map. generalize (selected docs mediaType) as l.
  induction l as [|d l IH]; [simpl; lia|].
  rewrite !filter_length_cons. pose proof (hasType_exclusive d).
  simpl length. lia.
Qed.

Lemma selected_incl (docs : list Firestore.doc) (mediaType : option str) :
  incl (selected docs mediaType) (selected docs None).
Proof.
  intros d Hd. apply selected_In in Hd. apply selected_In. simpl. tauto.
Qed.

Lemma map_filter_incl {A B : Type} (f : A -> B) (q : A -> bool)
      (l l' : list A) :
  incl l l' -> incl (map f (filter q l)) (map f (filter q l')).
Proof.
  intros Hincl b Hb. apply in_map_iff in Hb. destruct Hb as [a [<- Ha]].
  apply filter_In in Ha. apply in_map, filter_In. split; [|tauto].
  apply Hincl. tauto.
Qed.

(** X8. A missing media type, the empty one and [一般] all ask for the
    same rules, the active ones of every medium; the rules returned
    for any other media type are among those, so asking for a medium
    never adds a rule; and whatever the store, [getMediaRules] for a
    medium returns a rule set. *)
Theorem getMediaRules_general (db : Firestore.db) (mediaType : option str) :
  exists general rules,
    getMediaRules db None = Return general
    /\ getMediaRules db (Some []) = Return general
    /\ getMediaRules db (Some (utf16 "一般")) = Return general
    /\ getMediaRules db mediaType = Return rules
    /\ incl (Rules.ambiguousPhrases rules) (Rules.ambiguousPhrases general)
    /\ incl (Rules.repetitivePatterns rules)
            (Rules.repetitivePatterns general)
    /\ incl (Rules.mediaSpecificRules rules)
            (Rules.mediaSpecificRules general).
Proof.
  destruct db as [docs|message].
  - do 2 eexists. split; [apply getMediaRules_available|].
    split; [now rewrite getMediaRules_available|].
    split; [now rewrite getMediaRules_available|].
    split; [apply getMediaRules_available|].
    cbn [Rules.ambiguousPhrases Rules.repetitivePatterns
         Rules.mediaSpecificRules].
    repeat split; apply map_filter_incl, selected_incl.
  - exists Rules.empty, Rules.empty. repeat split; apply incl_refl.
Qed.

Example media_rules_selected :
  getMediaRules sampleStore (Some (utf16 "blog")) = Return Rules.empty
  /\ getMediaRules sampleStore None
     = getMediaRules sampleStore (Some (utf16 "news"))
  /\ option_map (fun rules => map PhraseRule.text
                                  (Rules.ambiguousPhrases rules))
       (match getMediaRules sampleStore None with
        | Return rules => Some rules
        | Throw _ => None
        end) = Some [utf16 "very"].
Proof. repeat split. Qed.

(* ================================================================== *)
(** * Properties of the route [/api/analyze] *)

Lemma authenticateApiKey_valid (A : Type) (API_KEY apiKey : option str) :
  @authenticateApiKey A API_KEY apiKey
  = if validKey API_KEY apiKey then None
    else Some {| Http.status := 401;
                 Http.json := Http.ErrorJson
                                (utf16 "認証エラー: 無効なAPIキー") |}.
Proof.
  unfold authenticateApiKey, validKey, strictNotEqual.
  destruct apiKey as [[|c given]|]; destruct API_KEY as [configured|];
    simpl; try reflexivity.
  destruct (Str.eqb (c :: given) configured); reflexivity.
Qed.

Lemma getMediaRules_rulesFor (db : Firestore.db) (mediaType : option str) :
  getMediaRules db mediaType = Return (rulesFor db mediaType).
Proof.
  unfold rulesFor, getMediaRules.
  destruct (Firestore.get db (rulesQuery mediaType)); reflexivity.
Qed.

Lemma getMediaRulesOf_rulesOf (db : Firestore.db) (mediaType : JsValue.t) :
  getMediaRulesOf db mediaType = Return (rulesOf db mediaType).
Proof.
  unfold rulesOf, getMediaRulesOf.
  destruct mediaType; cbn [JsValue.truthy];
    try rewrite getMediaRules_rulesFor; try reflexivity.
  - now destruct b.
  - now destruct (negb (Qeq_bool q 0)); try rewrite getMediaRules_rulesFor.
Qed.

(** X9. The status of the answer of [POST /api/analyze].  A body the
    parsers reject is answered 500 before the key is looked at.
    Otherwise the answer is 401 when the key of the request is
    missing, empty or not the configured one, whatever the body; else
    500 when the parsers left no body; else 400 when the text is
    missing or falsy; else 500 when the text is no string, or when it
    is a string that is not blank and a pattern of the fetched rules
    does not compile; 200 in every other case.  A white-space-only
    text is answered 200 with the empty result. *)
Theorem postAnalyze_status (E : RegExpEngine) (API_KEY : option str)
        (db : Firestore.db) (req : Http.analyzeRequest) :
  Http.status (postAnalyze E API_KEY db req)
  = match Http.req_body req with
    | Throw _ => 500
    | Return body =>
      if negb (validKey API_KEY (Http.apiKey req)) then 401
      else match body with
           | None => 500
           | Some body =>
             if negb (JsValue.truthy (Http.text body)) then 400
             else match Http.text body with
                  | JsValue.VString text =>
                    if negb (isBlank text)
                       && negb (wellFormed E
                                  (rulesOf db (Http.mediaType body)))
                    then 500 else 200
                  | _ => 500
                  end
           end
    end
  /\ (forall body text,
         Http.req_body req = Return (Some body) ->
         validKey API_KEY (Http.apiKey req) = true ->
         Http.text body = JsValue.VString text ->
         text <> [] ->
         isBlank text = true ->
         postAnalyze E API_KEY db req
         = {| Http.status := 200;
              Http.json := Http.Json Result.initial |}).
Proof.
  unfold postAnalyze.
  destruct (Http.req_body req) as [body|error].
  2: { split; [reflexivity|]. intros; discriminate. }
  rewrite authenticateApiKey_valid.
  destruct (validKey API_KEY (Http.apiKey req)); cbn [negb].
  2: { split; [reflexivity|]. intros; discriminate. }
  unfold analyzeRoute. destruct body as [body|].
  2: { split; [reflexivity|]. intros; discriminate. }
  rewrite getMediaRulesOf_rulesOf. cbn [bind].
  destruct (Http.text body) as [| |b|q|[|c text]| |] eqn:Htext;
    cbn [JsValue.truthy negb length Nat.eqb analyzeTextOf].
  1, 2, 5: (split; [reflexivity|]; intros body' t [= <-] _ Ht;
            rewrite Htext in Ht; try discriminate;
            injection Ht as <-; congruence).
  - destruct b; cbn [negb]; (split; [reflexivity|]);
      intros body' t [= <-] _ Ht; rewrite Htext in Ht; discriminate.
  - destruct (negb (Qeq_bool q 0)); cbn [negb]; (split; [reflexivity|]);
      intros body' t [= <-] _ Ht; rewrite Htext in Ht; discriminate.
  - split.
    + destruct (isBlank (c :: text)) eqn:Hb; cbn [negb andb].
      * unfold analyzeText. now rewrite analyze_blank.
      * destruct (wellFormed E (rulesOf db (Http.mediaType body))) eqn:Hwf;
          cbn [negb].
        -- now rewrite analyzeText_nonblank.
        -- destruct (analyze_throws E (c :: text) _
                        (JsValue.truthy (Http.detailedAnalysis body)) Hb Hwf)
             as [p [m [_ [_ Ha]]]].
           unfold analyzeText. rewrite Ha. reflexivity.
    + intros body' t [= <-] _ Ht _ Hb. rewrite Htext in Ht.
      injection Ht as <-. unfold analyzeText.
      now rewrite analyze_blank.
  - split; [reflexivity|]. intros body' t [= <-] _ Ht.
    rewrite Htext in Ht. discriminate.
  - split; [reflexivity|]. intros body' t [= <-] _ Ht.
    rewrite Htext in Ht. discriminate.
Qed.

Lemma postAnalyze_status_witness :
  validKey (Some (utf16 "secret")) (Some (utf16 "secret")) = true
  /\ utf16 "  " <> []
  /\ isBlank (utf16 "  ") = true
  /\ postAnalyze Literal.engine (Some (utf16 "secret")) sampleStore
       {| Http.apiKey := Some (utf16 "secret");
          Http.req_body :=
            Return
              (Some {| Http.text := JsValue.VString (utf16 "  ");
                       Http.mediaType := JsValue.VUndefined;
                       Http.detailedAnalysis := JsValue.VBoolean true |}) |}
     = {| Http.status := 200;
          Http.json := Http.Json Result.initial |}.
Proof.
  split; [reflexivity|]. split; [discriminate|]. split; [reflexivity|].
  apply (proj2 (postAnalyze_status Literal.engine (Some (utf16 "secret"))
                  sampleStore
                  {| Http.apiKey := Some (utf16 "secret");
                     Http.req_body :=
                       Return
                         (Some
                            {| Http.text := JsValue.VString (utf16 "  ");
                               Http.mediaType := JsValue.VUndefined;
                               Http.detailedAnalysis :=
                                 JsValue.VBoolean true |}) |})
               {| Http.text := JsValue.VString (utf16 "  ");
                  Http.mediaType := JsValue.VUndefined;
                  Http.detailedAnalysis := JsValue.VBoolean true |}
               (utf16 "  "));
    try reflexivity. discriminate.
Defined.

(** X10. A failing rule store does not fail the request: the answer is
    the one an empty store gives, and it has no issue from a rule.  It
    is a 500 only for a body the parsers reject, for a body they left
    [undefined], and for a text that is truthy and no string; it is
    never one for a text that is a string. *)
Theorem postAnalyze_store_failure (E : RegExpEngine) (API_KEY : option str)
        (message : str) (req : Http.analyzeRequest) :
  postAnalyze E API_KEY (Firestore.Failing message) req
  = postAnalyze E API_KEY (Firestore.Available []) req
  /\ (Http.status (postAnalyze E API_KEY (Firestore.Failing message) req)
      = 500 ->
      (exists error, Http.req_body req = Throw error)
      \/ (Http.req_body req = Return None
          /\ validKey API_KEY (Http.apiKey req) = true)
      \/ (exists body,
             Http.req_body req = Return (Some body)
             /\ validKey API_KEY (Http.apiKey req) = true
             /\ JsValue.truthy (Http.text body) = true
             /\ forall text, Http.text body <> JsValue.VString text))
  /\ (forall body text,
         Http.req_body req = Return (Some body) ->
         Http.text body = JsValue.VString text ->
         Http.status (postAnalyze E API_KEY (Firestore.Failing message) req)
         <> 500)
  /\ (forall r,
         Http.json (postAnalyze E API_KEY (Firestore.Failing message) req)
         = Http.Json r ->
         Result.ambiguousPhrases r = []
         /\ Result.mediaSpecificIssues r = []).
Proof.
  split.
  { unfold postAnalyze, analyzeRoute.
    destruct (Http.req_body req) as [[body|]|error]; reflexivity. }
  assert (Hwf : wellFormed E Rules.empty = true) by reflexivity.
  assert (Hrules : forall mediaType,
             rulesOf (Firestore.Failing message) mediaType = Rules.empty).
  { intros [| |b|q|s| |]; try reflexivity.
    - now destruct b.
    - unfold rulesOf, getMediaRulesOf. cbn [JsValue.truthy].
      now destruct (negb (Qeq_bool q 0)). }
  unfold postAnalyze.
  destruct (Http.req_body req) as [body|error].
  2: { split; [intros _; left; now exists error|].
       split; [intros; discriminate | intros r [=]]. }
  rewrite authenticateApiKey_valid.
  destruct (validKey API_KEY (Http.apiKey req)).
  2: { split; [discriminate|]. split; [discriminate | intros r [=]]. }
  unfold analyzeRoute. destruct body as [body|].
  2: { split; [intros _; right; left; now split|].
       split; [intros; discriminate | intros r [=]]. }
  rewrite getMediaRulesOf_rulesOf, Hrules. cbn [bind].
  destruct (Http.text body) as [| |b|q|[|c text]| |] eqn:Htext;
    cbn [JsValue.truthy negb length Nat.eqb analyzeTextOf].
  1, 2, 5: (split; [discriminate|]; split; [discriminate | intros r [=]]).
  - destruct b; cbn [negb].
    + split; [|split; [intros b' t [= <-] Ht; rewrite Htext in Ht;
                       discriminate
                      | intros r [=]]].
      intros _. right. right. exists body. rewrite Htext.
      repeat split. intros t. discriminate.
    + split; [discriminate|]. split; [discriminate | intros r [=]].
  - destruct (negb (Qeq_bool q 0)) eqn:Hq; cbn [negb].
    + split; [|split; [intros b' t [= <-] Ht; rewrite Htext in Ht;
                       discriminate
                      | intros r [=]]].
      intros _. right. right. exists body. rewrite Htext.
      cbn [JsValue.truthy].
      repeat split; [exact Hq|]. intros t. discriminate.
    + split; [discriminate|]. split; [discriminate | intros r [=]].
  - destruct (isBlank (c :: text)) eqn:Hb.
    + unfold analyzeText. rewrite analyze_blank by exact Hb.
      cbn [try_catch Http.status Http.json].
      split; [discriminate|]. split; [discriminate|].
      intros r [= <-]. split; reflexivity.
    + rewrite analyzeText_nonblank by assumption.
      cbn [Http.status Http.json].
      split; [discriminate|]. split; [discriminate|].
      intros r [= <-]. split; reflexivity.
  - split; [|split; [intros b' t [= <-] Ht; rewrite Htext in Ht;
                     discriminate
                    | intros r [=]]].
    intros _. right. right. exists body. rewrite Htext.
    repeat split. intros t. discriminate.
  - split; [|split; [intros b' t [= <-] Ht; rewrite Htext in Ht;
                     discriminate
                    | intros r [=]]].
    intros _. right. right. exists body. rewrite Htext.
    repeat split. intros t. discriminate.
Qed.

Example request_answered :
  Http.status (postAnalyze Literal.engine (Some (utf16 "secret"))
                           sampleStore sampleRequest) = 200
  /\ Http.status (postAnalyze Literal.engine None sampleStore
                    {| Http.apiKey := None;
                       Http.req_body := Return (Some sampleBody) |}) = 401
  /\ Http.status (postAnalyze Literal.engine (Some (utf16 "secret"))
                    (Firestore.Available [activeRule "mediaSpecific" "("])
                    sampleRequest) = 500
  /\ Http.status (postAnalyze Literal.engine (Some (utf16 "secret"))
                    sampleStore
                    {| Http.apiKey := Some (utf16 "secret");
                       Http.req_body := Return (Some numberBody) |}) = 500
  /\ Http.status (postAnalyze Literal.engine (Some (utf16 "secret"))
                    sampleStore
                    {| Http.apiKey := None;
                       Http.req_body := Throw (utf16 "Unexpected token") |})
     = 500.
Proof. repeat split. Qed.

(* ================================================================== *)
(** * Properties of [extractSnippet] and [searchDrive] *)

Lemma endsWithDot_app (s : str) : endsWithDot (s ++ utf16 "...") = true.
Proof.
  unfold endsWithDot. rewrite rev_app_distr. reflexivity.
Qed.

Lemma endsWithDot_not_nil (s : str) : endsWithDot s = true -> s <> [].
Proof. intros H ->. discriminate. Qed.

Lemma endsWithDot_iff (s : str) :
  endsWithDot s = true <-> exists front, s = front ++ utf16 ".".
Proof.
  unfold endsWithDot. split.
  - destruct (rev s) as [|c front] eqn:Hrev; [discriminate|].
    intros Hc. apply N.eqb_eq in Hc. subst c.
    exists (rev front). rewrite <- (rev_involutive s), Hrev. reflexivity.
  - intros [front ->]. rewrite rev_app_distr. reflexivity.
Qed.

Section SnippetFacts.

Variable H : Drive.host.

(** The snippet made of a match [m] that is not empty. *)
Lemma snippet_of_match (m : str) :
  m <> [] ->
  let cut :=
    if 150 <? length m then utf16 "..." ++ skipn (length m - 150 + 3) m
    else m in
  let s := if negb (endsWithDot cut) then cut ++ utf16 "..." else cut in
  length s <= 153
  /\ endsWithDot s = true
  /\ (length m <= 150 -> s = m \/ s = m ++ utf16 "...")
  /\ (150 < length m ->
      exists front kept,
        m = front ++ kept /\ length kept = 147
        /\ (s = utf16 "..." ++ kept \/ s = utf16 "..." ++ kept ++ utf16 "...")).
Proof.
  intros Hm. cbv zeta.
  destruct (Nat.ltb_spec 150 (length m)) as [Hlong|Hshort].
  - set (kept := skipn (length m - 150 + 3) m).
    assert (Hk : length kept = 147).
    { unfold kept. rewrite length_skipn. lia. }
    assert (Hsplit : m = firstn (length m - 150 + 3) m ++ kept).
    { unfold kept. now rewrite firstn_skipn. }
    destruct (endsWithDot (utf16 "..." ++ kept)) eqn:He; cbn [negb].
    + split; [|split; [|split]].
      * rewrite length_app, Hk. simpl. lia.
      * exact He.
      * intros Hle. lia.
      * intros _. exists (firstn (length m - 150 + 3) m), kept. tauto.
    + split; [|split; [|split]].
      * rewrite !length_app, Hk. simpl. lia.
      * apply endsWithDot_app.
      * intros Hle. lia.
      * intros _. exists (firstn (length m - 150 + 3) m), kept.
        rewrite <- app_assoc. tauto.
  - destruct (endsWithDot m) eqn:He; cbn [negb].
    + split; [|split; [|split]].
      * lia.
      * exact He.
      * tauto.
      * intros Hgt. lia.
    + split; [|split; [|split]].
      * rewrite length_app. simpl. lia.
      * apply endsWithDot_app.
      * tauto.
      * intros Hgt. lia.
Qed.

Lemma extractSnippet_bounds_aux (text keyword : str) :
  match extractSnippet H text keyword with
  | Return s =>
    length s <= 153
    /\ (s = noPreview \/ endsWithDot s = true)
    /\ (forall regex m,
           Drive.RegExp_new_i H
             (utf16 "(.{0,50}" ++ keyword ++ utf16 ".{0,50})")
           = Return regex ->
           Drive.match_1 H text regex = Some (Some m) ->
           m <> [] ->
           (length m <= 150 -> s = m \/ s = m ++ utf16 "...")
           /\ (150 < length m ->
               exists front kept,
                 m = front ++ kept /\ length kept = 147
                 /\ (s = utf16 "..." ++ kept
                     \/ s = utf16 "..." ++ kept ++ utf16 "...")))
  | Throw error =>
    Drive.RegExp_new_i H (utf16 "(.{0,50}" ++ keyword ++ utf16 ".{0,50})")
    = Throw error
  end.
Proof.
  unfold extractSnippet.
  destruct (Drive.RegExp_new_i H _) as [regex|error]; cbn [bind];
    [|reflexivity].
  destruct (Drive.match_1 H text regex) as [[[|c rest]|]|] eqn:Hmatch.
  1, 3, 4: (split; [vm_compute; lia|]; split; [now left|];
            intros regex' m [= <-]; rewrite Hmatch; intros [= <-];
            congruence).
  assert (Hne : c :: rest <> []) by discriminate.
  destruct (snippet_of_match (c :: rest) Hne) as [Hlen [Hdot [Hshort Hlong]]].
  cbv zeta in Hlen, Hdot, Hshort, Hlong.
  split; [exact Hlen|]. split; [now right|].
  intros regex' m [= <-]. rewrite Hmatch. intros [= <-] _. tauto.
Qed.

(** X11. [extractSnippet] throws only what the constructor of the
    expression throws.  Without a match, or with an empty first group,
    it returns the fixed text for "no preview".  Otherwise the match is
    cut first: one of 150 code units or fewer is kept, of a longer one
    the last 147 are kept after [...]; then the cut match is returned
    as it is when it ends in a full stop, and with [...] after it when
    it does not.  So the snippet has 153 code units at most and is the
    fixed text or ends in a full stop. *)
Theorem extractSnippet_bounds (text keyword : str) :
  match extractSnippet H text keyword with
  | Return s =>
    length s <= 153
    /\ (s = noPreview \/ endsWithDot s = true)
    /\ (s = utf16 "キーワードの一致箇所のプレビューを取得できませんでした。"
        \/ exists front, s = front ++ utf16 ".")
    /\ (forall regex m,
           Drive.RegExp_new_i H
             (utf16 "(.{0,50}" ++ keyword ++ utf16 ".{0,50})")
           = Return regex ->
           Drive.match_1 H text regex = Some (Some m) ->
           m <> [] ->
           exists cut,
             (length m <= 150 -> cut = m)
             /\ (150 < length m ->
                 exists front kept,
                   m = front ++ kept /\ length kept = 147
                   /\ cut = utf16 "..." ++ kept)
             /\ ((exists front, cut = front ++ utf16 ".") -> s = cut)
             /\ ((forall front, cut <> front ++ utf16 ".") ->
                 s = cut ++ utf16 "..."))
    /\ (forall regex,
           Drive.RegExp_new_i H
             (utf16 "(.{0,50}" ++ keyword ++ utf16 ".{0,50})")
           = Return regex ->
           (forall m, Drive.match_1 H text regex = Some (Some m) -> m = []) ->
           s = utf16 "キーワードの一致箇所のプレビューを取得できませんでした。")
  | Throw error =>
    Drive.RegExp_new_i H (utf16 "(.{0,50}" ++ keyword ++ utf16 ".{0,50})")
    = Throw error
  end.
Proof.
  pose proof (extractSnippet_bounds_aux text keyword) as Haux.
  unfold extractSnippet in *.
  destruct (Drive.RegExp_new_i H _) as [regex|error]; cbn [bind] in *;
    [|reflexivity].
  destruct (Drive.match_1 H text regex) as [[[|c rest]|]|] eqn:Hmatch.
  1, 3, 4: (destruct Haux as [Hlen [Hdot _]];
            split; [exact Hlen|]; split; [exact Hdot|];
            split; [now left|]; split;
            [intros regex' m [= <-]; rewrite Hmatch; intros [= <-];
             congruence
            |intros regex' [= <-] _; reflexivity]).
  destruct Haux as [Hlen [Hdot _]].
  split; [exact Hlen|]. split; [exact Hdot|].
  split.
  { right. apply endsWithDot_iff.
    assert (Hne : c :: rest <> []) by discriminate.
    destruct (snippet_of_match (c :: rest) Hne) as [_ [Hd _]].
    exact Hd. }
  split.
  2: { intros regex' [= <-] Hnone. specialize (Hnone _ Hmatch).
       discriminate. }
  intros regex' m [= <-]. rewrite Hmatch. intros [= <-] _.
  set (m := c :: rest) in *.
  set (cut := if 150 <? length m
              then utf16 "..." ++ skipn (length m - 150 + 3) m else m).
  exists cut. split; [|split; [|split]].
  - intros Hshort. unfold cut.
    destruct (Nat.ltb_spec 150 (length m)); [lia | reflexivity].
  - intros Hlong. unfold cut.
    destruct (Nat.ltb_spec 150 (length m)); [|lia].
    exists (firstn (length m - 150 + 3) m), (skipn (length m - 150 + 3) m).
    split; [now rewrite firstn_skipn|].
    split; [rewrite length_skipn; lia | reflexivity].
  - intros Hdotted. apply endsWithDot_iff in Hdotted.
    fold cut. now rewrite Hdotted.
  - intros Hplain. fold cut.
    destruct (endsWithDot cut) eqn:He; [|reflexivity].
    apply endsWithDot_iff in He. destruct He as [front He].
    now apply Hplain in He.
Qed.

Lemma extractSnippet_length (text keyword s : str) :
  extractSnippet H text keyword = Return s -> length s <= 153.
Proof.
  intros Hs. pose proof (extractSnippet_bounds_aux text keyword) as Hb.
  rewrite Hs in Hb. tauto.
Qed.

End SnippetFacts.

Lemma extractSnippet_bounds_witness :
  Drive.RegExp_new_i sampleHost
    (utf16 "(.{0,50}" ++ utf16 "report" ++ utf16 ".{0,50})")
  = Return (utf16 "(.{0,50}report.{0,50})")
  /\ Drive.match_1 sampleHost (utf16 "The quarterly report is ready")
                   (utf16 "(.{0,50}report.{0,50})")
     = Some (Some (utf16 "The quarterly report is ready"))
  /\ extractSnippet sampleHost (utf16 "The quarterly report is ready")
                    (utf16 "report")
     = Return (utf16 "The quarterly report is ready"  ++ utf16 "...").
Proof.
  split; [reflexivity|]. split; [reflexivity|].
  pose proof (extractSnippet_bounds sampleHost
                (utf16 "The quarterly report is ready") (utf16 "report"))
    as Hb.
  destruct (extractSnippet sampleHost (utf16 "The quarterly report is ready")
                           (utf16 "report")) as [s|error];
    [|discriminate Hb].
  destruct Hb as [_ [_ [_ [Hb _]]]].
  destruct (Hb (utf16 "(.{0,50}report.{0,50})")
               (utf16 "The quarterly report is ready"))
    as [cut [Hshort [_ [_ Hplain]]]];
    [reflexivity | reflexivity | discriminate |].
  assert (Hcut : cut = utf16 "The quarterly report is ready")
    by (apply Hshort; vm_compute; lia).
  subst cut. f_equal. apply Hplain. intros front Hfront.
  assert (Hdot : endsWithDot (utf16 "The quarterly report is ready") = true)
    by (apply endsWithDot_iff; now exists front).
  discriminate Hdot.
Defined.

Section SearchFacts.

Variable H : Drive.host.
Variable keyword : str.

Lemma searchItem_itemOf (file : Drive.file) :
  itemOf H keyword file (searchItem H keyword file).
Proof.
  unfold itemOf, searchItem.
  cbn [Drive.item_id Drive.title Drive.item_mimeType Drive.item_webViewLink
       Drive.item_modifiedTime Drive.snippet].
  do 5 (split; [reflexivity|]).
  destruct (Str.eqb (Drive.mimeType file) googleDocument) eqn:Hdoc.
  - apply str_eqb_eq in Hdoc.
    destruct (Drive.files_export H (Drive.id file)) as [content|error];
      cbn [bind try_catch].
    + pose proof (extractSnippet_bounds_aux H content keyword) as Hb.
      destruct (extractSnippet H content keyword) as [s|error] eqn:Hs;
        cbn [try_catch].
      * destruct Hb as [Hlen [Hdot _]].
        assert (Hpos : 1 <= length s).
        { destruct Hdot as [->|Hdot]; [vm_compute; lia|].
          destruct s; [discriminate | simpl; lia]. }
        split; [lia|]. split; [congruence|]. split.
        -- intros _ error [=].
        -- intros _ c [= <-]. now rewrite Hs.
      * split; [vm_compute; lia|]. split; [congruence|]. split.
        -- intros _ error' [=].
        -- intros _ c [= <-]. now rewrite Hs.
    + split; [vm_compute; lia|]. split; [congruence|]. split.
      * reflexivity.
      * intros _ c [=].
  - apply str_eqb_neq in Hdoc. cbn [try_catch].
    split; [vm_compute; lia|]. split; [reflexivity|]. split; congruence.
Qed.

Lemma Forall2_map_right {A B : Type} (P : A -> B -> Prop) (f : A -> B)
      (l : list A) :
  (forall a, P a (f a)) -> Forall2 P l (map f l).
Proof.
  intros Hf. induction l as [|a l IH]; simpl; constructor; auto.
Qed.

End SearchFacts.

(** X12. [searchDrive] fails exactly when the authentication client
    or the listing of the files fails, with the fixed prefix before the
    message.  Otherwise it returns one item for each listed file, in
    the order of the list, with the fields of the file; no export and
    no keyword can fail the search: the snippet of a file that is not
    a Google document is the invitation to click, the snippet of a
    document whose export or whose snippet extraction throws is the
    text "no content", and every snippet has 1 to 153 code units.
    [hasMore] tells that a page token came back. *)
Theorem searchDrive_items (H : Drive.host) (keyword : str)
        (fileTypes : option (list str)) (period : option str) :
  match Drive.getAuthClient H with
  | Throw error =>
    searchDrive H keyword fileTypes period
    = Throw (searchErrorPrefix ++ error)
  | Return _ =>
    match Drive.files_list H (driveQuery H keyword fileTypes period) with
    | Throw error =>
      searchDrive H keyword fileTypes period
      = Throw (searchErrorPrefix ++ error)
    | Return (files, nextPageToken) =>
      exists items,
        searchDrive H keyword fileTypes period
        = Return {| Drive.items := items;
                    Drive.hasMore := truthy nextPageToken |}
        /\ length items = length files
        /\ Forall2 (itemOf H keyword) files items
    end
  end.
Proof.
  unfold searchDrive.
  destruct (Drive.getAuthClient H) as [auth|error]; cbn [bind try_catch];
    [|reflexivity].
  destruct (Drive.files_list H (driveQuery H keyword fileTypes period))
    as [[files nextPageToken]|error]; cbn [bind try_catch fst snd];
    [|reflexivity].
  eexists. split; [reflexivity|]. split; [apply length_map|].
  apply Forall2_map_right. apply searchItem_itemOf.
Qed.

Example search_survives_failed_export :
  option_map (fun r => (map Drive.snippet (Drive.items r), Drive.hasMore r))
    (match searchDrive sampleHost (utf16 "report") None None with
     | Return r => Some r
     | Throw _ => None
     end)
  = Some ([utf16 "The quarterly report is ready..."; clickToPreview;
           noContent], true).
Proof. reflexivity. Qed.

(** ** The clause on the file types *)

Lemma includes_In (fileTypes : list str) (t : string) :
  includes fileTypes t = true <-> In (utf16 t) fileTypes.
Proof.
  unfold includes. rewrite existsb_exists. split.
  - intros [x [Hx Heq]]. apply str_eqb_eq in Heq. now subst.
  - intros Hin. exists (utf16 t). split; [exact Hin | apply str_eqb_refl].
Qed.

Lemma mimeTypeQuery_includes (t : str) (ts : list str) :
  mimeTypeQuery (Some (t :: ts)) = []
  <-> includes (t :: ts) "docs" = false
      /\ includes (t :: ts) "pdf" = false
      /\ includes (t :: ts) "text" = false.
Proof.
  unfold mimeTypeQuery.
  destruct (includes (t :: ts) "docs"); destruct (includes (t :: ts) "pdf");
    destruct (includes (t :: ts) "text"); cbn;
    split; try discriminate; try tauto;
    intros [H1 [H2 H3]]; discriminate.
Qed.

Lemma includes_iff (ft ft' : list str) (t : string) :
  (In (utf16 t) ft <-> In (utf16 t) ft') -> includes ft t = includes ft' t.
Proof.
  intros Hsame. destruct (includes ft t) eqn:H1; symmetry.
  - apply includes_In. apply Hsame. now apply includes_In.
  - destruct (includes ft' t) eqn:H2; [|reflexivity].
    apply includes_In in H2. apply Hsame in H2. apply includes_In in H2.
    congruence.
Qed.

Lemma mimeTypeQuery_none (fileTypes : list str) :
  includes fileTypes "docs" = false ->
  includes fileTypes "pdf" = false ->
  includes fileTypes "text" = false ->
  mimeTypeQuery (Some fileTypes) = [].
Proof.
  intros Hd Hp Ht. destruct fileTypes as [|t ts]; [reflexivity|].
  apply mimeTypeQuery_includes. tauto.
Qed.

(** X13. The clause of the search query on the file types depends only
    on which of [docs], [pdf] and [text] are among the requested types:
    their order, repetitions and any other requested type change
    nothing.  The clause is empty, so files of every type are searched,
    exactly when no types are given or none of the three is among
    them; with all three it names the three MIME types, in the order
    documents, PDF, text whatever the order of the request. *)
Theorem mimeTypeQuery_membership (fileTypes fileTypes' : list str) :
  ((In (utf16 "docs") fileTypes <-> In (utf16 "docs") fileTypes') ->
   (In (utf16 "pdf") fileTypes <-> In (utf16 "pdf") fileTypes') ->
   (In (utf16 "text") fileTypes <-> In (utf16 "text") fileTypes') ->
   mimeTypeQuery (Some fileTypes) = mimeTypeQuery (Some fileTypes'))
  /\ (mimeTypeQuery (Some fileTypes) = []
      <-> ~ In (utf16 "docs") fileTypes
          /\ ~ In (utf16 "pdf") fileTypes
          /\ ~ In (utf16 "text") fileTypes)
  /\ mimeTypeQuery None = []
  /\ (In (utf16 "docs") fileTypes ->
      In (utf16 "pdf") fileTypes ->
      In (utf16 "text") fileTypes ->
      mimeTypeQuery (Some fileTypes)
      = utf16 "(mimeType=" ++ [34%N]
        ++ utf16 "application/vnd.google-apps.document" ++ [34%N]
        ++ utf16 " or mimeType=" ++ [34%N] ++ utf16 "application/pdf"
        ++ [34%N]
        ++ utf16 " or mimeType=" ++ [34%N] ++ utf16 "text/plain" ++ [34%N]
        ++ utf16 ")")
  /\ (~ In (utf16 "docs") fileTypes ->
      In (utf16 "pdf") fileTypes ->
      ~ In (utf16 "text") fileTypes ->
      mimeTypeQuery (Some fileTypes)
      = utf16 "(mimeType=" ++ [34%N] ++ utf16 "application/pdf" ++ [34%N]
        ++ utf16 ")").
Proof.
  split; [|split; [|split; [reflexivity|split]]].
  - intros Hdocs Hpdf Htext.
    apply (includes_iff _ _ "docs") in Hdocs.
    apply (includes_iff _ _ "pdf") in Hpdf.
    apply (includes_iff _ _ "text") in Htext.
    destruct fileTypes as [|t ts]; destruct fileTypes' as [|t' ts'].
    + reflexivity.
    + change (includes [] "docs") with false in Hdocs.
      change (includes [] "pdf") with false in Hpdf.
      change (includes [] "text") with false in Htext.
      symmetry. apply mimeTypeQuery_none; congruence.
    + change (includes [] "docs") with false in Hdocs.
      change (includes [] "pdf") with false in Hpdf.
      change (includes [] "text") with false in Htext.
      apply mimeTypeQuery_none; congruence.
    + unfold mimeTypeQuery. rewrite Hdocs, Hpdf, Htext. reflexivity.
  - rewrite <- !includes_In.
    destruct fileTypes as [|t ts].
    + simpl. intuition discriminate.
    + rewrite mimeTypeQuery_includes.
      destruct (includes (t :: ts) "docs");
        destruct (includes (t :: ts) "pdf");
        destruct (includes (t :: ts) "text"); intuition congruence.
  - intros Hdocs Hpdf Htext.
    apply includes_In in Hdocs. apply includes_In in Hpdf.
    apply includes_In in Htext.
    destruct fileTypes as [|t ts]; [discriminate|].
    unfold mimeTypeQuery. rewrite Hdocs, Hpdf, Htext. reflexivity.
  - rewrite <- !includes_In. intros Hdocs Hpdf Htext.
    destruct fileTypes as [|t ts]; [discriminate|].
    unfold mimeTypeQuery.
    destruct (includes (t :: ts) "docs"); [congruence|].
    destruct (includes (t :: ts) "text"); [congruence|].
    rewrite Hpdf. reflexivity.
Qed.

Lemma mimeTypeQuery_membership_witness :
  (In (utf16 "docs") [utf16 "pdf"; utf16 "sheets"]
   <-> In (utf16 "docs") [utf16 "slides"; utf16 "pdf"; utf16 "pdf"])
  /\ (In (utf16 "pdf") [utf16 "pdf"; utf16 "sheets"]
      <-> In (utf16 "pdf") [utf16 "slides"; utf16 "pdf"; utf16 "pdf"])
  /\ (In (utf16 "text") [utf16 "pdf"; utf16 "sheets"]
      <-> In (utf16 "text") [utf16 "slides"; utf16 "pdf"; utf16 "pdf"])
  /\ mimeTypeQuery (Some [utf16 "pdf"; utf16 "sheets"])
     = mimeTypeQuery (Some [utf16 "slides"; utf16 "pdf"; utf16 "pdf"]).
Proof.
  assert (Hdocs : In (utf16 "docs") [utf16 "pdf"; utf16 "sheets"]
                  <-> In (utf16 "docs")
                         [utf16 "slides"; utf16 "pdf"; utf16 "pdf"]).
  { simpl. split; intros H; repeat destruct H as [H|H];
             try discriminate H; destruct H. }
  assert (Hpdf : In (utf16 "pdf") [utf16 "pdf"; utf16 "sheets"]
                 <-> In (utf16 "pdf")
                        [utf16 "slides"; utf16 "pdf"; utf16 "pdf"]).
  { simpl. split; intros _; [right; left | left]; reflexivity. }
  assert (Htext : In (utf16 "text") [utf16 "pdf"; utf16 "sheets"]
                  <-> In (utf16 "text")
                         [utf16 "slides"; utf16 "pdf"; utf16 "pdf"]).
  { simpl. split; intros H; repeat destruct H as [H|H];
             try discriminate H; destruct H. }
  split; [exact Hdocs|]. split; [exact Hpdf|]. split; [exact Htext|].
  exact (proj1 (mimeTypeQuery_membership
                  [utf16 "pdf"; utf16 "sheets"]
                  [utf16 "slides"; utf16 "pdf"; utf16 "pdf"])
               Hdocs Hpdf Htext).
Defined.

Example unknown_types_search_everything :
  driveQuery sampleHost (utf16 "report") (Some [utf16 "sheets"]) None
  = utf16 "fullText contains 'report' and trashed=false"
  /\ driveQuery sampleHost (utf16 "report")
       (Some [utf16 "text"; utf16 "docs"]) (Some (utf16 "all"))
     = utf16 "fullText contains 'report' and trashed=false and (mimeType="
       ++ quote ++ googleDocument ++ quote ++ utf16 " or mimeType="
       ++ quote ++ utf16 "text/plain" ++ quote ++ utf16 ")".
Proof. split; reflexivity. Qed.

(* ================================================================== *)
(** * Properties of the snippet store *)

Section StoreFacts.

Variable D : Type.
Variable docs : list (str * D).
Variable id : str.

Lemma lookup_put_same (d : D) :
  World.lookup (World.put docs id d) id = Some d.
Proof.
  induction docs as [|[k d'] rest IH]; simpl.
  - now rewrite str_eqb_refl.
  - destruct (Str.eqb k id) eqn:Hk; simpl; rewrite Hk; [reflexivity|exact IH].
Qed.

Lemma lookup_put_other (d : D) (j : str) :
  j <> id -> World.lookup (World.put docs id d) j = World.lookup docs j.
Proof.
  intros Hj. induction docs as [|[k d'] rest IH]; simpl.
  - replace (Str.eqb id j) with false; [reflexivity|].
    symmetry. apply str_eqb_neq. congruence.
  - destruct (Str.eqb k id) eqn:Hk; simpl.
    + apply str_eqb_eq in Hk. subst k.
      replace (Str.eqb id j) with false; [reflexivity|].
      symmetry. apply str_eqb_neq. congruence.
    + now rewrite IH.
Qed.

Lemma lookup_remove_same : World.lookup (World.remove docs id) id = None.
Proof.
  unfold World.remove. induction docs as [|[k d'] rest IH]; simpl;
    [reflexivity|].
  destruct (Str.eqb k id) eqn:Hk; simpl; [exact IH|]. now rewrite Hk.
Qed.

Lemma lookup_remove_other (j : str) :
  j <> id -> World.lookup (World.remove docs id) j = World.lookup docs j.
Proof.
  intros Hj. unfold World.remove.
  induction docs as [|[k d'] rest IH]; simpl; [reflexivity|].
  destruct (Str.eqb k id) eqn:Hk; simpl.
  - apply str_eqb_eq in Hk. subst k.
    replace (Str.eqb id j) with false; [exact IH|].
    symmetry. apply str_eqb_neq. congruence.
  - now rewrite IH.
Qed.

End StoreFacts.

(** X14. [deleteSnippet] changes no document but the one asked for,
    and that one only by removing it when it returns.  It returns only
    for a document that exists and is not shared; for a shared one it
    throws "shared snippets cannot be deleted", for a missing one "not
    found", each after the fixed prefix, as it throws the fault of a
    failing call; and whenever it throws, every document is as it
    was. *)
Theorem deleteSnippet_guards (w : World.t Snippet.doc) (id : str) :
  let (out, w') := deleteSnippet id w in
  (forall j, j <> id ->
             World.lookup (World.docs w') j
             = World.lookup (World.docs w) j)
  /\ (forall error, out = Throw error ->
                    World.docs w' = World.docs w)
  /\ (forall done, out = Return done ->
        done = true
        /\ World.lookup (World.docs w') id = None
        /\ exists data,
            World.lookup (World.docs w) id = Some data
            /\ Snippet.isShared data <> Some true)
  /\ (World.fault w (World.calls w) = None ->
      match World.lookup (World.docs w) id with
      | None => out = Throw (deleteErrorPrefix ++ notFoundMessage)
      | Some data =>
        if sharedFlag (Snippet.isShared data)
        then out = Throw (deleteErrorPrefix ++ sharedMessage)
        else match World.fault w (S (World.calls w)) with
             | Some error => out = Throw (deleteErrorPrefix ++ error)
             | None => out = Return true
             end
      end)
  /\ (forall error, World.fault w (World.calls w) = Some error ->
                    out = Throw (deleteErrorPrefix ++ error)).
Proof.
  unfold deleteSnippet, io_try, io_bind, doc_get, doc_delete,
    dbCall, io_throw, io_ret, sharedFlag.
  destruct (World.fault w (World.calls w)) as [e|] eqn:Hf.
  { cbn. repeat split; try congruence; intros; discriminate. }
  cbn [World.docs World.called World.calls World.fault].
  destruct (World.lookup (World.docs w) id) as [data|] eqn:Hl.
  2: { cbn. repeat split; try congruence; intros; discriminate. }
  destruct (Snippet.isShared data) as [[|]|] eqn:Hs.
  1: { cbn. repeat split; try congruence; intros; discriminate. }
  all: cbn [World.called World.calls World.fault];
    destruct (World.fault w (S (World.calls w))) as [e|] eqn:Hf2; cbn.
  all: split; [intros j Hj; try reflexivity;
               try now apply lookup_remove_other|].
  all: split; [intros error He; try reflexivity; try discriminate|].
  all: split; [intros done Hd; try discriminate|].
  all: try (injection Hd as <-; split; [reflexivity|];
            split; [apply lookup_remove_same|];
            exists data; split; [reflexivity|]; rewrite Hs; discriminate).
  all: split; [intros _; reflexivity | intros error He; discriminate].
Qed.

Example shared_snippet_kept :
  fst (deleteSnippet (utf16 "s1") sampleWorld)
  = Throw (deleteErrorPrefix ++ sharedMessage)
  /\ fst (deleteSnippet (utf16 "p1") sampleWorld) = Return true
  /\ fst (deleteSnippet (utf16 "zz") sampleWorld)
     = Throw (deleteErrorPrefix ++ notFoundMessage).
Proof. repeat split. Qed.

Lemma deleteSnippet_guards_witness :
  World.fault sampleWorld (World.calls sampleWorld) = None
  /\ fst (deleteSnippet (utf16 "p1") sampleWorld) = Return true
  /\ World.lookup (World.docs (snd (deleteSnippet (utf16 "p1")
                                                       sampleWorld)))
                  (utf16 "p1") = None.
Proof.
  pose proof (deleteSnippet_guards sampleWorld (utf16 "p1")) as H.
  destruct (deleteSnippet (utf16 "p1") sampleWorld) as [out w'].
  destruct H as [_ [_ [Hret [Hok _]]]].
  assert (Hout : out = Return true) by (apply Hok; reflexivity).
  split; [reflexivity|]. split; [exact Hout|].
  apply (Hret true Hout).
Defined.

(** X15. [getSnippet] never changes a document.  When the call to the
    database does not fail, it returns a snippet exactly for a
    document that exists and whose [isShared] is the boolean asked for
    ([false] when none is asked for): a document without [isShared] is
    returned for neither flag.  The snippet returned has the
    identifier asked for, [未分類] for a missing or empty category, and
    no variables for missing ones. *)
Theorem getSnippet_visibility (w : World.t Snippet.doc) (id : str)
        (isShared : option bool) :
  let (out, w') := getSnippet id isShared w in
  World.docs w' = World.docs w
  /\ match World.fault w (World.calls w) with
     | Some error => out = Throw (getErrorPrefix ++ error)
     | None =>
       match World.lookup (World.docs w) id with
       | None => out = Return None
       | Some data =>
         match Snippet.isShared data with
         | None => out = Return None
         | Some shared =>
           if Bool.eqb shared (sharedFlag isShared)
           then exists v,
               out = Return (Some v)
               /\ Snippet.view_id v = id
               /\ Snippet.view_isShared v = sharedFlag isShared
               /\ Snippet.view_title v = Snippet.title data
               /\ Snippet.view_content v = Snippet.content data
               /\ Snippet.view_category v <> []
               /\ (forall c, Snippet.category data = Some c -> c <> [] ->
                             Snippet.view_category v = c)
               /\ (Snippet.category data = None
                   \/ Snippet.category data = Some [] ->
                   Snippet.view_category v = uncategorized)
               /\ (Snippet.variables data = None ->
                   Snippet.view_variables v = [])
           else out = Return None
         end
       end
     end.
Proof.
  unfold getSnippet, io_try, io_bind, doc_get, dbCall, io_throw, io_ret.
  fold (sharedFlag isShared).
  destruct (World.fault w (World.calls w)) as [e|] eqn:Hf.
  { cbn. split; reflexivity. }
  cbn [World.docs World.called].
  destruct (World.lookup (World.docs w) id) as [data|] eqn:Hl.
  2: { cbn. split; reflexivity. }
  destruct (Snippet.isShared data) as [shared|] eqn:Hs.
  2: { cbn. split; reflexivity. }
  destruct (Bool.eqb shared (sharedFlag isShared)) eqn:Heq; cbn [negb].
  2: { cbn. split; reflexivity. }
  cbn. split; [reflexivity|]. eexists. split; [reflexivity|].
  cbn [Snippet.view_id Snippet.view_isShared Snippet.view_title
       Snippet.view_content Snippet.view_category Snippet.view_variables].
  apply Bool.eqb_prop in Heq.
  do 4 (split; [auto|]).
  destruct (Snippet.category data) as [[|c cs]|]; cbn [truthy].
  - split; [discriminate|]. split; [intros c [= <-] Hc; congruence|].
    split; [reflexivity|]. now intros ->.
  - split; [discriminate|]. split; [now intros c' [= <-] _|].
    split; [intros [H|H]; discriminate|]. now intros ->.
  - split; [discriminate|]. split; [intros c [=]|].
    split; [reflexivity|]. now intros ->.
Qed.

Lemma getSnippet_visibility_witness :
  World.fault sampleWorld (World.calls sampleWorld) = None
  /\ World.lookup (World.docs sampleWorld) (utf16 "p1")
     = Some personalDoc
  /\ Snippet.category personalDoc = None
  /\ exists v,
      fst (getSnippet (utf16 "p1") None sampleWorld) = Return (Some v)
      /\ Snippet.view_category v = uncategorized.
Proof.
  pose proof (getSnippet_visibility sampleWorld (utf16 "p1") None) as H.
  destruct (getSnippet (utf16 "p1") None sampleWorld) as [out w'].
  destruct H as [_ H].
  change (exists v,
             out = Return (Some v)
             /\ Snippet.view_id v = utf16 "p1"
             /\ Snippet.view_isShared v = false
             /\ Snippet.view_title v = Snippet.title personalDoc
             /\ Snippet.view_content v = Snippet.content personalDoc
             /\ Snippet.view_category v <> []
             /\ (forall c, Snippet.category personalDoc = Some c -> c <> [] ->
                           Snippet.view_category v = c)
             /\ (Snippet.category personalDoc = None
                 \/ Snippet.category personalDoc = Some [] ->
                 Snippet.view_category v = uncategorized)
             /\ (Snippet.variables personalDoc = None ->
                 Snippet.view_variables v = [])) in H.
  destruct H as [v [Hout [_ [_ [_ [_ [_ [_ [Hcat _]]]]]]]]].
  split; [reflexivity|]. split; [reflexivity|]. split; [reflexivity|].
  exists v. split; [exact Hout|]. apply Hcat. now left.
Defined.

(** X16. A snippet saved is the one read back: after [saveSnippet]
    returns an identifier, [getSnippet] returns for it, as a personal
    snippet, the title, content and variables given, the category
    given or [未分類] for an empty one, and as times of creation and
    update the two readings of the clock, not the time the caller
    gave; it is not returned as a shared snippet; and no document with
    another identifier is changed. *)
Theorem saveSnippet_getSnippet (w : World.t Snippet.doc) (data : Snippet.saveData) :
  World.fault w (World.calls w) = None ->
  World.fault w (S (World.calls w)) = None ->
  exists w1,
    saveSnippet data w = (Return (World.autoId w (World.created w)), w1)
    /\ (forall j, j <> World.autoId w (World.created w) ->
                  World.lookup (World.docs w1) j
                  = World.lookup (World.docs w) j)
    /\ fst (getSnippet (World.autoId w (World.created w)) (Some true) w1)
       = Return None
    /\ fst (getSnippet (World.autoId w (World.created w)) None w1)
       = Return
           (Some
              {| Snippet.view_id := World.autoId w (World.created w);
                 Snippet.view_title := Some (Snippet.save_title data);
                 Snippet.view_category :=
                   match Snippet.save_category data with
                   | [] => uncategorized
                   | c => c
                   end;
                 Snippet.view_content := Some (Snippet.save_content data);
                 Snippet.view_variables := Snippet.save_variables data;
                 Snippet.view_isShared := false;
                 Snippet.view_createdAt :=
                   Some (World.time w (World.ticks w));
                 Snippet.view_updatedAt :=
                   Some (World.time w (S (World.ticks w))) |}).
Proof.
  intros Hf1 Hf2.
  unfold saveSnippet, io_try, io_bind, collection_doc, Date_now, doc_set,
    dbCall, io_ret.
  cbn -[World.lookup World.put].
  rewrite Hf1. eexists. split; [reflexivity|].
  cbn -[World.lookup World.put].
  split; [intros j Hj; now apply lookup_put_other|].
  unfold getSnippet, io_try, io_bind, doc_get, dbCall, io_ret.
  cbn -[World.lookup World.put].
  rewrite Hf2. cbn -[World.lookup World.put]. rewrite lookup_put_same. cbn.
  split; [reflexivity|].
  destruct (Snippet.save_category data); reflexivity.
Qed.

Lemma saveSnippet_getSnippet_witness :
  World.fault sampleWorld (World.calls sampleWorld) = None
  /\ World.fault sampleWorld (S (World.calls sampleWorld)) = None
  /\ exists w1,
      saveSnippet sampleSave sampleWorld = (Return (utf16 "new0"), w1)
      /\ fst (getSnippet (utf16 "new0") (Some true) w1) = Return None.
Proof.
  split; [reflexivity|]. split; [reflexivity|].
  destruct (saveSnippet_getSnippet sampleWorld sampleSave eq_refl eq_refl)
    as [w1 [Hsave [_ [Hshared _]]]].
  exists w1. split; [exact Hsave | exact Hshared].
Defined.

(** X17. [updateSnippet] changes no document but the one asked for and
    none when it throws; it throws "not found" for a missing document.
    When it returns, the document has the title, category, content and
    variables given and the reading of the clock as time of update,
    not the time the caller gave, and keeps its time of creation and
    its [isShared]: a shared snippet is updated like any other. *)
Theorem updateSnippet_merges (w : World.t Snippet.doc) (id : str)
        (data : Snippet.updateData) :
  let (out, w') := updateSnippet id data w in
  (forall j, j <> id ->
             World.lookup (World.docs w') j
             = World.lookup (World.docs w) j)
  /\ (forall error, out = Throw error ->
                    World.docs w' = World.docs w)
  /\ (World.fault w (World.calls w) = None ->
      World.lookup (World.docs w) id = None ->
      out = Throw (updateErrorPrefix ++ notFoundMessage))
  /\ (forall done, out = Return done ->
        exists old,
          World.lookup (World.docs w) id = Some old
          /\ World.lookup (World.docs w') id
             = Some {| Snippet.title := Some (Snippet.update_title data);
                       Snippet.category :=
                         Some (Snippet.update_category data);
                       Snippet.content := Some (Snippet.update_content data);
                       Snippet.variables :=
                         Some (Snippet.update_variables data);
                       Snippet.isShared := Snippet.isShared old;
                       Snippet.createdAt := Snippet.createdAt old;
                       Snippet.updatedAt :=
                         Some (World.time w (World.ticks w)) |})
  /\ (forall old,
         World.fault w (World.calls w) = None ->
         World.fault w (S (World.calls w)) = None ->
         World.lookup (World.docs w) id = Some old ->
         out = Return true).
Proof.
  unfold updateSnippet, io_try, io_bind, doc_get, doc_update,
    Date_now, dbCall, io_throw, io_ret.
  destruct (World.fault w (World.calls w)) as [e|] eqn:Hf.
  { cbn. repeat split; try congruence; intros; discriminate. }
  cbn [World.docs World.called World.calls World.fault].
  destruct (World.lookup (World.docs w) id) as [old|] eqn:Hl.
  2: { cbn. repeat split; try congruence; intros; discriminate. }
  cbn [World.fault World.calls World.docs World.ticks World.time
       World.called World.ticked].
  destruct (World.fault w (S (World.calls w))) as [e|] eqn:Hf2.
  { cbn. repeat split; try congruence; intros; discriminate. }
  rewrite Hl. cbn.
  split; [intros j Hj; now apply lookup_put_other|].
  split; [intros error; discriminate|].
  split; [intros _; discriminate|].
  split; [|reflexivity].
  intros done _. exists old. split; [reflexivity|]. apply lookup_put_same.
Qed.

Lemma updateSnippet_merges_witness :
  World.fault sampleWorld (World.calls sampleWorld) = None
  /\ World.fault sampleWorld (S (World.calls sampleWorld)) = None
  /\ World.lookup (World.docs sampleWorld) (utf16 "s1") = Some sharedDoc
  /\ fst (updateSnippet (utf16 "s1") sampleUpdate sampleWorld) = Return true
  /\ exists updated,
      World.lookup
        (World.docs (snd (updateSnippet (utf16 "s1") sampleUpdate
                                            sampleWorld))) (utf16 "s1")
      = Some updated
      /\ Snippet.isShared updated = Some true
      /\ Snippet.updatedAt updated = Some 5000%Z.
Proof.
  pose proof (updateSnippet_merges sampleWorld (utf16 "s1") sampleUpdate)
    as H.
  destruct (updateSnippet (utf16 "s1") sampleUpdate sampleWorld) as [out w'].
  destruct H as [_ [_ [_ [Hret Hok]]]].
  assert (Hout : out = Return true)
    by (apply (Hok sharedDoc); reflexivity).
  do 3 (split; [reflexivity|]). split; [exact Hout|].
  destruct (Hret true Hout) as [old [Hold Hnew]].
  injection Hold as <-.
  eexists. split; [exact Hnew|]. split; reflexivity.
Defined.

(** ** The list of the snippets *)

Lemma Set_add_In (members : list str) (x y : str) :
  In y (Set_add members x) <-> In y members \/ y = x.
Proof.
  unfold Set_add. destruct (existsb (Str.eqb x) members) eqn:Hx.
  - apply existsb_exists in Hx. destruct Hx as [z [Hz Heq]].
    apply str_eqb_eq in Heq. subst z. split; [tauto|].
    intros [H| ->]; assumption.
  - rewrite in_app_iff. simpl. intuition congruence.
Qed.

Lemma Set_add_NoDup (members : list str) (x : str) :
  NoDup members -> NoDup (Set_add members x).
Proof.
  intros Hnd. unfold Set_add.
  destruct (existsb (Str.eqb x) members) eqn:Hx; [exact Hnd|].
  apply NoDup_app_remove_l with (l := []). simpl.
  apply Permutation_NoDup with (l := x :: members).
  - apply Permutation_cons_append.
  - constructor; [|exact Hnd]. intros Hin.
    assert (existsb (Str.eqb x) members = true); [|congruence].
    apply existsb_exists. exists x. split; [exact Hin | apply str_eqb_refl].
Qed.

Lemma Set_add_head (h : str) (rest : list str) (x : str) :
  exists rest', Set_add (h :: rest) x = h :: rest'.
Proof.
  unfold Set_add. destruct (existsb (Str.eqb x) (h :: rest)).
  - now exists rest.
  - now exists (rest ++ [x]).
Qed.

(** What the loop of [getSnippets] keeps true of the list and the set
    it fills. *)
Lemma fold_listSnippet (snapshot : list (str * Snippet.doc)) :
  forall items categories,
    categoriesOf items categories ->
    let (items', categories') :=
      fold_left listSnippet snapshot (items, categories) in
    categoriesOf items' categories'
    /\ length items' = length items + length snapshot
    /\ map SnippetList.id items'
       = map SnippetList.id items ++ map fst snapshot.
Proof.
  induction snapshot as [|[id data] snapshot IH]; intros items categories Hc.
  - simpl. rewrite app_nil_r. split; [exact Hc|]. split; [lia|reflexivity].
  - cbn [fold_left listSnippet].
    match goal with |- context [fold_left listSnippet snapshot (?i, ?c)] =>
      specialize (IH i c) end.
    match type of IH with ?P -> _ => assert (Hstep : P) end.
    { destruct Hc as [[rest Hhead] [Hnd Hin]].
      unfold categoryOf.
      destruct (Snippet.category data) as [[|c cs]|] eqn:Hcat;
        cbn [truthy].
      - split; [now exists rest|]. split; [exact Hnd|].
        intros c. rewrite Hin. split.
        + intros [H|[it [Hit Hc']]]; [now left|].
          right. exists it. split; [apply in_or_app; now left | exact Hc'].
        + intros [H|[it [Hit Hc']]]; [now left|].
          apply in_app_or in Hit. destruct Hit as [Hit|[<-|[]]].
          * right. now exists it.
          * left. now rewrite <- Hc'.
      - split.
        { rewrite Hhead. apply Set_add_head. }
        split; [now apply Set_add_NoDup|].
        intros x. rewrite Set_add_In, Hin. split.
        + intros [[H|[it [Hit Hc']]]|H]; [now left| |].
          * right. exists it. split; [apply in_or_app; now left | exact Hc'].
          * right. eexists. split; [apply in_or_app; right; now left|].
            now rewrite H.
        + intros [H|[it [Hit Hc']]]; [left; now left|].
          apply in_app_or in Hit. destruct Hit as [Hit|[<-|[]]].
          * left. right. now exists it.
          * right. now rewrite <- Hc'.
      - split; [now exists rest|]. split; [exact Hnd|].
        intros c. rewrite Hin. split.
        + intros [H|[it [Hit Hc']]]; [now left|].
          right. exists it. split; [apply in_or_app; now left | exact Hc'].
        + intros [H|[it [Hit Hc']]]; [now left|].
          apply in_app_or in Hit. destruct Hit as [Hit|[<-|[]]].
          * right. now exists it.
          * left. now rewrite <- Hc'. }
    specialize (IH Hstep).
    destruct (fold_left listSnippet snapshot _) as [items' categories'].
    destruct IH as [Hc' [Hlen Hids]]. split; [exact Hc'|].
    rewrite Hlen, Hids, length_app, map_app, <- app_assoc. simpl.
    split; [lia | reflexivity].
Qed.

Lemma categoriesOf_initial : categoriesOf [] [uncategorized].
Proof.
  split; [now exists []|]. split.
  - constructor; [intros []|constructor].
  - intros c. simpl. split.
    + intros [<-|[]]. now left.
    + intros [->|[it [[] _]]]. now left.
Qed.

Lemma fold_listSnippet_items (snapshot : list (str * Snippet.doc)) :
  forall items categories,
    exists added,
      fst (fold_left listSnippet snapshot (items, categories))
      = items ++ added
      /\ Forall2 listedAs snapshot added.
Proof.
  induction snapshot as [|[id data] snapshot IH]; intros items categories.
  - exists []. simpl. split; [now rewrite app_nil_r | constructor].
  - cbn [fold_left listSnippet].
    match goal with |- context [fold_left listSnippet snapshot (?i, ?c)] =>
      destruct (IH i c) as [added [Hitems Hadded]] end.
    eexists (_ :: added). rewrite Hitems, <- app_assoc. simpl.
    split; [reflexivity|]. constructor; [|exact Hadded].
    unfold listedAs, categoryOf. cbn. repeat split.
    now destruct (Snippet.category data) as [[|c cs]|].
Qed.

Lemma fold_listSnippet_categories (snapshot : list (str * Snippet.doc)) :
  forall items categories h rest,
    categories = h :: rest ->
    NoDup categories ->
    let categories' :=
      snd (fold_left listSnippet snapshot (items, categories)) in
    (exists rest', categories' = h :: rest')
    /\ NoDup categories'
    /\ (forall c,
           In c categories'
           <-> In c categories
               \/ (c <> []
                   /\ exists doc,
                       In doc snapshot
                       /\ Snippet.category (snd doc) = Some c)).
Proof.
  induction snapshot as [|[id data] snapshot IH];
    intros items categories h rest Hhead Hnd.
  - simpl. split; [now exists rest|]. split; [exact Hnd|].
    intros c. split; [now left|]. intros [H|[_ [doc [[] _]]]]. exact H.
  - cbn [fold_left listSnippet].
    destruct (Snippet.category data) as [[|c cs]|] eqn:Hcat; cbn [truthy].
    + destruct (IH (items ++ [{| SnippetList.id := id;
                                 SnippetList.title := Snippet.title data;
                                 SnippetList.category := categoryOf data;
                                 SnippetList.createdAt :=
                                   Snippet.createdAt data |}])
                   categories h rest Hhead Hnd) as [Hh [Hn Hin]].
      split; [exact Hh|]. split; [exact Hn|].
      intros x. rewrite Hin. split.
      * intros [H|[Hx [doc [Hdoc Hc]]]]; [now left|].
        right. split; [exact Hx|]. exists doc. split; [now right | exact Hc].
      * intros [H|[Hx [doc [[<-|Hdoc] Hc]]]]; [now left| |].
        -- simpl in Hc. congruence.
        -- right. split; [exact Hx|]. now exists doc.
    + destruct (Set_add_head h rest (c :: cs)) as [rest' Hhead'].
      rewrite <- Hhead in Hhead'.
      destruct (IH (items ++ [{| SnippetList.id := id;
                                 SnippetList.title := Snippet.title data;
                                 SnippetList.category := categoryOf data;
                                 SnippetList.createdAt :=
                                   Snippet.createdAt data |}])
                   (Set_add categories (c :: cs)) h rest' Hhead'
                   (Set_add_NoDup _ _ Hnd)) as [Hh [Hn Hin]].
      split; [exact Hh|]. split; [exact Hn|].
      intros x. rewrite Hin, Set_add_In. split.
      * intros [[H| ->]|[Hx [doc [Hdoc Hc]]]]; [now left| |].
        -- right. split; [discriminate|].
           exists (id, data). split; [now left | exact Hcat].
        -- right. split; [exact Hx|]. exists doc.
           split; [now right | exact Hc].
      * intros [H|[Hx [doc [[<-|Hdoc] Hc]]]]; [left; now left| |].
        -- simpl in Hc. left. right. congruence.
        -- right. split; [exact Hx|]. now exists doc.
    + destruct (IH (items ++ [{| SnippetList.id := id;
                                 SnippetList.title := Snippet.title data;
                                 SnippetList.category := categoryOf data;
                                 SnippetList.createdAt :=
                                   Snippet.createdAt data |}])
                   categories h rest Hhead Hnd) as [Hh [Hn Hin]].
      split; [exact Hh|]. split; [exact Hn|].
      intros x. rewrite Hin. split.
      * intros [H|[Hx [doc [Hdoc Hc]]]]; [now left|].
        right. split; [exact Hx|]. exists doc. split; [now right | exact Hc].
      * intros [H|[Hx [doc [[<-|Hdoc] Hc]]]]; [now left| |].
        -- simpl in Hc. congruence.
        -- right. split; [exact Hx|]. now exists doc.
Qed.

Lemma fold_listSnippet_from (snapshot : list (str * Snippet.doc)) :
  let (items, categories) :=
    fold_left listSnippet snapshot ([], [uncategorized]) in
  Forall2 listedAs snapshot items /\ categoriesFrom snapshot categories.
Proof.
  destruct (fold_listSnippet_items snapshot [] [uncategorized])
    as [added [Hitems Hadded]].
  assert (Hnd : NoDup [uncategorized])
    by (constructor; [intros [] | constructor]).
  destruct (fold_listSnippet_categories snapshot [] [uncategorized]
              uncategorized [] eq_refl Hnd) as [Hh [Hn Hin]].
  destruct (fold_left listSnippet snapshot ([], [uncategorized]))
    as [items categories].
  simpl in Hitems, Hh, Hn, Hin. subst items.
  split; [exact Hadded|]. split; [exact Hh|]. split; [exact Hn|].
  intros c. rewrite Hin. change (utf16 "未分類") with uncategorized.
  simpl. intuition congruence.
Qed.

(** X18. [getSnippets] changes no document and throws only the fault of
    one of its two queries, after the fixed prefix.  In what it
    returns, each list has one item for each document of its query, in
    the order of the query, with the identifier, the title and the time
    of creation of the document and with its category, [未分類] for a
    missing or empty one; and each list of categories begins with
    [未分類], has no category twice, and holds exactly [未分類] and the
    categories of the documents of its query that are not empty. *)
Theorem getSnippets_categories
        (orderByCreatedAtDesc :
           list (str * Snippet.doc) -> list (str * Snippet.doc))
        (w : World.t Snippet.doc) :
  let (out, w') := getSnippets orderByCreatedAtDesc w in
  World.docs w' = World.docs w
  /\ match out with
     | Return r =>
       categoriesOf (SnippetList.personal r) (SnippetList.categories r)
       /\ categoriesOf (SnippetList.shared r)
                       (SnippetList.sharedCategories r)
       /\ map SnippetList.id (SnippetList.personal r)
          = map fst
                (orderByCreatedAtDesc
                   (filter (fun kd =>
                              match Snippet.isShared (snd kd) with
                              | Some b => Bool.eqb b false
                              | None => false
                              end) (World.docs w)))
       /\ map SnippetList.id (SnippetList.shared r)
          = map fst
                (orderByCreatedAtDesc
                   (filter (fun kd =>
                              match Snippet.isShared (snd kd) with
                              | Some b => Bool.eqb b true
                              | None => false
                              end) (World.docs w)))
       /\ Forall2 listedAs
             (orderByCreatedAtDesc
                   (filter (fun kd =>
                              match Snippet.isShared (snd kd) with
                              | Some b => Bool.eqb b false
                              | None => false
                              end) (World.docs w)))
             (SnippetList.personal r)
       /\ categoriesFrom
             (orderByCreatedAtDesc
                   (filter (fun kd =>
                              match Snippet.isShared (snd kd) with
                              | Some b => Bool.eqb b false
                              | None => false
                              end) (World.docs w)))
             (SnippetList.categories r)
       /\ Forall2 listedAs
             (orderByCreatedAtDesc
                   (filter (fun kd =>
                              match Snippet.isShared (snd kd) with
                              | Some b => Bool.eqb b true
                              | None => false
                              end) (World.docs w)))
             (SnippetList.shared r)
       /\ categoriesFrom
             (orderByCreatedAtDesc
                   (filter (fun kd =>
                              match Snippet.isShared (snd kd) with
                              | Some b => Bool.eqb b true
                              | None => false
                              end) (World.docs w)))
             (SnippetList.sharedCategories r)
     | Throw error =>
       exists message,
         error = listErrorPrefix ++ message
         /\ (World.fault w (World.calls w) = Some message
             \/ World.fault w (S (World.calls w)) = Some message)
     end.
Proof.
  unfold getSnippets, io_try, io_bind, snippets_where_isShared, dbCall,
    io_throw, io_ret.
  destruct (World.fault w (World.calls w)) as [e|] eqn:Hf.
  { cbn. split; [reflexivity|]. exists e. split; [reflexivity | now left]. }
  cbn [World.docs World.called World.calls World.fault].
  pose proof (fold_listSnippet
                (orderByCreatedAtDesc
                   (filter (fun kd =>
                              match Snippet.isShared (snd kd) with
                              | Some b => Bool.eqb b false
                              | None => false
                              end) (World.docs w)))
                [] [uncategorized] categoriesOf_initial) as Hp.
  pose proof (fold_listSnippet_from
                (orderByCreatedAtDesc
                   (filter (fun kd =>
                              match Snippet.isShared (snd kd) with
                              | Some b => Bool.eqb b false
                              | None => false
                              end) (World.docs w)))) as Hp'.
  destruct (fold_left listSnippet _ ([], [uncategorized]))
    as [personal categories].
  cbn [World.docs World.called World.calls World.fault].
  destruct (World.fault w (S (World.calls w))) as [e|] eqn:Hf2.
  { cbn. split; [reflexivity|]. exists e. split; [reflexivity | now right]. }
  pose proof (fold_listSnippet
                (orderByCreatedAtDesc
                   (filter (fun kd =>
                              match Snippet.isShared (snd kd) with
                              | Some b => Bool.eqb b true
                              | None => false
                              end) (World.docs w)))
                [] [uncategorized] categoriesOf_initial) as Hs.
  pose proof (fold_listSnippet_from
                (orderByCreatedAtDesc
                   (filter (fun kd =>
                              match Snippet.isShared (snd kd) with
                              | Some b => Bool.eqb b true
                              | None => false
                              end) (World.docs w)))) as Hs'.
  destruct (fold_left listSnippet _ ([], [uncategorized]))
    as [shared sharedCategories].
  cbn. split; [reflexivity|].
  tauto.
Qed.

Example snippets_listed :
  option_map (fun r => (map SnippetList.id (SnippetList.personal r),
                        SnippetList.categories r,
                        SnippetList.sharedCategories r))
    (match fst (getSnippets (fun docs => docs) listWorld) with
     | Return r => Some r
     | Throw _ => None
     end)
  = Some ([utf16 "p1"; utf16 "p2"; utf16 "p3"; utf16 "p4"],
          [uncategorized; utf16 "mail"],
          [uncategorized; utf16 "mail"]).
Proof. reflexivity. Qed.

(* ================================================================== *)
(** * Properties of the backups and of the logs *)

Section CollectionFacts.

Variable D : Type.

Lemma filter_filter (A : Type) (f g : A -> bool) (l : list A) :
  filter f (filter g l) = filter (fun x => g x && f x) l.
Proof.
  induction l as [|x l IH]; simpl; [reflexivity|].
  destruct (g x); simpl; [destruct (f x)|]; now rewrite IH.
Qed.

Lemma fold_remove (snapshot ds : list (str * D)) :
  fold_left (fun ds kd => World.remove ds (fst kd)) snapshot ds
  = filter (fun kd =>
              negb (existsb (fun s => Str.eqb (fst kd) (fst s)) snapshot))
           ds.
Proof.
  revert ds. induction snapshot as [|s snapshot IH]; intros ds; simpl.
  - symmetry. apply forallb_filter_id. now apply forallb_forall.
  - rewrite IH. unfold World.remove. rewrite filter_filter.
    apply filter_ext. intros kd. now rewrite negb_orb.
Qed.

Lemma keys_inj (ds : list (str * D)) (a b : str * D) :
  NoDup (map fst ds) -> In a ds -> In b ds -> fst a = fst b -> a = b.
Proof.
  induction ds as [|x ds IH]; simpl; intros Hnd Ha Hb Hab; [contradiction|].
  inversion Hnd as [|? ? Hx Hnd']; subst.
  destruct Ha as [Ha|Ha], Hb as [Hb|Hb]; subst.
  - reflexivity.
  - exfalso. apply Hx. rewrite Hab. now apply in_map.
  - exfalso. apply Hx. rewrite <- Hab. now apply in_map.
  - now apply IH.
Qed.

Lemma fold_remove_filter (P : str * D -> bool) (ds : list (str * D)) :
  NoDup (map fst ds) ->
  fold_left (fun ds kd => World.remove ds (fst kd)) (filter P ds) ds
  = filter (fun kd => negb (P kd)) ds.
Proof.
  intros Hnd. rewrite fold_remove. apply filter_ext_in. intros kd Hkd.
  f_equal. destruct (P kd) eqn:HP.
  - apply existsb_exists. exists kd. split.
    + apply filter_In. now split.
    + apply str_eqb_refl.
  - destruct (existsb _ _) eqn:Hex; [|reflexivity].
    apply existsb_exists in Hex. destruct Hex as [s [Hs Heq]].
    apply filter_In in Hs. destruct Hs as [Hs HPs].
    apply str_eqb_eq in Heq.
    assert (kd = s) by (now apply (keys_inj ds)). congruence.
Qed.

Lemma lookup_absent (ds : list (str * D)) (id : str) :
  ~ In id (map fst ds) -> World.lookup ds id = None.
Proof.
  induction ds as [|[k d] ds IH]; simpl; intros Hid; [reflexivity|].
  destruct (Str.eqb k id) eqn:Hk.
  - apply str_eqb_eq in Hk. exfalso. apply Hid. now left.
  - apply IH. intros Hin. apply Hid. now right.
Qed.

Lemma lookup_filter (Q : str * D -> bool) (ds : list (str * D)) (id : str) :
  NoDup (map fst ds) ->
  World.lookup (filter Q ds) id
  = match World.lookup ds id with
    | Some d => if Q (id, d) then Some d else None
    | None => None
    end.
Proof.
  induction ds as [|[k d] ds IH]; simpl; intros Hnd; [reflexivity|].
  inversion Hnd as [|? ? Hk Hnd']; subst.
  destruct (Str.eqb k id) eqn:Hid.
  - apply str_eqb_eq in Hid. subst k.
    destruct (Q (id, d)); simpl.
    + now rewrite str_eqb_refl.
    + apply lookup_absent. intros Hin. apply Hk.
      apply in_map_iff in Hin. destruct Hin as [x [Hx Hin]].
      apply filter_In in Hin. destruct Hin as [Hin _].
      rewrite <- Hx. now apply in_map.
  - destruct (Q (k, d)); simpl; [rewrite Hid|]; now apply IH.
Qed.



End CollectionFacts.

Lemma cleanupOld_outcome (daysBefore : Z -> Z -> Z) (D : Type)
      (timestampOf : D -> option Z) (maxAgeDays : Z) (errorPrefix : str)
      (w : World.t D) :
  NoDup (map fst (World.docs w)) ->
  let threshold := daysBefore (World.time w (World.ticks w)) maxAgeDays in
  let (out, w') :=
    cleanupOld daysBefore D timestampOf maxAgeDays errorPrefix w in
  (forall count,
      out = Return count ->
      count = length (filter (olderThan D timestampOf threshold)
                             (World.docs w))
      /\ World.docs w'
         = filter (fun kd => negb (olderThan D timestampOf threshold kd))
                  (World.docs w)
      /\ forall id,
          World.lookup (World.docs w') id
          = match World.lookup (World.docs w) id with
            | Some d =>
              if olderThan D timestampOf threshold (id, d) then None
              else Some d
            | None => None
            end)
  /\ (forall error,
         out = Throw error ->
         World.docs w' = World.docs w
         /\ exists message,
             error = errorPrefix ++ message
             /\ (World.fault w (World.calls w) = Some message
                 \/ World.fault w (S (World.calls w)) = Some message))
  /\ (World.fault w (World.calls w) = None ->
      World.fault w (S (World.calls w)) = None ->
      exists count, out = Return count)
  /\ (filter (olderThan D timestampOf threshold) (World.docs w) = [] ->
      World.calls w' = S (World.calls w)).
Proof.
  intros Hnd threshold.
  unfold cleanupOld, io_try, io_bind, Date_now, where_timestamp_before,
    batch_commit, dbCall, io_throw, io_ret.
  cbn [World.docs World.called World.calls World.fault World.ticks
       World.time World.ticked].
  fold threshold.
  destruct (World.fault w (World.calls w)) as [e|] eqn:Hf.
  { cbn. split; [intros; discriminate|]. split.
    - intros error [= <-]. split; [reflexivity|]. exists e. now split; [|left].
    - split; [intros; discriminate | reflexivity]. }
  cbn [World.docs World.called World.calls World.fault World.ticks
       World.time World.ticked].
  set (old := filter (olderThan D timestampOf threshold) (World.docs w)).
  assert (Hrest : forall id,
             World.lookup
               (filter (fun kd => negb (olderThan D timestampOf threshold kd))
                       (World.docs w)) id
             = match World.lookup (World.docs w) id with
               | Some d =>
                 if olderThan D timestampOf threshold (id, d) then None
                 else Some d
               | None => None
               end).
  { intros id. rewrite lookup_filter by exact Hnd.
    destruct (World.lookup (World.docs w) id) as [d|]; [|reflexivity].
    now destruct (olderThan D timestampOf threshold (id, d)). }
  destruct (0 <? length old) eqn:Hcount;
    cbn [World.docs World.called World.calls World.fault World.ticks
         World.time World.ticked].
  - destruct (World.fault w (S (World.calls w))) as [e|] eqn:Hf2.
    + cbn. split; [intros; discriminate|]. split.
      * intros error [= <-]. split; [reflexivity|]. exists e.
        now split; [|right].
      * split; [intros; discriminate|].
        intros Hnil. subst old. rewrite Hnil in Hcount. discriminate.
    + cbn [World.docs World.with_docs World.called World.calls].
      split.
      * intros count [= <-]. split; [reflexivity|].
        subst old. rewrite fold_remove_filter by exact Hnd.
        split; [reflexivity | exact Hrest].
      * split; [intros; discriminate|].
        split; [intros; now eexists|].
        intros Hnil. subst old. rewrite Hnil in Hcount. discriminate.
  - cbn [World.docs World.called World.calls].
    apply Nat.ltb_ge in Hcount.
    assert (Hnil : old = []) by (destruct old; [reflexivity | simpl in Hcount; lia]).
    assert (Hall : filter (fun kd => negb (olderThan D timestampOf threshold kd))
                          (World.docs w) = World.docs w).
    { apply forallb_filter_id. apply forallb_forall. intros kd Hkd.
      destruct (olderThan D timestampOf threshold kd) eqn:Ho; [|reflexivity].
      assert (In kd old) by (apply filter_In; now split).
      rewrite Hnil in *. contradiction. }
    split.
    + intros count [= <-]. split; [reflexivity|].
      split; [now rewrite Hall|].
      intros id. rewrite <- Hrest. now rewrite Hall.
    + split; [intros; discriminate|].
      split; [intros; now eexists | reflexivity].
Qed.

(** X19. [cleanupOldLogs] and [cleanupOldBackups], on a collection
    whose identifiers are distinct: when they return, the count is the
    number of documents whose [timestamp] is a number below the time
    the host's calendar gives for 90 (30) days before the clock, exactly
    these are gone, the others are kept in their order, a document
    without [timestamp] among them; when they throw, no document is
    deleted and the message is the fault of one of the two calls after
    the prefix; and with nothing to delete nothing is committed. *)
Theorem cleanupOld_removes_exactly_old
        (daysBefore : Z -> Z -> Z) (D : Type)
        (timestampOf : D -> option Z) (maxAgeDays : Z) (errorPrefix : str)
        (w : World.t D) :
  NoDup (map fst (World.docs w)) ->
  let threshold := daysBefore (World.time w (World.ticks w)) maxAgeDays in
  let (out, w') :=
    cleanupOld daysBefore D timestampOf maxAgeDays errorPrefix w in
  (forall count,
      out = Return count ->
      count = length (filter (olderThan D timestampOf threshold)
                             (World.docs w))
      /\ World.docs w'
         = filter (fun kd => negb (olderThan D timestampOf threshold kd))
                  (World.docs w)
      /\ forall id,
          World.lookup (World.docs w') id
          = match World.lookup (World.docs w) id with
            | Some d =>
              if olderThan D timestampOf threshold (id, d) then None
              else Some d
            | None => None
            end)
  /\ (forall error,
         out = Throw error ->
         World.docs w' = World.docs w
         /\ exists message,
             error = errorPrefix ++ message
             /\ (World.fault w (World.calls w) = Some message
                 \/ World.fault w (S (World.calls w)) = Some message))
  /\ (World.fault w (World.calls w) = None ->
      World.fault w (S (World.calls w)) = None ->
      exists count, out = Return count)
  /\ (filter (olderThan D timestampOf threshold) (World.docs w) = [] ->
      World.calls w' = S (World.calls w)).
Proof. apply cleanupOld_outcome. Qed.

Lemma backupWorld_distinct : NoDup (map fst (World.docs backupWorld)).
Proof.
  repeat constructor; simpl; intuition discriminate.
Qed.

Lemma cleanupOld_removes_exactly_old_witness :
  NoDup (map fst (World.docs backupWorld))
  /\ fst (cleanupOldBackups plainDays backupWorld) = Return 1
  /\ map fst (World.docs (snd (cleanupOldBackups plainDays backupWorld)))
     = [utf16 "b2"; utf16 "b3"].
Proof.
  split; [exact backupWorld_distinct|].
  unfold cleanupOldBackups.
  pose proof (cleanupOld_removes_exactly_old
                plainDays Backup.doc Backup.timestamp MAX_BACKUPS_AGE_DAYS
                (utf16 "古いバックアップの削除中にエラーが発生しました: ")
                backupWorld backupWorld_distinct) as H.
  cbv zeta in H.
  destruct (cleanupOld plainDays Backup.doc Backup.timestamp
                       MAX_BACKUPS_AGE_DAYS _ backupWorld) as [out w'].
  destruct H as [Hret [_ [Hok _]]].
  destruct (Hok eq_refl eq_refl) as [count Hout].
  destruct (Hret count Hout) as [Hcount [Hdocs _]].
  simpl fst. simpl snd. rewrite Hout, Hcount, Hdocs. split; reflexivity.
Defined.







(* ================================================================== *)
(** * Properties of the routes of the snippets *)



(* ================================================================== *)
(** * Properties of the export to PDF *)


(** Drive refuses the upload: the export succeeds without a link. *)
Example export_survives_drive :
  fst (generatePDF driveDown (utf16 "text") None None [])
  = Return {| Pdf.result_title := defaultTitle;
              Pdf.url := utf16 "https://signed/exports/"
                         ++ defaultTitle ++ utf16 ".pdf";
              Pdf.driveUrl := None |}.
Proof. reflexivity. Qed.
